(** * Smart camera dashboard: detection ingestion and retrieval data path

    A shallow embedding of the Express application in [src/index.js] and of
    its two sibling variants in [src/unnamed/part_000].  The three files are
    the same application; they differ in the page names they render, in the
    presence of the [/video/:videoId] route and in the [catch] block of the
    [/search] route.

    The handlers are embedded as pure functions over an explicit world (the
    [detections] collection and the storage bucket).  What the handlers call
    but do not define is modelled from its documentation:
    - the ECMAScript operations the handlers apply to request data
      (ToBoolean, ToString, [parseFloat], [parseInt], [new Date], property
      lookup and [Object.values] on a plain object, [Array.prototype.sort]);
    - the regular-expression fragment made of literals, [.], [*], [+], [?],
      [|], groups and identity escapes; what the engine does with a pattern
      outside the fragment is a parameter of the environment;
    - MongoDB's [find], [sort], [distinct], [insertOne], [deleteOne] on a
      list of documents, and the bucket's [exists] and [makePublic].

    Text is modelled with Rocq's 8-bit [ascii]; the embedding is exact on
    7-bit text (case folding touches A-Z and a-z only).  A Number is an
    IEEE 754 binary64 value: decimal text is rounded to the nearest value,
    ties to even, and a value is printed with the fewest digits that read
    back as the same value.  What the BSON serialiser of the driver makes of
    an array or of an object differs between its releases and is a parameter
    of the environment. *)

From Stdlib Require Import List String Ascii ZArith NArith QArith Bool Lia.
From Stdlib Require Import Permutation Sorted DecimalString DecimalN.
From Stdlib Require DecimalPos DecimalFacts.
Import ListNotations.

Close Scope Q_scope.
Open Scope string_scope.
Open Scope list_scope.

(** ** Exceptions and results *)

Inductive exn :=
| TypeError                      (* thrown by the language *)
| SyntaxError                    (* thrown by [new RegExp] *)
| ReferenceError (name : string) (* an identifier that is not in scope *)
| BSONError                      (* thrown by the bson package *)
| MongoError                     (* a rejected store operation *)
| StorageError.                  (* a rejected bucket operation *)

Inductive result (A : Type) :=
| Ok (a : A)
| Throw (e : exn).

Arguments Ok {A} a.
Arguments Throw {A} e.

Definition bind {A B} (r : result A) (k : A -> result B) : result B :=
  match r with
  | Ok a => k a
  | Throw e => Throw e
  end.

Notation "x <- r ;; k" := (bind r (fun x => k))
  (at level 61, r at next level, right associativity).

(** ** ECMAScript values

    [express.json()] yields JSON values; a key that is absent from the body
    destructures to [undefined]. *)

(** A Number is a binary64 value (ECMA-262 6.1.6.1).  A finite one is
    written in the canonical form of IEEE 754: a significand below [2^53]
    and an exponent from -1074 to 971, the significand being at least
    [2^52] unless the exponent is -1074; zero is [Fin _ 0 0]. *)
Inductive number :=
| NaN
| Inf (neg : bool)
| Fin (neg : bool) (m : N) (e : Z).   (* (-1)^neg * m * 2^e *)

Definition is_binary64 (x : number) : bool :=
  match x with
  | NaN | Inf _ => true
  | Fin _ m e =>
      if N.eqb m 0 then Z.eqb e 0
      else (N.ltb m (2 ^ 53) && Z.leb e 971
            && ((N.leb (2 ^ 52) m && Z.leb (-1074) e) || Z.eqb e (-1074)))%bool
  end.

#[warnings="-register-all"]
Inductive jsval :=
| VUndefined
| VNull
| VBool (b : bool)
| VNum (n : number)
| VStr (s : string)
| VArr (l : list jsval)
| VObj (kvs : list (string * jsval)).

Definition num_is_zero (n : number) : bool :=
  match n with
  | Fin _ m _ => N.eqb m 0
  | _ => false
  end.

(** ToBoolean (ECMA-262 7.1.2): the operand of [!]. *)
Definition ToBoolean (v : jsval) : bool :=
  match v with
  | VUndefined | VNull => false
  | VBool b => b
  | VNum NaN => false
  | VNum n => negb (num_is_zero n)
  | VStr s => negb (String.eqb s "")
  | VArr _ | VObj _ => true
  end.

(** [v === undefined] *)
Definition is_undefined (v : jsval) : bool :=
  match v with
  | VUndefined => true
  | _ => false
  end.

(** *** Text helpers *)

Definition chars (s : string) : list ascii := list_ascii_of_string s.
Definition text (l : list ascii) : string := string_of_list_ascii l.

Definition code (c : ascii) : N := N_of_ascii c.

Definition is_digit (c : ascii) : bool :=
  (N.leb 48 (code c) && N.leb (code c) 57)%bool.

Definition digit_val (c : ascii) : N := (code c - 48)%N.

Definition hex_val (c : ascii) : option N :=
  let n := code c in
  if (N.leb 48 n && N.leb n 57)%bool then Some (n - 48)%N
  else if (N.leb 97 n && N.leb n 102)%bool then Some (n - 87)%N
  else if (N.leb 65 n && N.leb n 70)%bool then Some (n - 55)%N
  else None.

(** StrWhiteSpaceChar restricted to code points below 256. *)
Definition is_space (c : ascii) : bool :=
  let n := code c in
  ((N.leb 9 n && N.leb n 13) || N.eqb n 32 || N.eqb n 160)%bool.

Fixpoint drop_while (p : ascii -> bool) (l : list ascii) : list ascii :=
  match l with
  | c :: l' => if p c then drop_while p l' else l
  | [] => []
  end.

Fixpoint take_while (p : ascii -> bool) (l : list ascii) : list ascii :=
  match l with
  | c :: l' => if p c then c :: take_while p l' else []
  | [] => []
  end.

Definition is_zero_char (c : ascii) : bool := N.eqb (code c) 48.

Definition digits_val (ds : list ascii) : N :=
  fold_left (fun acc c => acc * 10 + digit_val c)%N ds 0%N.

Definition N_digits (n : N) : list ascii :=
  chars (NilEmpty.string_of_uint (N.to_uint n)).

(** *** The Number value of a decimal (ECMA-262 6.1.6.1, 7.1.4.1.1)

    The Number value of a real is the binary64 value nearest to it, the one
    with an even significand when two are as near; from [2^1024 - 2^970] on
    it is an infinity.  The real is given as a ratio [p/q] of positive
    integers. *)

(** [x * 2^k] for a positive [k], [x] otherwise. *)
Definition scale (x k : Z) : Z := (x * 2 ^ Z.max 0 k)%Z.

(** The integer [l] with [2^l <= p/q < 2^(l+1)]. *)
Definition log2_ratio (p q : Z) : Z :=
  let d := (Z.log2 p - Z.log2 q)%Z in
  if (scale q d <=? scale p (- d))%Z then d else (d - 1)%Z.

Definition round_ratio (neg : bool) (p q : Z) : number :=
  let e := Z.max (log2_ratio p q - 52) (-1074) in
  let num := scale p (- e) in
  let den := scale q e in
  let quo := (num / den)%Z in
  let m := match (2 * (num mod den) ?= den)%Z with
           | Lt => quo
           | Gt => (quo + 1)%Z
           | Eq => if Z.even quo then quo else (quo + 1)%Z
           end in
  let e' := if (m =? 2 ^ 53)%Z then (e + 1)%Z else e in
  let m' := if (m =? 2 ^ 53)%Z then (2 ^ 52)%Z else m in
  if (m' =? 0)%Z then Fin neg 0 0
  else if (e' <=? 971)%Z then Fin neg (Z.to_N m') e'
  else Inf neg.

(** The Number value of [(-1)^neg * m * 10^e]. *)
Definition of_decimal (neg : bool) (m : N) (e : Z) : number :=
  if N.eqb m 0 then Fin neg 0 0
  else if (0 <=? e)%Z then round_ratio neg (Z.of_N m * 10 ^ e) 1
  else round_ratio neg (Z.of_N m) (10 ^ (- e)).

(** [x] with the sign [neg]. *)
Definition set_sign (neg : bool) (x : number) : number :=
  match x with
  | NaN => NaN
  | Inf _ => Inf neg
  | Fin _ m e => Fin neg m e
  end.

(** [2^l <= p/q < 2^(l+1)], without fractions. *)
Definition binade (p q l : Z) : Prop :=
  (scale q l <= scale p (- l) < 2 * scale q l)%Z.

Definition same_number (a b : number) : bool :=
  match a, b with
  | NaN, NaN => true
  | Inf s, Inf t => Bool.eqb s t
  | Fin s m e, Fin t n f => (Bool.eqb s t && N.eqb m n && Z.eqb e f)%bool
  | _, _ => false
  end.

(** *** Number::toString (ECMA-262 6.1.6.1.20), radix 10

    The digits printed for [x] are those of the integer [s] with the fewest
    digits such that [s * 10^q] has [x] for Number value; of two such [s]
    the one nearer to [x] is taken, and the even one when they are as near.
    The fewest digits go with the greatest [q], and at that [q] the integer
    is a neighbour of [x / 10^q]. *)

(** [m * 2^e / 10^q] as a ratio of integers. *)
Definition decimal_num (m : N) (e q : Z) : Z :=
  (scale (Z.of_N m) e * 10 ^ Z.max 0 (- q))%Z.

Definition decimal_den (e q : Z) : Z :=
  (scale 1 (- e) * 10 ^ Z.max 0 q)%Z.

Definition decimal_floor (m : N) (e q : Z) : N :=
  Z.to_N (decimal_num m e q / decimal_den e q).

Definition candidate (m : N) (e q : Z) : option N :=
  let s0 := decimal_floor m e q in
  let s1 := (s0 + 1)%N in
  let ok0 := (negb (N.eqb s0 0)
              && same_number (of_decimal false s0 q) (Fin false m e))%bool in
  let ok1 := same_number (of_decimal false s1 q) (Fin false m e) in
  match ok0, ok1 with
  | true, false => Some s0
  | false, true => Some s1
  | false, false => None
  | true, true =>
      match (2 * (decimal_num m e q mod decimal_den e q)
             ?= decimal_den e q)%Z with
      | Lt => Some s0
      | Gt => Some s1
      | Eq => if N.even s0 then Some s0 else Some s1
      end
  end.

(** The search, downwards from [q].  It ends at the latest where [q] is the
    lesser of [e] and 0: there [m * 2^e / 10^q] is an integer. *)
Fixpoint shortest_from (fuel : nat) (m : N) (e q : Z) : N * Z :=
  match fuel with
  | O => (decimal_floor m e q, q)
  | S fuel' =>
      match candidate m e q with
      | Some s => (s, q)
      | None => shortest_from fuel' m e (q - 1)
      end
  end.

Definition shortest (m : N) (e : Z) : N * Z :=
  let hi := Z.of_nat (List.length (N_digits (decimal_floor m e 0))) in
  let lo := Z.min e 0 in
  shortest_from (Z.to_nat (hi - lo)) m e hi.

(** The text of [s * 10^q].  [k] is the number of digits of [s] without its
    trailing zeros and [n] the position of the decimal point, so that the
    value is [0.s * 10^n]. *)

Definition zeros (k : nat) : list ascii := repeat "0"%char k.

Definition exponent_part (n : Z) : list ascii :=
  "e"%char :: (if Z.ltb (n - 1) 0 then "-"%char else "+"%char)
           :: N_digits (Z.abs_N (n - 1)).

Definition positive_to_chars (m : N) (e : Z) : list ascii :=
  let all := N_digits m in
  let s := rev (drop_while is_zero_char (rev all)) in
  let k := Z.of_nat (List.length s) in
  let n := (Z.of_nat (List.length all) + e)%Z in
  if (Z.leb k n && Z.leb n 21)%bool then
    s ++ zeros (Z.to_nat (n - k))
  else if (Z.ltb 0 n && Z.leb n 21)%bool then
    firstn (Z.to_nat n) s ++ "."%char :: skipn (Z.to_nat n) s
  else if (Z.ltb (-6) n && Z.leb n 0)%bool then
    "0"%char :: "."%char :: zeros (Z.to_nat (- n)) ++ s
  else
    match s with
    | [d] => d :: exponent_part n
    | d :: ds => d :: "."%char :: ds ++ exponent_part n
    | [] => []
    end.

Definition Number_toString (x : number) : string :=
  match x with
  | NaN => "NaN"
  | Inf false => "Infinity"
  | Inf true => "-Infinity"
  | Fin neg m e =>
      if N.eqb m 0 then "0"
      else
        let '(s, q) := shortest m e in
        text ((if neg then ["-"%char] else []) ++ positive_to_chars s q)
  end.

Definition has_key (k : string) (kvs : list (string * jsval)) : bool :=
  existsb (fun kv => String.eqb (fst kv) k) kvs.

(** *** ToString (ECMA-262 7.1.17) on JSON values

    An array is joined with commas, [null] and [undefined] elements printing
    as the empty string.  A plain object prints through
    [Object.prototype.toString] unless it has an own [toString] property: a
    JSON value is never callable, [Object.prototype.valueOf] returns the
    object itself, and OrdinaryToPrimitive (7.1.1.1) throws a TypeError. *)

Fixpoint ToString (v : jsval) : result string :=
  match v with
  | VUndefined => Ok "undefined"
  | VNull => Ok "null"
  | VBool true => Ok "true"
  | VBool false => Ok "false"
  | VNum n => Ok (Number_toString n)
  | VStr s => Ok s
  | VArr l =>
      (fix join (l : list jsval) : result string :=
         match l with
         | [] => Ok ""
         | x :: rest =>
             s <- match x with
                  | VUndefined | VNull => Ok ""
                  | _ => ToString x
                  end ;;
             match rest with
             | [] => Ok s
             | _ => r <- join rest ;; Ok (s ++ "," ++ r)%string
             end
         end) l
  | VObj kvs =>
      if has_key "toString" kvs then Throw TypeError
      else Ok "[object Object]"
  end.

(** ToPrimitive (7.1.1) without a preferred type, as [new Date(v)] applies
    it.  On JSON values [valueOf] never yields a primitive, so an array or an
    object ends in the same [toString] call as above. *)
Definition ToPrimitive (v : jsval) : result jsval :=
  match v with
  | VArr _ | VObj _ => s <- ToString v ;; Ok (VStr s)
  | _ => Ok v
  end.

(** *** parseFloat (ECMA-262 19.2.4) and parseInt (19.2.5)

    Both convert their argument with ToString, skip leading white space and
    read the longest prefix that is a literal; without such a prefix the
    result is NaN, and otherwise the Number value of what was read. *)

Fixpoint starts_with (p l : list ascii) : bool :=
  match p, l with
  | [], _ => true
  | a :: p', b :: l' => (Ascii.eqb a b && starts_with p' l')%bool
  | _ :: _, [] => false
  end.

Definition is_exp_char (c : ascii) : bool :=
  (Ascii.eqb c "e" || Ascii.eqb c "E")%bool.

(** The value of an ExponentPart at the head of [l], if there is one. *)
Definition read_exponent (l : list ascii) : Z :=
  match l with
  | c :: l1 =>
      if is_exp_char c then
        match l1 with
        | "-"%char :: l2 =>
            match take_while is_digit l2 with
            | [] => 0
            | ds => - Z.of_N (digits_val ds)
            end
        | "+"%char :: l2 => Z.of_N (digits_val (take_while is_digit l2))
        | _ => Z.of_N (digits_val (take_while is_digit l1))
        end
      else 0
  | [] => 0
  end%Z.

Definition read_unsigned (neg : bool) (l : list ascii) : number :=
  if starts_with (chars "Infinity") l then Inf neg
  else
    let ip := take_while is_digit l in
    let l1 := skipn (List.length ip) l in
    match l1 with
    | "."%char :: l2 =>
        let fp := take_while is_digit l2 in
        match ip, fp with
        | [], [] => NaN
        | _, _ =>
            of_decimal neg (digits_val (ip ++ fp))
              (read_exponent (skipn (List.length fp) l2)
                 - Z.of_nat (List.length fp))
        end
    | _ =>
        match ip with
        | [] => NaN
        | _ => of_decimal neg (digits_val ip) (read_exponent l1)
        end
    end.

Definition parseFloat_chars (l : list ascii) : number :=
  match drop_while is_space l with
  | "-"%char :: l' => read_unsigned true l'
  | "+"%char :: l' => read_unsigned false l'
  | l' => read_unsigned false l'
  end.

Definition parseFloat (v : jsval) : result number :=
  s <- ToString v ;; Ok (parseFloat_chars (chars s)).

Definition is_hex_digit (c : ascii) : bool :=
  match hex_val c with
  | Some _ => true
  | None => false
  end.

Definition hex_digits_val (ds : list ascii) : N :=
  fold_left (fun acc c => acc * 16 + match hex_val c with
                                     | Some d => d
                                     | None => 0
                                     end)%N ds 0%N.

Definition read_int (neg : bool) (l : list ascii) : number :=
  match l with
  | "0"%char :: x :: l' =>
      if (Ascii.eqb x "x" || Ascii.eqb x "X")%bool then
        match take_while is_hex_digit l' with
        | [] => NaN
        | ds => of_decimal neg (hex_digits_val ds) 0
        end
      else of_decimal neg (digits_val (take_while is_digit l)) 0
  | _ =>
      match take_while is_digit l with
      | [] => NaN
      | ds => of_decimal neg (digits_val ds) 0
      end
  end.

Definition parseInt_chars (l : list ascii) : number :=
  match drop_while is_space l with
  | "-"%char :: l' => read_int true l'
  | "+"%char :: l' => read_int false l'
  | l' => read_int false l'
  end.

(** [parseInt(v)], the radix being absent. *)
Definition parseInt (v : jsval) : result number :=
  s <- ToString v ;; Ok (parseInt_chars (chars s)).

(** *** Date

    A Date holds a time value in milliseconds or NaN.  [Date.parse] falls
    back to implementation-specific formats (ECMA-262 21.4.3.2), so the
    parser of date strings is a parameter of the environment. *)

Inductive date :=
| InvalidDate
| Time (ms : Z).

Definition truncate (neg : bool) (m : N) (e : Z) : Z :=
  let mag := if Z.leb 0 e then (Z.of_N m * 2 ^ e)%Z
             else (Z.of_N m / 2 ^ (- e))%Z in
  if neg then (- mag)%Z else mag.

(** TimeClip (21.4.1.31) *)
Definition TimeClip (n : number) : date :=
  match n with
  | Fin neg m e =>
      let t := truncate neg m e in
      if Z.leb (Z.abs t) 8640000000000000 then Time t else InvalidDate
  | _ => InvalidDate
  end.

(** ToNumber (7.1.4) on the primitives that are not strings. *)
Definition ToNumber_prim (v : jsval) : number :=
  match v with
  | VNull => Fin false 0 0
  | VBool true => of_decimal false 1 0
  | VBool false => Fin false 0 0
  | VNum n => n
  | _ => NaN
  end.

(** [new Date(v)] (21.4.2.1) *)
Definition Date_new (Date_parse : string -> date) (v : jsval) : result date :=
  p <- ToPrimitive v ;;
  match p with
  | VStr s => Ok (Date_parse s)
  | _ => Ok (TimeClip (ToNumber_prim p))
  end.

(** ** Regular expressions

    [new RegExp(item, 'i')] checks the pattern's syntax in the server; the
    pattern then travels to MongoDB, which evaluates it with PCRE.  On the
    fragment below both read a pattern the same way.  [.] follows PCRE and
    matches every character but the line feed. *)

Inductive regex :=
| Void
| Eps
| Chr (c : ascii)
| Any
| Seq (r1 r2 : regex)
| Alt (r1 r2 : regex)
| Star (r : regex).

(** SyntaxCharacter (ECMA-262 22.2.1) *)
Definition syntax_chars : list ascii :=
  chars "^$\.*+?()[]{}|".

Definition is_syntax_char (c : ascii) : bool :=
  existsb (Ascii.eqb c) syntax_chars.

(** A group under construction: the alternatives already closed by [|] and
    the terms of the alternative being read, both most recent first. *)
Record frame := { alts : list regex; terms : list regex }.

Definition empty_frame : frame := {| alts := []; terms := [] |}.

Inductive qstate :=
| NoAtom        (* nothing to repeat *)
| Atom          (* the last term may take a quantifier *)
| Quantified    (* the last term has one; [?] would make it lazy *)
| Lazy.         (* the last term has a lazy quantifier *)

Inductive parsed :=
| Parsed (r : regex)
| Invalid       (* [new RegExp] throws a SyntaxError *)
| Outside.      (* the pattern leaves the fragment *)

Fixpoint seq_of (ts : list regex) : regex :=
  match ts with
  | [] => Eps
  | t :: ts' => Seq t (seq_of ts')
  end.

Fixpoint alt_of (first : regex) (others : list regex) : regex :=
  match others with
  | [] => first
  | r :: rs => Alt first (alt_of r rs)
  end.

Definition close (f : frame) : regex :=
  match rev (seq_of (rev f.(terms)) :: f.(alts)) with
  | [] => Eps
  | r :: rs => alt_of r rs
  end.

Definition push_term (t : regex) (f : frame) : frame :=
  {| alts := f.(alts); terms := t :: f.(terms) |}.

Definition next_alt (f : frame) : frame :=
  {| alts := seq_of (rev f.(terms)) :: f.(alts); terms := [] |}.

Definition quantify (c : ascii) (t : regex) : regex :=
  if Ascii.eqb c "*" then Star t
  else if Ascii.eqb c "+" then Seq t (Star t)
  else Alt t Eps.

Definition is_quantifier (c : ascii) : bool :=
  (Ascii.eqb c "*" || Ascii.eqb c "+" || Ascii.eqb c "?")%bool.

Fixpoint parse_loop (input : list ascii) (cur : frame) (q : qstate)
    (stack : list frame) : parsed :=
  match input with
  | [] =>
      match stack with
      | [] => Parsed (close cur)
      | _ :: _ => Invalid                          (* unterminated group *)
      end
  | c :: rest =>
      if Ascii.eqb c "\" then
        match rest with
        | [] => Invalid                            (* \ at end of pattern *)
        | d :: rest' =>
            if (is_syntax_char d || Ascii.eqb d "/")%bool
            then parse_loop rest' (push_term (Chr d) cur) Atom stack
            else Outside
        end
      else if Ascii.eqb c "(" then
        match rest with
        | "?"%char :: ":"%char :: rest' =>
            parse_loop rest' empty_frame NoAtom (cur :: stack)
        | "?"%char :: _ => Outside
        | _ => parse_loop rest empty_frame NoAtom (cur :: stack)
        end
      else if Ascii.eqb c ")" then
        match stack with
        | [] => Invalid                            (* unmatched ) *)
        | parent :: stack' =>
            parse_loop rest (push_term (close cur) parent) Atom stack'
        end
      else if Ascii.eqb c "|" then
        parse_loop rest (next_alt cur) NoAtom stack
      else if is_quantifier c then
        match q, cur.(terms) with
        | Atom, t :: ts =>
            parse_loop rest
              {| alts := cur.(alts); terms := quantify c t :: ts |}
              Quantified stack
        | Quantified, _ =>
            if Ascii.eqb c "?" then parse_loop rest cur Lazy stack
            else Invalid                           (* nothing to repeat *)
        | _, _ => Invalid                          (* nothing to repeat *)
        end
      else if Ascii.eqb c "." then
        parse_loop rest (push_term Any cur) Atom stack
      else if is_syntax_char c then Outside        (* [ ] { } ^ $ *)
      else parse_loop rest (push_term (Chr c) cur) Atom stack
  end.

Definition parse_pattern (p : string) : parsed :=
  parse_loop (chars p) empty_frame NoAtom [].

(** Case folding of the [i] flag, on 7-bit letters. *)
Definition fold_case (c : ascii) : ascii :=
  let n := code c in
  if (N.leb 65 n && N.leb n 90)%bool then ascii_of_N (n + 32) else c.

Definition same_letter (a b : ascii) : bool :=
  Ascii.eqb (fold_case a) (fold_case b).

Definition line_feed : ascii := ascii_of_N 10.

Fixpoint nullable (r : regex) : bool :=
  match r with
  | Void | Chr _ | Any => false
  | Eps | Star _ => true
  | Seq r1 r2 => (nullable r1 && nullable r2)%bool
  | Alt r1 r2 => (nullable r1 || nullable r2)%bool
  end.

(** Brzozowski derivative of [r] by the character [c], letters compared
    without case. *)
Fixpoint der (c : ascii) (r : regex) : regex :=
  match r with
  | Void | Eps => Void
  | Chr a => if same_letter a c then Eps else Void
  | Any => if Ascii.eqb c line_feed then Void else Eps
  | Seq r1 r2 =>
      if nullable r1 then Alt (Seq (der c r1) r2) (der c r2)
      else Seq (der c r1) r2
  | Alt r1 r2 => Alt (der c r1) (der c r2)
  | Star r1 => Seq (der c r1) (Star r1)
  end.

(** Does a prefix of [s] match [r]? *)
Fixpoint match_prefix (r : regex) (s : list ascii) : bool :=
  (nullable r ||
   match s with
   | [] => false
   | c :: s' => match_prefix (der c r) s'
   end)%bool.

(** Does [r] match somewhere in [s]?  (An unanchored pattern.) *)
Fixpoint regex_test (r : regex) (s : list ascii) : bool :=
  (match_prefix r s ||
   match s with
   | [] => false
   | _ :: s' => regex_test r s'
   end)%bool.

(** The words of a pattern. *)
Inductive lang : regex -> list ascii -> Prop :=
| lang_eps : lang Eps []
| lang_chr a c : same_letter a c = true -> lang (Chr a) [c]
| lang_any c : c <> line_feed -> lang Any [c]
| lang_seq r1 r2 w1 w2 : lang r1 w1 -> lang r2 w2 -> lang (Seq r1 r2) (w1 ++ w2)
| lang_alt_l r1 r2 w : lang r1 w -> lang (Alt r1 r2) w
| lang_alt_r r1 r2 w : lang r2 w -> lang (Alt r1 r2) w
| lang_star_nil r : lang (Star r) []
| lang_star_cons r w1 w2 :
    lang r w1 -> lang (Star r) w2 -> lang (Star r) (w1 ++ w2).

(** The literal reading of a search term: does [hay] contain [needle],
    letters compared without case?  This is the substring search of the
    specification, against which the patterns are compared. *)
Fixpoint ci_prefix (needle hay : list ascii) : bool :=
  match needle, hay with
  | [], _ => true
  | a :: n', b :: h' => (same_letter a b && ci_prefix n' h')%bool
  | _ :: _, [] => false
  end.

Fixpoint ci_includes (needle hay : list ascii) : bool :=
  (ci_prefix needle hay ||
   match hay with
   | [] => false
   | _ :: h' => ci_includes needle h'
   end)%bool.

(** The strings [new RegExp(s, 'i')] reads as themselves: no character of
    [s] is a syntax character. *)
Definition plain (s : string) : bool :=
  forallb (fun c => negb (is_syntax_char c)) (chars s).

(** ** The document store

    A document of the [detections] collection, as [insertOne] receives it
    from the ingestion route.  The three identifying fields hold whatever
    truthy value the request carried; dates are stored as BSON UTC datetimes,
    that is as milliseconds. *)

Definition ObjectId := N.
Bind Scope N_scope with ObjectId.

Record detection := {
  _id : ObjectId;
  cameraId : jsval;
  videoId : jsval;
  item : jsval;
  confidence : number;
  timestamp : Z;
  timestampSec : number;
  createdAt : Z
}.

(** The data model of the specification: identifiers and labels are
    strings. *)
Definition is_string (v : jsval) : bool :=
  match v with
  | VStr _ => true
  | _ => false
  end.

Definition conforms (d : detection) : bool :=
  (is_string d.(cameraId) && is_string d.(videoId) && is_string d.(item))%bool.

(** js-bson writes a Date through [Long.fromNumber(value.getTime())], which
    sends NaN to zero. *)
Definition bson_date (d : date) : Z :=
  match d with
  | InvalidDate => 0%Z
  | Time ms => ms
  end.

(** *** Ordering *)

Fixpoint insert_by {A} (leb : A -> A -> bool) (x : A) (l : list A) : list A :=
  match l with
  | [] => [x]
  | y :: l' => if leb x y then x :: l else y :: insert_by leb x l'
  end.

(** A stable sort: documents with equal keys keep the order of the scan.
    MongoDB leaves that order open. *)
Fixpoint sort_by {A} (leb : A -> A -> bool) (l : list A) : list A :=
  match l with
  | [] => []
  | x :: l' => insert_by leb x (sort_by leb l')
  end.

Definition num_Q (neg : bool) (m : N) (e : Z) : Q :=
  ((if neg then -1 else 1) * inject_Z (Z.of_N m) * (2 # 1) ^ e)%Q.

(** The order of BSON numbers: NaN sorts below every other number. *)
Definition num_leb (a b : number) : bool :=
  match a, b with
  | NaN, _ => true
  | _, NaN => false
  | Inf true, _ => true
  | _, Inf true => false
  | _, Inf false => true
  | Inf false, _ => false
  | Fin n1 m1 e1, Fin n2 m2 e2 => Qle_bool (num_Q n1 m1 e1) (num_Q n2 m2 e2)
  end.

Definition num_eqb (a b : number) : bool :=
  (num_leb a b && num_leb b a)%bool.

(** [{ timestamp: -1 }] *)
Definition newer_first (a b : detection) : bool :=
  Z.leb b.(timestamp) a.(timestamp).

(** [{ timestampSec: 1 }] *)
Definition earlier_first (a b : detection) : bool :=
  num_leb a.(timestampSec) b.(timestampSec).

(** *** Queries *)

(** [{ field: "text" }]: the field is that string, or an array holding it. *)
Definition eq_string (s : string) (v : jsval) : bool :=
  match v with
  | VStr s' => String.eqb s' s
  | VArr l =>
      existsb (fun x => match x with
                        | VStr s' => String.eqb s' s
                        | _ => false
                        end) l
  | _ => false
  end.

(** [{ field: /pattern/i }]: the field is a matching string, or an array
    holding one. *)
Definition matches_value (m : list ascii -> bool) (v : jsval) : bool :=
  match v with
  | VStr s => m (chars s)
  | VArr l =>
      existsb (fun x => match x with
                        | VStr s => m (chars s)
                        | _ => false
                        end) l
  | _ => false
  end.

(** Equality of BSON values, numbers compared by value. *)
Fixpoint bson_eqb (a b : jsval) : bool :=
  match a, b with
  | VUndefined, VUndefined => true
  | VNull, VNull => true
  | VBool x, VBool y => Bool.eqb x y
  | VNum x, VNum y => num_eqb x y
  | VStr x, VStr y => String.eqb x y
  | VArr l1, VArr l2 =>
      (fix eql (l1 l2 : list jsval) : bool :=
         match l1, l2 with
         | [], [] => true
         | x :: l1', y :: l2' => (bson_eqb x y && eql l1' l2')%bool
         | _, _ => false
         end) l1 l2
  | VObj k1, VObj k2 =>
      (fix eqo (k1 k2 : list (string * jsval)) : bool :=
         match k1, k2 with
         | [], [] => true
         | (n1, x) :: k1', (n2, y) :: k2' =>
             (String.eqb n1 n2 && bson_eqb x y && eqo k1' k2')%bool
         | _, _ => false
         end) k1 k2
  | _, _ => false
  end.

Fixpoint dedup (l : list jsval) : list jsval :=
  match l with
  | [] => []
  | x :: l' => x :: filter (fun y => negb (bson_eqb x y)) (dedup l')
  end.

(** [distinct('item')]: an array contributes each of its elements. *)
Definition field_values (v : jsval) : list jsval :=
  match v with
  | VArr l => l
  | _ => [v]
  end.

Definition distinct_items (coll : list detection) : list jsval :=
  dedup (flat_map (fun d => field_values d.(item)) coll).

Fixpoint delete_first (id : ObjectId) (coll : list detection) : list detection :=
  match coll with
  | [] => []
  | d :: coll' =>
      if N.eqb d.(_id) id then coll' else d :: delete_first id coll'
  end.

Definition has_id (id : ObjectId) (coll : list detection) : bool :=
  existsb (fun d => N.eqb d.(_id) id) coll.

(** *** [Array.prototype.sort] without a comparator (ECMA-262 23.1.3.30)

    Elements are compared through ToString, by code units; [undefined] goes
    last.  ToString runs only when two defined elements are compared. *)

Definition key_leb (a b : option string * jsval) : bool :=
  match fst a, fst b with
  | Some x, Some y => String.leb x y
  | Some _, None => true
  | None, Some _ => false
  | None, None => true
  end.

Fixpoint sort_keys (l : list jsval) : result (list (option string * jsval)) :=
  match l with
  | [] => Ok []
  | VUndefined :: l' => ks <- sort_keys l' ;; Ok ((None, VUndefined) :: ks)
  | v :: l' =>
      s <- ToString v ;; ks <- sort_keys l' ;; Ok ((Some s, v) :: ks)
  end.

Definition Array_sort (l : list jsval) : result (list jsval) :=
  match filter (fun v => negb (is_undefined v)) l with
  | [] => Ok l
  | [v] => Ok (v :: filter is_undefined l)
  | _ => ks <- sort_keys l ;; Ok (map snd (sort_by key_leb ks))
  end.

(** ** A plain object used as a map

    The dashboard groups detections in [videoMap = {}].  Its own properties
    are kept in creation order.  A lookup that finds no own property falls
    through to [Object.prototype]; [Object.values] lists array-index keys
    first, in ascending numeric order, and the other keys in creation order
    (ECMA-262 10.1.11.1). *)

Record video := {
  v_videoId : jsval;
  v_cameraId : jsval;
  v_detections : list detection
}.

Definition videoMap := list (string * video).

Definition Object_prototype_names : list string :=
  [ "constructor"; "__defineGetter__"; "__defineSetter__"; "hasOwnProperty";
    "__lookupGetter__"; "__lookupSetter__"; "isPrototypeOf";
    "propertyIsEnumerable"; "toString"; "valueOf"; "__proto__";
    "toLocaleString" ].

Definition inherited (k : string) : bool :=
  existsb (String.eqb k) Object_prototype_names.

Definition own (k : string) (m : videoMap) : option video :=
  match find (fun kv => String.eqb (fst kv) k) m with
  | Some kv => Some (snd kv)
  | None => None
  end.

Fixpoint push_detection (k : string) (d : detection) (m : videoMap) : videoMap :=
  match m with
  | [] => []
  | (k', v) :: m' =>
      if String.eqb k' k
      then (k', {| v_videoId := v.(v_videoId);
                   v_cameraId := v.(v_cameraId);
                   v_detections := v.(v_detections) ++ [d] |}) :: m'
      else (k', v) :: push_detection k d m'
  end.

(** A canonical numeric string below 2^32 - 1 is an array index. *)
Definition array_index (k : string) : option N :=
  let l := chars k in
  match l with
  | [] => None
  | c :: l' =>
      if (forallb is_digit l
          && (negb (is_zero_char c) || Nat.eqb (List.length l') 0)
          && N.leb (digits_val l) 4294967294)%bool
      then Some (digits_val l)
      else None
  end.

Definition index_leb (a b : N * video) : bool := N.leb (fst a) (fst b).

Fixpoint index_entries (m : videoMap) : list (N * video) :=
  match m with
  | [] => []
  | (k, v) :: m' =>
      match array_index k with
      | Some i => (i, v) :: index_entries m'
      | None => index_entries m'
      end
  end.

Fixpoint name_entries (m : videoMap) : list video :=
  match m with
  | [] => []
  | (k, v) :: m' =>
      match array_index k with
      | Some _ => name_entries m'
      | None => v :: name_entries m'
      end
  end.

Definition Object_values (m : videoMap) : list video :=
  map snd (sort_by index_leb (index_entries m)) ++ name_entries m.

(** The body of [detections.forEach(det => ...)]. *)
Definition group_step (m : videoMap) (det : detection) : result videoMap :=
  k <- ToString det.(videoId) ;;
  match own k m with
  | Some _ => Ok (push_detection k det m)
  | None =>
      if inherited k then
        (* [videoMap[k]] is a member of Object.prototype: truthy, and
           without [detections] *)
        Throw TypeError
      else
        Ok (m ++ [(k, {| v_videoId := det.(videoId);
                         v_cameraId := det.(cameraId);
                         v_detections := [det] |})])
  end.

Fixpoint group_loop (m : videoMap) (dets : list detection) : result videoMap :=
  match dets with
  | [] => Ok m
  | det :: dets' => m' <- group_step m det ;; group_loop m' dets'
  end.

Definition group_by_video (dets : list detection) : result (list video) :=
  m <- group_loop [] dets ;; Ok (Object_values m).

(** ** The world and its environment *)

Record world := {
  db_detections : list detection;       (* the collection, in scan order *)
  bucket_files : list (string * bool)   (* object name, publicly readable? *)
}.

(** What a request does not control: the platform and the outcome of the
    calls that leave the process. *)
Record env := {
  Date_parse : string -> date;
  Date_now : Z;                         (* the clock [new Date()] reads *)
  RegExp_other : string -> result (list ascii -> bool);
                                        (* patterns outside the fragment *)
  ObjectId_of_string : string -> option ObjectId;
                                        (* [new ObjectId(s)], per release *)
  generated_id : ObjectId;              (* the [_id] the driver generates *)
  bson_document : jsval -> result jsval;
                                        (* an array or an object as the driver
                                           and the server store it, or their
                                           refusal, per release *)
  int32_negative_zero : bool;           (* the driver writes -0 as the 32-bit
                                           integer 0, per release *)
  db_up : bool;                         (* the store call completes *)
  exists_up : bool;                     (* [file.exists()] completes *)
  makePublic_up : bool                  (* [file.makePublic()] completes *)
}.

Definition bucket_name : string := "memoryretrieve.appspot.com".

(** [new RegExp(pattern, 'i')] *)
Definition RegExp_new (E : env) (pattern : jsval) : result (list ascii -> bool) :=
  s <- ToString pattern ;;
  match parse_pattern s with
  | Parsed r => Ok (regex_test r)
  | Invalid => Throw SyntaxError
  | Outside => E.(RegExp_other) s
  end.

(** [db.collection('detections').find(...).toArray()] *)
Definition db_find (E : env) (w : world) (p : detection -> bool)
    : result (list detection) :=
  if E.(db_up) then Ok (filter p w.(db_detections)) else Throw MongoError.

(** [listAll], [listByVideo], [search] of the specification. *)
Definition listAll (E : env) (w : world) : result (list detection) :=
  ds <- db_find E w (fun _ => true) ;; Ok (sort_by newer_first ds).

Definition listByVideo (E : env) (w : world) (v : string)
    : result (list detection) :=
  ds <- db_find E w (fun d => eq_string v d.(videoId)) ;;
  Ok (sort_by earlier_first ds).

Definition search (E : env) (w : world) (pattern : jsval)
    : result (list detection) :=
  re <- RegExp_new E pattern ;;
  ds <- db_find E w (fun d => matches_value re d.(item)) ;;
  Ok (sort_by newer_first ds).

(** *** Serialisation to BSON

    The driver serialises a document before it sends it.  A string, a
    boolean and [null] are written as they are.  A number is written as a
    32-bit integer when it is one and as a double otherwise, and reads back
    as the same value; the releases differ on [-0], which some take for the
    integer 0.  An array or an object is walked by the serialiser, which in
    some releases obeys a [_bsontype] key and in others throws on it, and
    which the server can refuse for its keys or its depth: what becomes of
    it is left to the environment. *)

Definition bson_number (E : env) (n : number) : number :=
  match n with
  | Fin true 0%N _ => if E.(int32_negative_zero) then Fin false 0 0 else n
  | _ => n
  end.

Definition to_bson (E : env) (v : jsval) : result jsval :=
  match v with
  | VUndefined => Ok VNull              (* [ignoreUndefined] is off *)
  | VNum n => Ok (VNum (bson_number E n))
  | VArr _ | VObj _ => E.(bson_document) v
  | VNull | VBool _ | VStr _ => Ok v
  end.

(** The document of the ingestion route, as the collection receives it. *)
Definition bson_detection (E : env) (d : detection) : result detection :=
  c <- to_bson E d.(cameraId) ;;
  v <- to_bson E d.(videoId) ;;
  i <- to_bson E d.(item) ;;
  Ok {| _id := d.(_id);
        cameraId := c;
        videoId := v;
        item := i;
        confidence := bson_number E d.(confidence);
        timestamp := d.(timestamp);
        timestampSec := bson_number E d.(timestampSec);
        createdAt := d.(createdAt) |}.

(** [insertOne]: the document is serialised and sent; the collection has a
    unique index on [_id]. *)
Definition insertOne (E : env) (w : world) (d : detection) : result world :=
  if E.(db_up) then
    d' <- bson_detection E d ;;
    if has_id d'.(_id) w.(db_detections) then Throw MongoError
    else Ok {| db_detections := w.(db_detections) ++ [d'];
               bucket_files := w.(bucket_files) |}
  else Throw MongoError.

Definition deleteOne (E : env) (w : world) (id : ObjectId) : result world :=
  if E.(db_up) then
    Ok {| db_detections := delete_first id w.(db_detections);
          bucket_files := w.(bucket_files) |}
  else Throw MongoError.

Definition distinctItems (E : env) (w : world) : result (list jsval) :=
  if E.(db_up) then Ok (distinct_items w.(db_detections))
  else Throw MongoError.

Definition ObjectId_new (E : env) (s : string) : result ObjectId :=
  match E.(ObjectId_of_string) s with
  | Some id => Ok id
  | None => Throw BSONError
  end.

(** *** The bucket *)

Definition file_exists (E : env) (w : world) (name : string) : result bool :=
  if E.(exists_up)
  then Ok (existsb (fun f => String.eqb (fst f) name) w.(bucket_files))
  else Throw StorageError.

Definition set_public (name : string) (fs : list (string * bool))
    : list (string * bool) :=
  map (fun f => if String.eqb (fst f) name then (fst f, true) else f) fs.

Definition file_makePublic (E : env) (w : world) (name : string) : result world :=
  if E.(makePublic_up)
  then Ok {| db_detections := w.(db_detections);
             bucket_files := set_public name w.(bucket_files) |}
  else Throw StorageError.

Definition is_public (w : world) (name : string) : bool :=
  existsb (fun f => (String.eqb (fst f) name && snd f)%bool) w.(bucket_files).

(** ** Responses *)

Inductive field :=
| Val (v : jsval)
| Det (d : detection)
| Dets (ds : list detection)
| Videos (vs : list video).

(** The literal object passed to [res.render] or [res.json]. *)
Definition object := list (string * field).

Inductive response :=
| Render (view : string) (locals : object)
| Redirect (url : string)
| Json (status : nat) (body : object)
| NotFound.   (* the 404 page Express sends where no route matches *)

(** The three files. *)
Inductive variant :=
| IndexJs           (* src/index.js *)
| Part000_first     (* src/unnamed/part_000, first file *)
| Part000_second.   (* src/unnamed/part_000, second file *)

(** What a handler leaves behind, together with the world: the response it
    sent, or the exception with which its promise rejects.  In the second
    case the handler has sent nothing: Express 4 does not observe the promise
    of an [async] handler, and the rejection stays unhandled. *)
Definition handled := (result response * world)%type.

(** ** Routes *)

Definition dashboard_view (V : variant) : string :=
  match V with
  | Part000_first => "index"
  | _ => "dashboard"
  end.

(** [GET /] *)
Definition get_dashboard (V : variant) (E : env) (message error : jsval)
    (w : world) : handled :=
  match (detections <- listAll E w ;; group_by_video detections) with
  | Ok videos =>
      (Ok (Render (dashboard_view V)
             [("videos", Videos videos); ("message", Val message);
              ("error", Val error)]), w)
  | Throw _ =>
      (Ok (Render (dashboard_view V)
             [("videos", Videos []); ("message", Val VNull);
              ("error", Val (VStr "Failed to load data"))]), w)
  end.

(** The [catch] block of [GET /search].  In [src/index.js] it reads [item],
    which is declared with [const] inside the [try] block and is not in
    scope here; the two other files read [req.query.item]. *)
Definition search_catch (V : variant) (item : jsval) : result response :=
  match V with
  | IndexJs => Throw (ReferenceError "item")
  | Part000_first =>
      Ok (Render "index"
            [("videos", Dets []); ("message", Val VNull);
             ("error", Val (VStr "Search failed")); ("searchTerm", Val item)])
  | Part000_second =>
      Ok (Render "search"
            [("detections", Dets []); ("searchTerm", Val item);
             ("error", Val (VStr "Search failed"))])
  end.

Definition search_page (V : variant) (item : jsval) (detections : list detection)
    : response :=
  match V with
  | Part000_first =>
      Render "index"
        [("videos", Dets detections); ("message", Val VNull);
         ("error", Val VNull); ("searchTerm", Val item)]
  | _ =>
      Render "search" [("detections", Dets detections); ("searchTerm", Val item)]
  end.

(** [GET /search] *)
Definition get_search (V : variant) (E : env) (item : jsval) (w : world)
    : handled :=
  if negb (ToBoolean item) then (Ok (Redirect "/"), w)
  else
    match search E w item with
    | Ok detections => (Ok (search_page V item detections), w)
    | Throw _ => (search_catch V item, w)
    end.

Definition video_file (videoId : string) : string :=
  "videos/" ++ videoId ++ ".mp4".

Definition public_url (fileName : string) : string :=
  "https://storage.googleapis.com/" ++ bucket_name ++ "/" ++ fileName.

(** Lines 109-118 of [src/index.js]: the media URL of a video, the empty
    string when the bucket has no such object. *)
Definition resolve_media (E : env) (videoId : string) (w : world)
    : result (string * world) :=
  let fileName := video_file videoId in
  exists_ <- file_exists E w fileName ;;
  if exists_ : bool then
    w' <- file_makePublic E w fileName ;;
    Ok (public_url fileName, w')
  else Ok ("", w).

(** [GET /video/:videoId]; the first file of part_000 has no such route. *)
Definition get_video (E : env) (videoId : string) (w : world) : handled :=
  let failed := Ok (Redirect "/?error=Failed to load video") in
  match listByVideo E w videoId with
  | Throw _ => (failed, w)
  | Ok [] => (Ok (Redirect "/?error=Video not found"), w)
  | Ok (first :: rest) =>
      match resolve_media E videoId w with
      | Throw _ => (failed, w)
      | Ok (videoUrl, w') =>
          (Ok (Render "video"
                 [("videoId", Val (VStr videoId));
                  ("videoUrl", Val (VStr videoUrl));
                  ("detections", Dets (first :: rest));
                  ("cameraId", Val first.(cameraId))]), w')
      end
  end.

(** [GET /api/last-seen/:item] *)
Definition get_last_seen (E : env) (item : string) (w : world) : handled :=
  match search E w (VStr item) with
  | Ok [] =>
      (Ok (Json 200 [("found", Val (VBool false));
                     ("message", Val (VStr "Item never detected"))]), w)
  | Ok (d :: _) =>
      (Ok (Json 200 [("found", Val (VBool true)); ("detection", Det d)]), w)
  | Throw _ => (Ok (Json 500 [("error", Val (VStr "Failed to search"))]), w)
  end.

(** The body of [POST /api/detection] after destructuring. *)
Record payload := {
  p_cameraId : jsval;
  p_videoId : jsval;
  p_item : jsval;
  p_confidence : jsval;
  p_timestamp : jsval;
  p_timestampSec : jsval
}.

(** The condition of the [if] that answers 400. *)
Definition missing_fields (b : payload) : bool :=
  (negb (ToBoolean b.(p_cameraId)) || negb (ToBoolean b.(p_videoId))
   || negb (ToBoolean b.(p_item)) || negb (ToBoolean b.(p_confidence))
   || negb (ToBoolean b.(p_timestamp)) || is_undefined b.(p_timestampSec))%bool.

(** The document literal handed to [insertOne]; the driver adds [_id]. *)
Definition new_detection (E : env) (b : payload) : result detection :=
  c <- parseFloat b.(p_confidence) ;;
  t <- Date_new E.(Date_parse) b.(p_timestamp) ;;
  s <- parseInt b.(p_timestampSec) ;;
  Ok {| _id := E.(generated_id);
        cameraId := b.(p_cameraId);
        videoId := b.(p_videoId);
        item := b.(p_item);
        confidence := c;
        timestamp := bson_date t;
        timestampSec := s;
        createdAt := E.(Date_now) |}.

(** [POST /api/detection] *)
Definition post_detection (E : env) (b : payload) (w : world) : handled :=
  if missing_fields b then
    (Ok (Json 400 [("error", Val (VStr "Missing required fields"))]), w)
  else
    match (d <- new_detection E b ;; insertOne E w d) with
    | Ok w' =>
        (Ok (Json 200 [("success", Val (VBool true));
                       ("message", Val (VStr "Detection logged"))]), w')
    | Throw _ =>
        (Ok (Json 500 [("error", Val (VStr "Failed to log detection"))]), w)
    end.

(** [GET /api/items] *)
Definition get_items (E : env) (w : world) : handled :=
  match (items <- distinctItems E w ;; Array_sort items) with
  | Ok sorted => (Ok (Json 200 [("items", Val (VArr sorted))]), w)
  | Throw _ => (Ok (Json 500 [("error", Val (VStr "Failed to get items"))]), w)
  end.

(** [POST /delete/:id] *)
Definition post_delete (E : env) (id : string) (w : world) : handled :=
  match (oid <- ObjectId_new E id ;; deleteOne E w oid) with
  | Ok w' => (Ok (Json 200 [("success", Val (VBool true))]), w')
  | Throw _ =>
      (Ok (Json 200 [("success", Val (VBool false));
                     ("error", Val (VStr "Failed to delete"))]), w)
  end.

(** The requests the application routes. *)
Inductive request :=
| GetDashboard (message error : jsval)
| GetSearch (item : jsval)
| GetVideo (videoId : string)
| GetLastSeen (item : string)
| PostDetection (body : payload)
| GetItems
| PostDelete (id : string).

Definition handle (V : variant) (E : env) (r : request) (w : world) : handled :=
  match r with
  | GetDashboard message error => get_dashboard V E message error w
  | GetSearch item => get_search V E item w
  | GetVideo videoId =>
      match V with
      | Part000_first => (Ok NotFound, w)
      | _ => get_video E videoId w
      end
  | GetLastSeen item => get_last_seen E item w
  | PostDetection body => post_detection E body w
  | GetItems => get_items E w
  | PostDelete id => post_delete E id w
  end.

(** ** The specification's reading of the queries *)

(** "the item field contains the input as a literal substring,
    case-insensitively" *)
Definition item_contains (input : string) (d : detection) : bool :=
  match d.(item) with
  | VStr label => ci_includes (chars input) (chars label)
  | _ => false
  end.

Definition literal_search (coll : list detection) (input : string)
    : list detection :=
  sort_by newer_first (filter (item_contains input) coll).

(** "the order of first appearance": the video identifiers of a list of
    detections, each at its first occurrence. *)
Fixpoint first_appearance (ids : list string) : list string :=
  match ids with
  | [] => []
  | k :: ids' =>
      k :: filter (fun k' => negb (String.eqb k k')) (first_appearance ids')
  end.

Definition video_key (d : detection) : string :=
  match d.(videoId) with
  | VStr k => k
  | _ => ""
  end.

Definition item_label (d : detection) : string :=
  match d.(item) with
  | VStr s => s
  | _ => ""
  end.

Definition newer_or_same (a b : detection) : Prop :=
  (b.(timestamp) <= a.(timestamp))%Z.

Definition earlier_or_same (a b : detection) : Prop :=
  num_leb a.(timestampSec) b.(timestampSec) = true.

Definition string_lt (a b : string) : Prop :=
  String.compare a b = Lt.

(** Two words with the same letters, case apart. *)
Definition same_letters (p w : list ascii) : Prop :=
  Forall2 (fun a c => same_letter a c = true) p w.

(** "absent or falsy" *)
Definition falsy (v : jsval) : Prop := ToBoolean v = false.

(** ** A sample deployment, for the concrete runs *)

(** [new ObjectId(s)] on the input every release of the bson package
    accepts: twenty-four hexadecimal digits. *)
Definition ObjectId_of_hex (s : string) : option ObjectId :=
  let l := chars s in
  if (Nat.eqb (List.length l) 24 && forallb is_hex_digit l)%bool
  then Some (hex_digits_val l)
  else None.

(** An array or an object that no release of the serialiser reads as a
    BSON type: none of its keys is [_bsontype]. *)
Fixpoint plain_document (v : jsval) : bool :=
  match v with
  | VArr l => forallb plain_document l
  | VObj kvs =>
      forallb (fun kv => match kv with
                         | (k, x) => (negb (String.eqb k "_bsontype")
                                      && plain_document x)%bool
                         end) kvs
  | _ => true
  end.

(** The sample driver stores such values as they are and, as release 5 of
    the bson package does, throws on the others. *)
Definition sample_bson (v : jsval) : result jsval :=
  if plain_document v then Ok v else Throw BSONError.

Definition sample_env : env :=
  {| Date_parse := fun _ => InvalidDate;
     Date_now := 1700000000000;
     RegExp_other := fun _ => Throw SyntaxError;
     ObjectId_of_string := ObjectId_of_hex;
     generated_id := 100;
     bson_document := sample_bson;
     int32_negative_zero := false;
     db_up := true;
     exists_up := true;
     makePublic_up := true |}.

Definition sample_detection (id : ObjectId) (video label : string)
    (t : Z) (sec : N) : detection :=
  {| _id := id;
     cameraId := VStr "cam-1";
     videoId := VStr video;
     item := VStr label;
     confidence := of_decimal false 9 (-1);
     timestamp := t;
     timestampSec := of_decimal false sec 0;
     createdAt := t |}.

Definition sample_world : world :=
  {| db_detections :=
       [ sample_detection 1 "v1" "cup" 1000 0;
         sample_detection 2 "v1" "Teacup" 3000 5;
         sample_detection 3 "v2" "bottle" 2000 0 ];
     bucket_files := [("videos/v1.mp4", false)] |}.

Definition sample_payload : payload :=
  {| p_cameraId := VStr "cam-1";
     p_videoId := VStr "v1";
     p_item := VStr "cup";
     p_confidence := VNum (of_decimal false 87 (-2));
     p_timestamp := VNum (of_decimal false 1700000000000 0);
     p_timestampSec := VNum (of_decimal false 0 0) |}.

(** Payloads that differ from another in one field. *)
Definition with_confidence (v : jsval) (b : payload) : payload :=
  {| p_cameraId := b.(p_cameraId);
     p_videoId := b.(p_videoId);
     p_item := b.(p_item);
     p_confidence := v;
     p_timestamp := b.(p_timestamp);
     p_timestampSec := b.(p_timestampSec) |}.

Definition with_timestampSec (v : jsval) (b : payload) : payload :=
  {| p_cameraId := b.(p_cameraId);
     p_videoId := b.(p_videoId);
     p_item := b.(p_item);
     p_confidence := b.(p_confidence);
     p_timestamp := b.(p_timestamp);
     p_timestampSec := v |}.

Definition with_item (v : jsval) (b : payload) : payload :=
  {| p_cameraId := b.(p_cameraId);
     p_videoId := b.(p_videoId);
     p_item := v;
     p_confidence := b.(p_confidence);
     p_timestamp := b.(p_timestamp);
     p_timestampSec := b.(p_timestampSec) |}.

(** The answers of the ingestion route. *)
Definition missing_fields_response : response :=
  Json 400 [("error", Val (VStr "Missing required fields"))].

Definition logged_response : response :=
  Json 200 [("success", Val (VBool true));
            ("message", Val (VStr "Detection logged"))].

Definition log_failed_response : response :=
  Json 500 [("error", Val (VStr "Failed to log detection"))].

Definition store_down (E : env) : env :=
  {| Date_parse := E.(Date_parse);
     Date_now := E.(Date_now);
     RegExp_other := E.(RegExp_other);
     ObjectId_of_string := E.(ObjectId_of_string);
     generated_id := E.(generated_id);
     bson_document := E.(bson_document);
     int32_negative_zero := E.(int32_negative_zero);
     db_up := false;
     exists_up := E.(exists_up);
     makePublic_up := E.(makePublic_up) |}.

Definition is_search (r : request) : bool :=
  match r with
  | GetSearch _ => true
  | _ => false
  end.

(** The answers of the other routes. *)
Definition video_not_found : response := Redirect "/?error=Video not found".


Definition deleted_response : response :=
  Json 200 [("success", Val (VBool true))].

Definition items_response (labels : list string) : response :=
  Json 200 [("items", Val (VArr (map VStr labels)))].

Definition dashboard_failed (V : variant) : response :=
  Render (dashboard_view V)
    [("videos", Videos []); ("message", Val VNull);
     ("error", Val (VStr "Failed to load data"))].



(** ** The grouping the dashboard is specified to show *)

(** The detections of one video, in the order of the list. *)
Definition of_video (k : string) (ds : list detection) : list detection :=
  filter (fun d => String.eqb (video_key d) k) ds.

(** The video entity of [k]: its camera is that of its first detection. *)
Definition video_of (k : string) (ds : list detection) : video :=
  {| v_videoId := VStr k;
     v_cameraId := match of_video k ds with
                   | d :: _ => d.(cameraId)
                   | [] => VUndefined
                   end;
     v_detections := of_video k ds |}.

Definition extend (v : video) (ds : list detection) : video :=
  {| v_videoId := v.(v_videoId);
     v_cameraId := v.(v_cameraId);
     v_detections := v.(v_detections) ++ ds |}.

Definition has_own (m : videoMap) (k : string) : bool :=
  existsb (String.eqb k) (map fst m).

(** What the loop makes of a map [m] and the detections [ds]. *)
Definition grouped (m : videoMap) (ds : list detection) : videoMap :=
  map (fun kv => (fst kv, extend (snd kv) (of_video (fst kv) ds))) m
  ++ map (fun k => (k, video_of k ds))
       (filter (fun k => negb (has_own m k))
          (first_appearance (map video_key ds))).

(** A video identifier that the plain object treats as an ordinary key. *)
Definition ordinary_key (k : string) : bool :=
  (negb (inherited k) && match array_index k with
                         | None => true
                         | Some _ => false
                         end)%bool.

Definition ordinary_video (d : detection) : bool :=
  match d.(videoId) with
  | VStr k => ordinary_key k
  | _ => false
  end.

(** Two stores on which the dashboard departs from the specification. *)
Definition numbered_videos : world :=
  {| db_detections :=
       [ sample_detection 1 "1" "cup" 1000 0;
         sample_detection 2 "2" "cup" 2000 0 ];
     bucket_files := [] |}.

Definition constructor_video : world :=
  {| db_detections :=
       [ sample_detection 1 "v1" "cup" 1000 0;
         sample_detection 2 "constructor" "cup" 2000 0 ];
     bucket_files := [] |}.

(** ** Further vocabulary *)

(** The routes that only read. *)
Definition reads_only (r : request) : bool :=
  match r with
  | GetDashboard _ _ | GetSearch _ | GetLastSeen _ | GetItems => true
  | GetVideo _ | PostDetection _ | PostDelete _ => false
  end.

Definition ids (w : world) : list ObjectId := map _id w.(db_detections).

Definition file_names (w : world) : list string := map fst w.(bucket_files).

(** The identifying fields of a record are truthy. *)
Definition labelled (d : detection) : bool :=
  (ToBoolean d.(cameraId) && ToBoolean d.(videoId) && ToBoolean d.(item))%bool.

(** The integer a Number is, when it is one. *)
Definition num_Z (n : number) : option Z :=
  match n with
  | Fin neg m e =>
      if (0 <=? e)%Z then
        Some ((if neg then -1 else 1) * (Z.of_N m * 2 ^ e))%Z
      else if (Z.of_N m mod 2 ^ (- e) =? 0)%Z then
        Some ((if neg then -1 else 1) * (Z.of_N m / 2 ^ (- e)))%Z
      else None
  | _ => None
  end.

(** A number that [parseInt] can return: an integer, NaN or an infinity. *)
Definition integral (n : number) : bool :=
  match n with
  | NaN | Inf _ => true
  | Fin _ _ _ => match num_Z n with
                 | Some _ => true
                 | None => false
                 end
  end.

Definition delete_failed_response : response :=
  Json 200 [("success", Val (VBool false));
            ("error", Val (VStr "Failed to delete"))].

Definition never_detected_response : response :=
  Json 200 [("found", Val (VBool false));
            ("message", Val (VStr "Item never detected"))].

Definition last_seen_response (d : detection) : response :=
  Json 200 [("found", Val (VBool true)); ("detection", Det d)].

Definition last_seen_failed_response : response :=
  Json 500 [("error", Val (VStr "Failed to search"))].

(** The array index a video entity is filed under, if its id is one. *)
Definition video_index (v : video) : option N :=
  match v.(v_videoId) with
  | VStr k => array_index k
  | _ => None
  end.

Definition is_index (k : string) : bool :=
  match array_index k with
  | Some _ => true
  | None => false
  end.

Definition index_le (a b : video) : Prop :=
  match video_index a, video_index b with
  | Some i, Some j => (i <= j)%N
  | _, _ => False
  end.

(** A video id that the plain object can hold as an own property. *)
Definition named_video (d : detection) : bool :=
  match d.(videoId) with
  | VStr k => negb (inherited k)
  | _ => false
  end.

Definition video_failed_response : response :=
  Redirect "/?error=Failed to load video".

Definition items_failed_response : response :=
  Json 500 [("error", Val (VStr "Failed to get items"))].

(** The routes a file has: the first file of part_000 has no video page. *)
Definition routed (V : variant) (r : request) : bool :=
  match V, r with
  | Part000_first, GetVideo _ => false
  | _, _ => true
  end.

(** What the [catch] block of each route does. *)
Definition error_answer (V : variant) (r : request) : result response :=
  match r with
  | GetDashboard _ _ => Ok (dashboard_failed V)
  | GetSearch item => search_catch V item
  | GetVideo _ => Ok video_failed_response
  | GetLastSeen _ => Ok last_seen_failed_response
  | PostDetection _ => Ok log_failed_response
  | GetItems => Ok items_failed_response
  | PostDelete _ => Ok delete_failed_response
  end.

(** One of the calls that the route of [r] makes throws [e]. *)
Definition fails (E : env) (r : request) (w : world) (e : exn) : Prop :=
  match r with
  | GetDashboard _ _ =>
      listAll E w = Throw e
      \/ exists ds, listAll E w = Ok ds /\ group_by_video ds = Throw e
  | GetSearch item => ToBoolean item = true /\ search E w item = Throw e
  | GetVideo v =>
      listByVideo E w v = Throw e
      \/ exists d ds, listByVideo E w v = Ok (d :: ds)
                      /\ resolve_media E v w = Throw e
  | GetLastSeen item => search E w (VStr item) = Throw e
  | PostDetection b =>
      missing_fields b = false
      /\ (new_detection E b = Throw e
          \/ exists d, new_detection E b = Ok d /\ insertOne E w d = Throw e)
  | GetItems =>
      distinctItems E w = Throw e
      \/ exists items, distinctItems E w = Ok items
                       /\ Array_sort items = Throw e
  | PostDelete id =>
      ObjectId_new E id = Throw e
      \/ exists oid, ObjectId_new E id = Ok oid /\ deleteOne E w oid = Throw e
  end.

(** ToString and ToPrimitive throw on such a value: an object with an own
    [toString] property, or an array that holds such a value. *)
Fixpoint unprintable (v : jsval) : bool :=
  match v with
  | VObj kvs => has_key "toString" kvs
  | VArr l => existsb unprintable l
  | _ => false
  end.

Definition with_videoId (v : jsval) (b : payload) : payload :=
  {| p_cameraId := b.(p_cameraId);
     p_videoId := v;
     p_item := b.(p_item);
     p_confidence := b.(p_confidence);
     p_timestamp := b.(p_timestamp);
     p_timestampSec := b.(p_timestampSec) |}.

Definition no_records : world := {| db_detections := []; bucket_files := [] |}.


Definition dashboard_page (V : variant) (videos : list video)
    (message error : jsval) : response :=
  Render (dashboard_view V)
    [("videos", Videos videos); ("message", Val message);
     ("error", Val error)].

(** ** The service-account credential (src/unnamed/part_000, both files)

    [FIREBASE_SERVICE_ACCOUNT] may arrive wrapped in double quotes with its
    inner quotes escaped; the two files of part_000 undo that before
    [JSON.parse], [src/index.js] does not. *)

Definition dquote : ascii := ascii_of_N 34.

Definition is_dquote (c : ascii) : bool := Ascii.eqb c dquote.

(** [raw.startsWith('"') && raw.endsWith('"')] *)
Definition quote_wrapped (l : list ascii) : bool :=
  match l with
  | [] => false
  | c :: _ => (is_dquote c && is_dquote (last l c))%bool
  end.

(** [raw.slice(1, -1)] *)
Definition slice_1_m1 (l : list ascii) : list ascii := removelast (tl l).

(** [.replace(/\\"/g, '"')]: every backslash followed by a double quote
    becomes a double quote, from left to right. *)
Fixpoint unescape_quotes (l : list ascii) : list ascii :=
  match l with
  | [] => []
  | c :: l' =>
      match l' with
      | d :: l'' =>
          if (Ascii.eqb c "\" && is_dquote d)%bool
          then dquote :: unescape_quotes l''
          else c :: unescape_quotes l'
      | [] => [c]
      end
  end.

Definition unwrap_credential (raw : string) : string :=
  let l := chars raw in
  if quote_wrapped l then text (unescape_quotes (slice_1_m1 l)) else raw.

(** The text [JSON.parse] receives. *)
Definition credential_text (V : variant) (raw : string) : string :=
  match V with
  | IndexJs => raw
  | Part000_first | Part000_second => unwrap_credential raw
  end.

(** The wrapping that [unwrap_credential] undoes: a backslash before every
    double quote, and a double quote at both ends. *)
Fixpoint escape_quotes (l : list ascii) : list ascii :=
  match l with
  | [] => []
  | c :: l' =>
      if is_dquote c then "\"%char :: dquote :: escape_quotes l'
      else c :: escape_quotes l'
  end.

Definition wrap_credential (s : string) : string :=
  text (dquote :: escape_quotes (chars s) ++ [dquote]).

(** ** Induction on JSON values *)

Section jsval_induction.
Variable P : jsval -> Prop.
Hypothesis P_undefined : P VUndefined.
Hypothesis P_null : P VNull.
Hypothesis P_bool : forall b, P (VBool b).
Hypothesis P_num : forall n, P (VNum n).
Hypothesis P_str : forall s, P (VStr s).
Hypothesis P_arr : forall l, Forall P l -> P (VArr l).
Hypothesis P_obj : forall kvs, P (VObj kvs).

Fixpoint jsval_nested_ind (v : jsval) : P v :=
  match v with
  | VUndefined => P_undefined
  | VNull => P_null
  | VBool b => P_bool b
  | VNum n => P_num n
  | VStr s => P_str s
  | VArr l =>
      P_arr l ((fix all (l : list jsval) : Forall P l :=
                  match l with
                  | [] => Forall_nil P
                  | x :: l' => Forall_cons x (jsval_nested_ind x) (all l')
                  end) l)
  | VObj kvs => P_obj kvs
  end.
End jsval_induction.

Definition is_ok {A} (r : result A) : bool :=
  match r with
  | Ok _ => true
  | Throw _ => false
  end.

(** The conversions of the ingestion route throw on a payload when one of
    [confidence], [timestamp], [timestampSec] cannot be printed. *)
Definition converts (b : payload) : bool :=
  negb (unprintable b.(p_confidence) || unprintable b.(p_timestamp)
        || unprintable b.(p_timestampSec)).

(** The text that follows the digits read: nothing, or a character that is
    neither a digit nor a point. *)
Definition ends_digits (rest : list ascii) : Prop :=
  match rest with
  | [] => True
  | c :: _ => is_digit c = false /\ Ascii.eqb c "." = false
  end.

(** ** Numbers as a camera sends them *)

(** The decimal numeral of [n], as JSON and Number::toString write it. *)
Definition numeral (n : N) : string := text (N_digits n).

(** * Facts *)

(** ** The data model *)

Lemma conforms_item (d : detection) :
  conforms d = true -> exists s, d.(item) = VStr s.
Proof.
  unfold conforms, is_string. intro H.
  apply andb_true_iff in H as [_ H].
  destruct (item d); try discriminate. eauto.
Qed.

Lemma conforms_videoId (d : detection) :
  conforms d = true -> exists k, d.(videoId) = VStr k.
Proof.
  unfold conforms, is_string. intro H.
  apply andb_true_iff in H as [H _]. apply andb_true_iff in H as [_ H].
  destruct (videoId d); try discriminate. eauto.
Qed.

(** Reads the string fields of a record that follows the data model. *)
Ltac string_fields H :=
  let s := fresh "s" in
  let k := fresh "k" in
  let Hs := fresh "Hitem" in
  let Hk := fresh "Hvideo" in
  destruct (conforms_item _ H) as [s Hs];
  destruct (conforms_videoId _ H) as [k Hk].

(** ** Sorting *)

Section Sorting.
Context {A : Type} (leb : A -> A -> bool).

Let le (a b : A) : Prop := leb a b = true.

Lemma insert_by_perm (x : A) (l : list A) :
  Permutation (x :: l) (insert_by leb x l).
Proof.
  induction l as [|y l IH]; simpl.
  - apply Permutation_refl.
  - destruct (leb x y).
    + apply Permutation_refl.
    + eapply perm_trans; [apply perm_swap|].
      apply perm_skip, IH.
Qed.

Lemma sort_by_perm (l : list A) : Permutation l (sort_by leb l).
Proof.
  induction l as [|x l IH]; simpl.
  - apply perm_nil.
  - eapply perm_trans; [apply perm_skip, IH|apply insert_by_perm].
Qed.

Lemma sort_by_In (l : list A) (x : A) : In x (sort_by leb l) <-> In x l.
Proof.
  split; intro H.
  - eapply Permutation_in; [apply Permutation_sym, sort_by_perm|exact H].
  - eapply Permutation_in; [apply sort_by_perm|exact H].
Qed.

Hypothesis leb_total : forall a b, leb a b = true \/ leb b a = true.
Hypothesis leb_trans :
  forall a b c, leb a b = true -> leb b c = true -> leb a c = true.

Lemma insert_by_sorted (x : A) (l : list A) :
  StronglySorted le l -> StronglySorted le (insert_by leb x l).
Proof.
  induction 1 as [|y l Hs IH Hy]; simpl.
  - constructor; constructor.
  - destruct (leb x y) eqn:Hxy.
    + constructor.
      * constructor; assumption.
      * constructor; [exact Hxy|].
        rewrite Forall_forall in Hy |- *.
        intros z Hz. eapply leb_trans; [exact Hxy|apply Hy, Hz].
    + constructor; [exact IH|].
      rewrite Forall_forall in Hy |- *.
      intros z Hz.
      apply (Permutation_in _ (Permutation_sym (insert_by_perm x l))) in Hz.
      destruct Hz as [<-|Hz]; [|apply Hy, Hz].
      destruct (leb_total x y) as [H|H]; [congruence|exact H].
Qed.

Lemma sort_by_sorted (l : list A) : StronglySorted le (sort_by leb l).
Proof.
  induction l as [|x l IH]; simpl.
  - constructor.
  - apply insert_by_sorted, IH.
Qed.
End Sorting.

Lemma newer_first_total (a b : detection) :
  newer_first a b = true \/ newer_first b a = true.
Proof. unfold newer_first. rewrite !Z.leb_le. lia. Qed.

Lemma newer_first_trans (a b c : detection) :
  newer_first a b = true -> newer_first b c = true -> newer_first a c = true.
Proof. unfold newer_first. rewrite !Z.leb_le. lia. Qed.

Lemma sort_newer_first_sorted (l : list detection) :
  StronglySorted newer_or_same (sort_by newer_first l).
Proof.
  eapply StronglySorted_ind with (P := StronglySorted newer_or_same);
    [constructor| |apply (sort_by_sorted newer_first newer_first_total newer_first_trans)].
  intros a l0 _ IH Ha. constructor; [exact IH|].
  eapply Forall_impl; [|exact Ha].
  intros b Hb. unfold newer_or_same. apply Z.leb_le. exact Hb.
Qed.

Lemma num_leb_total (a b : number) : num_leb a b = true \/ num_leb b a = true.
Proof.
  destruct a as [|[]|n1 m1 e1], b as [|[]|n2 m2 e2]; simpl; auto.
  rewrite !Qle_bool_iff.
  destruct (Qlt_le_dec (num_Q n1 m1 e1) (num_Q n2 m2 e2)) as [H|H].
  - left. apply Qlt_le_weak, H.
  - right. exact H.
Qed.

Lemma num_leb_trans (a b c : number) :
  num_leb a b = true -> num_leb b c = true -> num_leb a c = true.
Proof.
  destruct a as [|[]|n1 m1 e1], b as [|[]|n2 m2 e2], c as [|[]|n3 m3 e3];
    simpl; auto; try discriminate.
  rewrite !Qle_bool_iff. apply Qle_trans.
Qed.

Lemma sort_earlier_first_sorted (l : list detection) :
  StronglySorted earlier_or_same (sort_by earlier_first l).
Proof.
  apply (sort_by_sorted earlier_first).
  - intros a b. apply num_leb_total.
  - intros a b c. apply num_leb_trans.
Qed.

(** ** Regular expressions: the matcher decides the language *)

Lemma lang_seq_inv (r1 r2 : regex) (w : list ascii) :
  lang (Seq r1 r2) w ->
  exists w1 w2, w = w1 ++ w2 /\ lang r1 w1 /\ lang r2 w2.
Proof. inversion 1; subst. eauto. Qed.

Lemma lang_alt_inv (r1 r2 : regex) (w : list ascii) :
  lang (Alt r1 r2) w -> lang r1 w \/ lang r2 w.
Proof. inversion 1; subst; auto. Qed.

Lemma lang_chr_inv (a : ascii) (w : list ascii) :
  lang (Chr a) w -> exists c, w = [c] /\ same_letter a c = true.
Proof. inversion 1; subst. eauto. Qed.

Lemma lang_any_inv (w : list ascii) :
  lang Any w -> exists c, w = [c] /\ c <> line_feed.
Proof. inversion 1; subst. eauto. Qed.

Lemma lang_eps_inv (w : list ascii) : lang Eps w -> w = [].
Proof. inversion 1; subst. reflexivity. Qed.

Lemma lang_void_inv (w : list ascii) : lang Void w -> False.
Proof. inversion 1. Qed.

Lemma nullable_lang (r : regex) : nullable r = true <-> lang r [].
Proof.
  induction r as [| | a | | r1 IH1 r2 IH2 | r1 IH1 r2 IH2 | r IH]; simpl.
  - split; [discriminate|intro H; destruct (lang_void_inv _ H)].
  - split; [constructor|reflexivity].
  - split; [discriminate|].
    intro H. apply lang_chr_inv in H as (c & H & _). discriminate.
  - split; [discriminate|].
    intro H. apply lang_any_inv in H as (c & H & _). discriminate.
  - rewrite andb_true_iff, IH1, IH2. split.
    + intros [H1 H2]. apply (lang_seq _ _ _ _ H1 H2).
    + intro H. apply lang_seq_inv in H as (w1 & w2 & Hw & H1 & H2).
      symmetry in Hw. apply app_eq_nil in Hw as [-> ->]. split; assumption.
  - rewrite orb_true_iff, IH1, IH2. split.
    + intros [H|H]; [apply lang_alt_l|apply lang_alt_r]; exact H.
    + apply lang_alt_inv.
  - split; [constructor|reflexivity].
Qed.

Lemma lang_seq_cons (r1 r2 : regex) (c : ascii) (w : list ascii) :
  lang (Seq r1 r2) (c :: w) <->
  (exists w1 w2, w = w1 ++ w2 /\ lang r1 (c :: w1) /\ lang r2 w2)
  \/ (lang r1 [] /\ lang r2 (c :: w)).
Proof.
  split.
  - intro H. apply lang_seq_inv in H as (w1 & w2 & Hw & H1 & H2).
    destruct w1 as [|c1 w1]; simpl in Hw.
    + subst w2. right. split; assumption.
    + injection Hw as -> ->. left. exists w1, w2. repeat split; assumption.
  - intros [(w1 & w2 & -> & H1 & H2)|[H1 H2]].
    + apply (lang_seq _ _ _ _ H1 H2).
    + apply (lang_seq _ _ _ _ H1 H2).
Qed.

Lemma lang_star_cons_inv (r : regex) (w : list ascii) :
  lang (Star r) w ->
  forall c w', w = c :: w' ->
  exists w1 w2, w' = w1 ++ w2 /\ lang r (c :: w1) /\ lang (Star r) w2.
Proof.
  intro H. remember (Star r) as s eqn:Hs.
  induction H as [| | | | | | |r0 w1 w2 H1 _ H2 IH2]; try discriminate.
  injection Hs as ->. intros c w' Hw.
  destruct w1 as [|c1 w1]; simpl in Hw.
  - apply (IH2 eq_refl c w' Hw).
  - injection Hw as -> <-. exists w1, w2. repeat split; assumption.
Qed.

Lemma der_lang (r : regex) (c : ascii) (w : list ascii) :
  lang (der c r) w <-> lang r (c :: w).
Proof.
  revert w.
  induction r as [| | a | | r1 IH1 r2 IH2 | r1 IH1 r2 IH2 | r IH];
    intro w; simpl.
  - split; intro H; destruct (lang_void_inv _ H).
  - split; intro H; [destruct (lang_void_inv _ H)|].
    apply lang_eps_inv in H. discriminate.
  - destruct (same_letter a c) eqn:Hac; split; intro H.
    + apply lang_eps_inv in H as ->. constructor. exact Hac.
    + apply lang_chr_inv in H as (c' & Hw & _). injection Hw as _ ->.
      constructor.
    + destruct (lang_void_inv _ H).
    + apply lang_chr_inv in H as (c' & Hw & Hc). injection Hw as <- _.
      congruence.
  - destruct (Ascii.eqb c line_feed) eqn:Hc; split; intro H.
    + destruct (lang_void_inv _ H).
    + apply lang_any_inv in H as (c' & Hw & Hne). injection Hw as <- _.
      apply Ascii.eqb_eq in Hc. contradiction.
    + apply lang_eps_inv in H as ->. constructor. apply Ascii.eqb_neq, Hc.
    + apply lang_any_inv in H as (c' & Hw & _). injection Hw as _ ->.
      constructor.
  - rewrite lang_seq_cons.
    destruct (nullable r1) eqn:Hn.
    + split.
      * intro H. apply lang_alt_inv in H as [H|H].
        -- apply lang_seq_inv in H as (w1 & w2 & -> & H1 & H2).
           left. exists w1, w2. repeat split; [apply IH1, H1|exact H2].
        -- right. split; [apply nullable_lang, Hn|apply IH2, H].
      * intros [(w1 & w2 & -> & H1 & H2)|[H1 H2]].
        -- apply lang_alt_l. apply lang_seq; [apply IH1, H1|exact H2].
        -- apply lang_alt_r. apply IH2, H2.
    + split.
      * intro H. apply lang_seq_inv in H as (w1 & w2 & -> & H1 & H2).
        left. exists w1, w2. repeat split; [apply IH1, H1|exact H2].
      * intros [(w1 & w2 & -> & H1 & H2)|[H1 H2]].
        -- apply lang_seq; [apply IH1, H1|exact H2].
        -- apply nullable_lang in H1. congruence.
  - split; intro H; apply lang_alt_inv in H as [H|H];
      solve [apply lang_alt_l, IH1, H | apply lang_alt_r, IH2, H].
  - split.
    + intro H. apply lang_seq_inv in H as (w1 & w2 & -> & H1 & H2).
      apply (lang_star_cons _ (c :: w1) _); [apply IH, H1|exact H2].
    + intro H.
      destruct (lang_star_cons_inv _ _ H _ _ eq_refl) as (w1 & w2 & -> & H1 & H2).
      apply lang_seq; [apply IH, H1|exact H2].
Qed.

Lemma match_prefix_spec (r : regex) (s : list ascii) :
  match_prefix r s = true <-> exists w rest, s = w ++ rest /\ lang r w.
Proof.
  revert r. induction s as [|c s IH]; intro r; cbn [match_prefix].
  - rewrite orb_false_r, nullable_lang. split.
    + intro H. exists [], []. split; [reflexivity|exact H].
    + intros (w & rest & Hs & H). symmetry in Hs.
      apply app_eq_nil in Hs as [-> _]. exact H.
  - rewrite orb_true_iff, nullable_lang, IH. split.
    + intros [H|(w & rest & -> & H)].
      * exists [], (c :: s). split; [reflexivity|exact H].
      * exists (c :: w), rest. split; [reflexivity|apply der_lang, H].
    + intros (w & rest & Hs & H). destruct w as [|c' w]; simpl in Hs.
      * left. exact H.
      * injection Hs as <- ->. right. exists w, rest.
        split; [reflexivity|apply der_lang, H].
Qed.


(** ** Plain search terms *)

Lemma lang_literal (p w : list ascii) :
  lang (seq_of (map Chr p)) w <-> same_letters p w.
Proof.
  revert w. induction p as [|a p IH]; intro w; simpl.
  - split; intro H.
    + apply lang_eps_inv in H as ->. constructor.
    + inversion H. constructor.
  - split; intro H.
    + apply lang_seq_inv in H as (w1 & w2 & -> & H1 & H2).
      apply lang_chr_inv in H1 as (c & -> & Hc).
      constructor; [exact Hc|apply IH, H2].
    + inversion H as [|? c ? w' Hc Hw]; subst.
      apply (lang_seq _ _ [c] _); [constructor; exact Hc|apply IH, Hw].
Qed.

Lemma ci_prefix_spec (p s : list ascii) :
  ci_prefix p s = true <-> exists w rest, s = w ++ rest /\ same_letters p w.
Proof.
  revert s. induction p as [|a p IH]; intro s; simpl.
  - split; [|reflexivity].
    intros _. exists [], s. split; [reflexivity|constructor].
  - destruct s as [|b s].
    + split; [discriminate|].
      intros (w & rest & Hs & H). inversion H; subst. discriminate.
    + rewrite andb_true_iff, IH. split.
      * intros [Hab (w & rest & -> & H)].
        exists (b :: w), rest. split; [reflexivity|constructor; assumption].
      * intros (w & rest & Hs & H).
        inversion H as [|? c ? w' Hc Hw]; subst.
        injection Hs as -> ->. split; [exact Hc|].
        exists w', rest. split; [reflexivity|exact Hw].
Qed.

Lemma literal_match_prefix (p s : list ascii) :
  match_prefix (seq_of (map Chr p)) s = ci_prefix p s.
Proof.
  apply eq_true_iff_eq.
  rewrite match_prefix_spec, ci_prefix_spec.
  split; intros (w & rest & Hs & H); exists w, rest;
    (split; [exact Hs|apply lang_literal, H]).
Qed.

Lemma literal_regex_test (p s : list ascii) :
  regex_test (seq_of (map Chr p)) s = ci_includes p s.
Proof.
  induction s as [|c s IH]; cbn [regex_test ci_includes];
    rewrite literal_match_prefix; [reflexivity|].
  rewrite IH. reflexivity.
Qed.

Lemma not_syntax_char (c : ascii) :
  is_syntax_char c = false ->
  Ascii.eqb c "\" = false /\ Ascii.eqb c "(" = false /\
  Ascii.eqb c ")" = false /\ Ascii.eqb c "|" = false /\
  is_quantifier c = false /\ Ascii.eqb c "." = false.
Proof.
  unfold is_syntax_char, is_quantifier. simpl.
  intro H. repeat (apply orb_false_elim in H as [? H]).
  repeat split; try assumption.
  repeat (apply orb_false_intro); assumption.
Qed.

Lemma parse_loop_plain (l : list ascii) (cur : frame) (q : qstate)
    (stack : list frame) :
  forallb (fun c => negb (is_syntax_char c)) l = true ->
  parse_loop l cur q stack =
  parse_loop []
    {| alts := cur.(alts); terms := rev (map Chr l) ++ cur.(terms) |}
    (match l with [] => q | _ => Atom end) stack.
Proof.
  revert cur q. induction l as [|c l IH]; intros cur q Hl.
  - destruct cur. reflexivity.
  - simpl in Hl. apply andb_true_iff in Hl as [Hc Hl].
    apply negb_true_iff in Hc.
    destruct (not_syntax_char c Hc) as (H1 & H2 & H3 & H4 & H5 & H6).
    cbn [parse_loop]. rewrite H1, H2, H3, H4, H5, H6, Hc.
    rewrite (IH _ _ Hl). cbn [push_term alts terms map rev].
    rewrite <- app_assoc. simpl.
    destruct l; reflexivity.
Qed.

Lemma parse_pattern_plain (s : string) :
  plain s = true ->
  parse_pattern s = Parsed (seq_of (map Chr (chars s))).
Proof.
  intro H. unfold parse_pattern. rewrite (parse_loop_plain (chars s) empty_frame NoAtom [] H).
  cbn [parse_loop alts terms empty_frame]. unfold close.
  cbn [alts terms]. rewrite app_nil_r, rev_involutive. reflexivity.
Qed.




Lemma search_plain (E : env) (w : world) (s : string) :
  E.(db_up) = true ->
  Forall (fun d => conforms d = true) w.(db_detections) ->
  plain s = true ->
  search E w (VStr s) = Ok (literal_search w.(db_detections) s).
Proof.
  intros Hup Hconf Hplain.
  unfold search, RegExp_new, db_find, literal_search. simpl.
  rewrite (parse_pattern_plain s Hplain), Hup. simpl.
  f_equal. f_equal. apply filter_ext_in.
  intros d Hd. rewrite Forall_forall in Hconf. specialize (Hconf d Hd).
  string_fields Hconf. unfold item_contains. rewrite Hitem.
  simpl. apply literal_regex_test.
Qed.


(** ** Handlers answer *)

Lemma search_catch_responds (V : variant) (item : jsval) :
  V <> IndexJs -> exists resp, search_catch V item = Ok resp.
Proof.
  destruct V; intro H; [contradiction| |]; simpl; eauto.
Qed.

(** Every route of the two part_000 files, and every route of
    [src/index.js] other than [/search], ends in a response; and when one of
    the calls a handler makes throws, the response is the one of the
    handler's [catch] block and the world is as it was. *)
Lemma handlers_respond (V : variant) (E : env) (r : request) (w : world) :
  (V = IndexJs -> is_search r = false) ->
  (exists resp, fst (handle V E r w) = Ok resp)
  /\ (exists resp, error_answer V r = Ok resp)
  /\ (forall e, routed V r = true -> fails E r w e ->
        handle V E r w = (error_answer V r, w)).
Proof.
  intro HV. split; [|split].
  - destruct r as [m e|i|v|i|b| |id]; simpl.
    + unfold get_dashboard.
      destruct (bind _ _); simpl; eauto.
    + unfold get_search.
      destruct (negb (ToBoolean i)); simpl; eauto.
      destruct (search E w i); simpl; eauto.
      apply search_catch_responds. intro HI. specialize (HV HI). discriminate.
    + destruct V; simpl; eauto; unfold get_video;
        (destruct (listByVideo E w v) as [[|d ds]|]; simpl; eauto;
         destruct (resolve_media E v w) as [[u w']|]; simpl; eauto).
    + unfold get_last_seen.
      destruct (search E w (VStr i)) as [[|d ds]|]; simpl; eauto.
    + unfold post_detection.
      destruct (missing_fields b); simpl; eauto.
      destruct (bind _ _); simpl; eauto.
    + unfold get_items. destruct (bind _ _); simpl; eauto.
    + unfold post_delete. destruct (bind _ _); simpl; eauto.
  - destruct r as [m e|i|v|i|b| |id]; simpl; eauto.
    apply search_catch_responds. intro HI. specialize (HV HI). discriminate.
  - intros e Hr Hf. destruct r as [m er|i|v|i|b| |id]; simpl in Hf |- *.
    + unfold get_dashboard.
      destruct Hf as [H|(ds & H1 & H2)];
        [rewrite H|rewrite H1; cbn [bind]; rewrite H2]; reflexivity.
    + destruct Hf as [Ht Hs]. unfold get_search. rewrite Ht, Hs. reflexivity.
    + destruct V; [|discriminate|];
        (unfold get_video;
         destruct Hf as [H|(d & ds & H1 & H2)];
         [rewrite H|rewrite H1, H2]; reflexivity).
    + unfold get_last_seen. rewrite Hf. reflexivity.
    + destruct Hf as [Hm Hf]. unfold post_detection. rewrite Hm.
      destruct Hf as [H|(d & H1 & H2)];
        [rewrite H|rewrite H1; cbn [bind]; rewrite H2]; reflexivity.
    + unfold get_items.
      destruct Hf as [H|(items & H1 & H2)];
        [rewrite H|rewrite H1; cbn [bind]; rewrite H2]; reflexivity.
    + unfold post_delete.
      destruct Hf as [H|(oid & H1 & H2)];
        [rewrite H|rewrite H1; cbn [bind]; rewrite H2]; reflexivity.
Qed.

Lemma has_id_false (id : ObjectId) (coll : list detection) (d : detection) :
  has_id id coll = false -> In d coll -> d.(_id) <> id.
Proof.
  unfold has_id. intros H Hd Hid.
  assert (existsb (fun d0 => N.eqb d0.(_id) id) coll = true); [|congruence].
  apply existsb_exists. exists d. split; [exact Hd|apply N.eqb_eq, Hid].
Qed.

Lemma once_in_permutation {A : Type} (l coll : list A) (d : A) :
  Permutation (d :: coll) l -> ~ In d coll ->
  exists l1 l2, l = l1 ++ d :: l2 /\ ~ In d l1 /\ ~ In d l2.
Proof.
  intros Hp Hd.
  assert (Hin : In d l).
  { eapply Permutation_in; [exact Hp|left; reflexivity]. }
  apply in_split in Hin as (l1 & l2 & ->).
  exists l1, l2. split; [reflexivity|].
  apply Permutation_cons_app_inv in Hp.
  split; intro H; apply Hd;
    (eapply Permutation_in; [apply Permutation_sym, Hp|]);
    apply in_or_app; [left|right]; exact H.
Qed.

Lemma filter_all {A : Type} (l : list A) : filter (fun _ => true) l = l.
Proof.
  induction l as [|x l IH]; simpl; [reflexivity|rewrite IH; reflexivity].
Qed.

(** ** The order of strings *)

Lemma ascii_compare_trans (a b c : ascii) (o : comparison) :
  Ascii.compare a b = o -> Ascii.compare b c = o -> Ascii.compare a c = o.
Proof.
  unfold Ascii.compare. destruct o.
  - rewrite !N.compare_eq_iff. congruence.
  - rewrite !N.compare_lt_iff. apply N.lt_trans.
  - rewrite !N.compare_gt_iff. intros H1 H2. eapply N.lt_trans; eassumption.
Qed.

Lemma ascii_compare_Eq (a b : ascii) : Ascii.compare a b = Eq -> a = b.
Proof. apply Ascii.compare_eq_iff. Qed.

Lemma ascii_compare_refl (a : ascii) : Ascii.compare a a = Eq.
Proof. unfold Ascii.compare. apply N.compare_refl. Qed.

Lemma string_compare_refl (a : string) : String.compare a a = Eq.
Proof.
  induction a as [|c a IH]; simpl; [reflexivity|].
  rewrite ascii_compare_refl. exact IH.
Qed.

Lemma string_lt_trans (a b c : string) :
  string_lt a b -> string_lt b c -> string_lt a c.
Proof.
  unfold string_lt. revert b c.
  induction a as [|x a IH]; intros [|y b] [|z c]; simpl;
    try discriminate; try reflexivity.
  destruct (Ascii.compare x y) eqn:Hxy; try discriminate;
    destruct (Ascii.compare y z) eqn:Hyz; try discriminate; intros H1 H2.
  - apply ascii_compare_Eq in Hxy, Hyz. subst.
    rewrite ascii_compare_refl. apply (IH b c H1 H2).
  - apply ascii_compare_Eq in Hxy. subst. rewrite Hyz. reflexivity.
  - apply ascii_compare_Eq in Hyz. subst. rewrite Hxy. reflexivity.
  - rewrite (ascii_compare_trans x y z Lt Hxy Hyz). reflexivity.
Qed.


Lemma string_leb_lt (a b : string) :
  String.leb a b = true <-> string_lt a b \/ a = b.
Proof.
  unfold String.leb, string_lt. split.
  - destruct (String.compare a b) eqn:H; try discriminate; intros _.
    + right. apply String.compare_eq_iff, H.
    + left. reflexivity.
  - intros [H|H]; [rewrite H; reflexivity|]. subst b. rewrite string_compare_refl. reflexivity.
Qed.

Lemma string_leb_trans (a b c : string) :
  String.leb a b = true -> String.leb b c = true -> String.leb a c = true.
Proof.
  rewrite !string_leb_lt. intros [H1| ->] [H2| ->]; auto.
  left. eapply string_lt_trans; eassumption.
Qed.


Lemma sorted_nodup_strict (l : list string) :
  NoDup l -> StronglySorted (fun a b => String.leb a b = true) l ->
  StronglySorted string_lt l.
Proof.
  intros Hnd Hs. induction Hs as [|a l Hs IH Ha]; [constructor|].
  inversion Hnd as [|? ? Hnotin Hnd']; subst.
  constructor; [apply IH, Hnd'|].
  rewrite Forall_forall in Ha |- *. intros b Hb.
  destruct (proj1 (string_leb_lt a b) (Ha b Hb)) as [H|H]; [exact H|].
  subst b. contradiction.
Qed.

Lemma sort_strings_strict (l : list string) :
  NoDup l -> StronglySorted string_lt (sort_by String.leb l).
Proof.
  intro Hnd. apply sorted_nodup_strict.
  - eapply Permutation_NoDup; [apply sort_by_perm|exact Hnd].
  - apply (sort_by_sorted String.leb String.leb_total string_leb_trans).
Qed.

(** ** Distinct labels *)

Lemma filter_map_VStr (f : jsval -> bool) (l : list string) :
  filter f (map VStr l) = map VStr (filter (fun s => f (VStr s)) l).
Proof.
  induction l as [|s l IH]; simpl; [reflexivity|].
  destruct (f (VStr s)); simpl; rewrite IH; reflexivity.
Qed.

Lemma dedup_strings (l : list string) :
  dedup (map VStr l) = map VStr (first_appearance l).
Proof.
  induction l as [|s l IH]; simpl; [reflexivity|].
  rewrite IH, filter_map_VStr. reflexivity.
Qed.

Lemma first_appearance_In (l : list string) (s : string) :
  In s (first_appearance l) <-> In s l.
Proof.
  induction l as [|k l IH]; simpl; [reflexivity|].
  rewrite filter_In, IH, negb_true_iff, String.eqb_neq.
  destruct (string_dec k s) as [->|Hne].
  - split; auto.
  - split.
    + intros [H|[H _]]; auto.
    + intros [H|H]; [contradiction|]. right. split; assumption.
Qed.

Lemma first_appearance_NoDup (l : list string) : NoDup (first_appearance l).
Proof.
  induction l as [|k l IH]; simpl; constructor.
  - rewrite filter_In, negb_true_iff, String.eqb_neq. intros [_ H].
    apply H. reflexivity.
  - apply NoDup_filter, IH.
Qed.

Lemma sort_by_map {A B : Type} (f : A -> B) (lebA : A -> A -> bool)
    (lebB : B -> B -> bool) (l : list A) :
  (forall a b, lebB (f a) (f b) = lebA a b) ->
  sort_by lebB (map f l) = map f (sort_by lebA l).
Proof.
  intro H. induction l as [|x l IH]; simpl; [reflexivity|].
  rewrite IH. generalize (sort_by lebA l). clear IH.
  intro m. induction m as [|y m IHm]; simpl; [reflexivity|].
  rewrite H. destruct (lebA x y); simpl; [reflexivity|].
  rewrite IHm. reflexivity.
Qed.

Lemma sort_keys_strings (l : list string) :
  sort_keys (map VStr l) = Ok (map (fun s => (Some s, VStr s)) l).
Proof.
  induction l as [|s l IH]; simpl; [reflexivity|].
  rewrite IH. reflexivity.
Qed.

Lemma Array_sort_strings (l : list string) :
  Array_sort (map VStr l) = Ok (map VStr (sort_by String.leb l)).
Proof.
  unfold Array_sort.
  assert (Hf : filter (fun v => negb (is_undefined v)) (map VStr l) = map VStr l).
  { rewrite filter_map_VStr. simpl. rewrite filter_all. reflexivity. }
  rewrite Hf.
  assert (Hgen : bind (sort_keys (map VStr l))
                   (fun ks => Ok (map snd (sort_by key_leb ks)))
                 = Ok (map VStr (sort_by String.leb l))).
  { rewrite sort_keys_strings. cbn [bind].
    rewrite (sort_by_map (fun s => (Some s, VStr s)) String.leb key_leb)
      by reflexivity.
    rewrite map_map. reflexivity. }
  destruct l as [|a [|b l]]; [reflexivity|reflexivity|exact Hgen].
Qed.

Lemma conforming_items (coll : list detection) :
  Forall (fun d => conforms d = true) coll ->
  flat_map (fun d => field_values d.(item)) coll
  = map VStr (map item_label coll).
Proof.
  induction 1 as [|d coll Hd _ IH]; simpl; [reflexivity|].
  rewrite IH. string_fields Hd. unfold item_label. rewrite Hitem.
  reflexivity.
Qed.


(** ** Deleting by id *)

Lemma delete_first_absent (oid : ObjectId) (coll : list detection) :
  has_id oid coll = false -> delete_first oid coll = coll.
Proof.
  induction coll as [|d coll IH]; simpl; [reflexivity|].
  intro H. apply orb_false_elim in H as [Hd H].
  rewrite Hd, (IH H). reflexivity.
Qed.

Lemma delete_first_present (oid : ObjectId) (coll : list detection) :
  has_id oid coll = true ->
  exists l1 d l2,
    coll = l1 ++ d :: l2 /\ d.(_id) = oid /\ has_id oid l1 = false
    /\ delete_first oid coll = l1 ++ l2.
Proof.
  induction coll as [|d coll IH]; simpl; [discriminate|].
  destruct (N.eqb d.(_id) oid) eqn:Hd; simpl.
  - intros _. exists [], d, coll. repeat split. apply N.eqb_eq, Hd.
  - intro H. destruct (IH H) as (l1 & d' & l2 & -> & H1 & H2 & H3).
    exists (d :: l1), d', l2. simpl. rewrite Hd, H2, H3.
    repeat split. exact H1.
Qed.

(** ** Grouping by video *)

Arguments of_video : simpl never.
Arguments video_of : simpl never.
Arguments has_own : simpl never.

Lemma own_has_own (m : videoMap) (k : string) :
  own k m = None <-> has_own m k = false.
Proof.
  unfold own, has_own. induction m as [|[k' v] m IH]; simpl.
  - split; reflexivity.
  - rewrite (String.eqb_sym k k'). destruct (String.eqb k' k); simpl.
    + split; discriminate.
    + exact IH.
Qed.

Lemma push_detection_keys (k : string) (d : detection) (m : videoMap) :
  map fst (push_detection k d m) = map fst m.
Proof.
  induction m as [|[k' v] m IH]; simpl; [reflexivity|].
  destruct (String.eqb k' k); simpl; [reflexivity|].
  rewrite IH. reflexivity.
Qed.

Lemma push_detection_absent (k : string) (d : detection) (m : videoMap) :
  has_own m k = false -> push_detection k d m = m.
Proof.
  unfold has_own. induction m as [|[k' v] m IH]; simpl; [reflexivity|].
  intro H. apply orb_false_elim in H as [Hk H].
  rewrite (String.eqb_sym k' k), Hk, (IH H). reflexivity.
Qed.

Lemma of_video_cons (k : string) (d : detection) (ds : list detection) :
  of_video k (d :: ds)
  = if String.eqb (video_key d) k then d :: of_video k ds else of_video k ds.
Proof. reflexivity. Qed.

Lemma extend_app (v : video) (l1 l2 : list detection) :
  extend (extend v l1) l2 = extend v (l1 ++ l2).
Proof. unfold extend. simpl. rewrite app_assoc. reflexivity. Qed.

Lemma extend_nil (v : video) : extend v [] = v.
Proof. destruct v. unfold extend. simpl. rewrite app_nil_r. reflexivity. Qed.

(** Pushing onto the entry of [k] and then grouping the rest is grouping
    the whole list. *)
Lemma grouped_entries_push (k : string) (d : detection) (ds : list detection)
    (m : videoMap) :
  video_key d = k ->
  NoDup (map fst m) ->
  map (fun kv => (fst kv, extend (snd kv) (of_video (fst kv) ds)))
    (push_detection k d m)
  = map (fun kv => (fst kv, extend (snd kv) (of_video (fst kv) (d :: ds)))) m.
Proof.
  intros Hk Hnd. subst k.
  induction m as [|[k' v] m IH]; [reflexivity|].
  inversion Hnd as [|? ? Hnotin Hnd']; subst.
  cbn [push_detection].
  destruct (String.eqb k' (video_key d)) eqn:Hk'; cbn [map fst snd].
  - apply String.eqb_eq in Hk'. subst k'.
    rewrite (of_video_cons (video_key d) d ds), String.eqb_refl. f_equal.
    + f_equal. unfold extend. simpl. rewrite <- app_assoc. reflexivity.
    + assert (Habs : has_own m (video_key d) = false).
      { unfold has_own. apply not_true_is_false. intro H.
        apply existsb_exists in H as (x & Hx & Heq).
        apply String.eqb_eq in Heq. subst x. contradiction. }
      specialize (IH Hnd'). rewrite push_detection_absent in IH by exact Habs.
      exact IH.
  - rewrite (of_video_cons k' d ds), (String.eqb_sym (video_key d) k'), Hk'.
    f_equal. apply IH, Hnd'.
Qed.

Lemma filter_filter {A : Type} (f g : A -> bool) (l : list A) :
  filter f (filter g l) = filter (fun x => (g x && f x)%bool) l.
Proof.
  induction l as [|x l IH]; simpl; [reflexivity|].
  destruct (g x); simpl; [destruct (f x)|]; rewrite IH; reflexivity.
Qed.

Lemma has_own_app (m : videoMap) (k0 : string) (v : video) (k : string) :
  has_own (m ++ [(k0, v)]) k = (has_own m k || String.eqb k k0)%bool.
Proof.
  unfold has_own. rewrite map_app, existsb_app. simpl.
  rewrite orb_false_r. reflexivity.
Qed.

Lemma video_of_other (k : string) (d : detection) (ds : list detection) :
  String.eqb (video_key d) k = false -> video_of k (d :: ds) = video_of k ds.
Proof.
  intro H. unfold video_of. rewrite of_video_cons, H. reflexivity.
Qed.

Lemma map_ext_filter {A B : Type} (f g : A -> B) (p : A -> bool) (l : list A) :
  (forall x, p x = true -> f x = g x) ->
  map f (filter p l) = map g (filter p l).
Proof.
  intro H. apply map_ext_in. intros x Hx. apply filter_In in Hx as [_ Hx].
  apply H, Hx.
Qed.

Lemma group_loop_grouped (ds : list detection) (m : videoMap) :
  Forall (fun d => ordinary_video d = true) ds ->
  NoDup (map fst m) ->
  group_loop m ds = Ok (grouped m ds).
Proof.
  intro Hds. revert m. induction Hds as [|d ds Hd _ IH]; intros m Hnd.
  - simpl. unfold grouped. simpl. rewrite app_nil_r. f_equal.
    induction m as [|[k v] m IHm]; simpl; [reflexivity|].
    inversion Hnd; subst. rewrite <- IHm by assumption.
    unfold of_video. simpl. rewrite extend_nil. reflexivity.
  - unfold ordinary_video in Hd.
    destruct (videoId d) as [| | | |k0| |] eqn:Hvid; try discriminate.
    assert (Hkey : video_key d = k0).
    { unfold video_key. rewrite Hvid. reflexivity. }
    unfold ordinary_key in Hd. apply andb_true_iff in Hd as [Hinh _].
    apply negb_true_iff in Hinh.
    cbn [group_loop]. unfold group_step. rewrite Hvid. cbn [ToString bind].
    destruct (own k0 m) as [v|] eqn:Hown.
    + (* the video already has an entry *)
      assert (Hhas : has_own m k0 = true).
      { destruct (has_own m k0) eqn:H; [reflexivity|].
        apply own_has_own in H. congruence. }
      cbn [bind].
      rewrite IH by (rewrite push_detection_keys; exact Hnd).
      f_equal. unfold grouped.
      rewrite (grouped_entries_push k0 d ds m Hkey Hnd). f_equal.
      cbn [map first_appearance]. rewrite Hkey. cbn [filter].
      unfold has_own at 2. fold (has_own m k0). rewrite Hhas. cbn [negb].
      rewrite filter_filter.
      assert (Hf : forall k, In k (first_appearance (map video_key ds)) ->
                (negb (String.eqb k0 k) && negb (has_own m k))%bool
                = negb (has_own (push_detection k0 d m) k)).
      { intros k _. unfold has_own. rewrite push_detection_keys.
        fold (has_own m k).
        destruct (String.eqb k0 k) eqn:Hk; simpl; [|reflexivity].
        apply String.eqb_eq in Hk. subst k. rewrite Hhas. reflexivity. }
      rewrite (filter_ext_in _ _ _ Hf).
      apply map_ext_filter. intros k Hk. f_equal.
      rewrite video_of_other; [reflexivity|].
      rewrite Hkey. apply not_true_is_false. intro Heq.
      apply String.eqb_eq in Heq. subst k.
      unfold has_own in Hk. rewrite push_detection_keys in Hk.
      fold (has_own m k0) in Hk. rewrite Hhas in Hk. discriminate.
    + (* the first detection of the video *)
      assert (Hhas : has_own m k0 = false) by (apply own_has_own, Hown).
      rewrite Hinh. cbn [bind].
      rewrite IH.
      2:{ rewrite map_app. simpl. apply NoDup_app; [exact Hnd|repeat constructor; intros []|].
          intros x Hx [Heq|[]]. subst x. unfold has_own in Hhas.
          assert (existsb (String.eqb k0) (map fst m) = true); [|congruence].
          apply existsb_exists. exists k0.
          split; [exact Hx|apply String.eqb_refl]. }
      f_equal. unfold grouped. rewrite map_app, <- app_assoc. f_equal.
      * apply map_ext_in. intros [k v] Hin. simpl. f_equal. f_equal.
        rewrite of_video_cons, Hkey.
        destruct (String.eqb k0 k) eqn:Hk; [|reflexivity].
        apply String.eqb_eq in Hk. subst k.
        unfold has_own in Hhas.
        assert (existsb (String.eqb k0) (map fst m) = true); [|congruence].
        apply existsb_exists. exists k0. split; [|apply String.eqb_refl].
        apply in_map_iff. exists (k0, v). split; [reflexivity|exact Hin].
      * cbn [map first_appearance]. rewrite Hkey. cbn [filter].
        rewrite Hhas. cbn [negb map app fst snd].
        f_equal.
        -- f_equal. unfold extend, video_of. cbn [v_videoId v_cameraId v_detections].
           rewrite of_video_cons, Hkey, String.eqb_refl. reflexivity.
        -- rewrite filter_filter.
           assert (Hf : forall k, In k (first_appearance (map video_key ds)) ->
                     negb (has_own (m ++ [(k0, {| v_videoId := VStr k0;
                                                  v_cameraId := cameraId d;
                                                  v_detections := [d] |})]) k)
                     = (negb (String.eqb k0 k) && negb (has_own m k))%bool).
           { intros k _. rewrite has_own_app, negb_orb, (String.eqb_sym k k0).
             apply andb_comm. }
           rewrite (filter_ext_in _ _ _ Hf).
           apply map_ext_filter. intros k Hk. f_equal.
           apply andb_true_iff in Hk as [Hk _]. apply negb_true_iff in Hk.
           symmetry. apply video_of_other. rewrite Hkey. exact Hk.
Qed.

Lemma Object_values_ordinary (m : videoMap) :
  Forall (fun kv => array_index (fst kv) = None) m ->
  Object_values m = map snd m.
Proof.
  intro H. unfold Object_values.
  assert (Hi : index_entries m = [] /\ name_entries m = map snd m).
  { induction H as [|[k v] m Hk _ [IH1 IH2]]; simpl; [split; reflexivity|].
    simpl in Hk. rewrite Hk, IH1, IH2. split; reflexivity. }
  destruct Hi as [-> ->]. reflexivity.
Qed.

(** With ordinary video identifiers the dashboard shows the videos in the
    order of first appearance, each with the camera of its first detection
    and its detections in the order of the list. *)
Lemma group_by_video_first_appearance (ds : list detection) :
  Forall (fun d => ordinary_video d = true) ds ->
  group_by_video ds
  = Ok (map (fun k => video_of k ds) (first_appearance (map video_key ds))).
Proof.
  intro Hds. unfold group_by_video.
  rewrite (group_loop_grouped ds [] Hds) by constructor.
  cbn [bind]. f_equal. unfold grouped. cbn [map app].
  rewrite Object_values_ordinary.
  - rewrite map_map. simpl. f_equal.
    apply filter_all.
  - apply Forall_forall. intros [k v] Hin. simpl.
    apply in_map_iff in Hin as (k' & Heq & Hin). injection Heq as -> _.
    apply filter_In in Hin as [Hin _].
    apply (proj1 (first_appearance_In _ _)) in Hin.
    apply in_map_iff in Hin as (d & Hk & Hd).
    rewrite Forall_forall in Hds. specialize (Hds d Hd).
    unfold ordinary_video, video_key in *.
    destruct (videoId d); try discriminate. subst k.
    unfold ordinary_key in Hds. apply andb_true_iff in Hds as [_ Hds].
    destruct (array_index s); [discriminate|reflexivity].
Qed.

(** On a store whose video identifiers are ordinary keys, the dashboard
    shows what the specification describes. *)
Lemma dashboard_ordinary_videos
    (V : variant) (E : env) (message error : jsval) (w : world) :
  E.(db_up) = true ->
  Forall (fun d => ordinary_video d = true) w.(db_detections) ->
  let ds := sort_by newer_first w.(db_detections) in
  listAll E w = Ok ds
  /\ get_dashboard V E message error w
     = (Ok (Render (dashboard_view V)
              [("videos",
                Videos (map (fun k => video_of k ds)
                          (first_appearance (map video_key ds))));
               ("message", Val message); ("error", Val error)]), w).
Proof.
  intros Hup Hord ds.
  assert (Hall : listAll E w = Ok ds).
  { unfold listAll, db_find. rewrite Hup. cbn [bind].
    rewrite filter_all. reflexivity. }
  split; [exact Hall|].
  unfold get_dashboard. rewrite Hall. cbn [bind].
  rewrite group_by_video_first_appearance; [reflexivity|].
  rewrite Forall_forall in Hord |- *. intros d Hd.
  apply Hord. apply (proj1 (sort_by_In newer_first _ d)). exact Hd.
Qed.

(** ** Conversions that throw *)

Lemma ToString_unprintable (v : jsval) :
  (unprintable v = true -> ToString v = Throw TypeError)
  /\ (unprintable v = false -> exists s, ToString v = Ok s).
Proof.
  induction v as [| |b|n|s|l IH|kvs] using jsval_nested_ind.
  - split; [discriminate|intros _; simpl; eauto].
  - split; [discriminate|intros _; simpl; eauto].
  - destruct b; (split; [discriminate|intros _; simpl; eauto]).
  - split; [discriminate|intros _; simpl; eauto].
  - split; [discriminate|intros _; simpl; eauto].
  - cbn [ToString unprintable].
    induction IH as [|x l Hx _ IHl]; [split; [discriminate|simpl; eauto]|].
    cbn [existsb]. destruct Hx as [Hx1 Hx2]. destruct IHl as [IH1 IH2].
    assert (Hhead : (unprintable x = true ->
                     match x with
                     | VUndefined | VNull => Ok ""
                     | _ => ToString x
                     end = Throw TypeError)
                    /\ (unprintable x = false ->
                        exists s, match x with
                                  | VUndefined | VNull => Ok ""
                                  | _ => ToString x
                                  end = Ok s)).
    { destruct x; (split; [try discriminate; try exact Hx1
                          |try (intros _; simpl; eauto; fail); try exact Hx2]). }
    destruct Hhead as [Hh1 Hh2].
    destruct (unprintable x) eqn:Ux; cbn [orb].
    + split; [intros _|discriminate].
      rewrite (Hh1 eq_refl). reflexivity.
    + destruct (Hh2 eq_refl) as [s ->]. cbn [bind].
      destruct l as [|y l']; [split; [discriminate|eauto]|].
      split.
      * intro H. rewrite (IH1 H). reflexivity.
      * intro H. destruct (IH2 H) as [r ->]. cbn [bind]. eauto.
  - cbn [ToString unprintable]. destruct (has_key "toString" kvs);
      split; try discriminate; eauto.
Qed.

Lemma parseFloat_unprintable (v : jsval) :
  (unprintable v = true -> parseFloat v = Throw TypeError)
  /\ (unprintable v = false -> exists c, parseFloat v = Ok c).
Proof.
  unfold parseFloat. destruct (ToString_unprintable v) as [H1 H2]. split.
  - intro H. rewrite (H1 H). reflexivity.
  - intro H. destruct (H2 H) as [s ->]. cbn [bind]. eauto.
Qed.

Lemma parseInt_unprintable (v : jsval) :
  (unprintable v = true -> parseInt v = Throw TypeError)
  /\ (unprintable v = false -> exists c, parseInt v = Ok c).
Proof.
  unfold parseInt. destruct (ToString_unprintable v) as [H1 H2]. split.
  - intro H. rewrite (H1 H). reflexivity.
  - intro H. destruct (H2 H) as [s ->]. cbn [bind]. eauto.
Qed.

Lemma Date_new_unprintable (parse : string -> date) (v : jsval) :
  (unprintable v = true -> Date_new parse v = Throw TypeError)
  /\ (unprintable v = false -> exists t, Date_new parse v = Ok t).
Proof.
  unfold Date_new, ToPrimitive. destruct (ToString_unprintable v) as [H1 H2].
  destruct v; try (split; [discriminate|intros _; simpl; eauto]).
  - split.
    + intro H. rewrite (H1 H). reflexivity.
    + intro H. destruct (H2 H) as [s ->]. cbn [bind]. eauto.
  - split.
    + intro H. rewrite (H1 H). reflexivity.
    + intro H. destruct (H2 H) as [s ->]. cbn [bind]. eauto.
Qed.

Lemma new_detection_converts (E : env) (b : payload) :
  (converts b = false -> new_detection E b = Throw TypeError)
  /\ (converts b = true ->
      exists c t s,
        parseFloat b.(p_confidence) = Ok c
        /\ Date_new E.(Date_parse) b.(p_timestamp) = Ok t
        /\ parseInt b.(p_timestampSec) = Ok s
        /\ new_detection E b
           = Ok {| _id := E.(generated_id);
                   cameraId := b.(p_cameraId);
                   videoId := b.(p_videoId);
                   item := b.(p_item);
                   confidence := c;
                   timestamp := bson_date t;
                   timestampSec := s;
                   createdAt := E.(Date_now) |}).
Proof.
  unfold converts, new_detection.
  destruct (parseFloat_unprintable b.(p_confidence)) as [C1 C2].
  destruct (Date_new_unprintable E.(Date_parse) b.(p_timestamp)) as [T1 T2].
  destruct (parseInt_unprintable b.(p_timestampSec)) as [S1 S2].
  destruct (unprintable b.(p_confidence)).
  { split; [intros _|discriminate]. rewrite (C1 eq_refl). reflexivity. }
  destruct (C2 eq_refl) as [c Hc]. rewrite Hc. cbn [bind orb].
  destruct (unprintable b.(p_timestamp)).
  { split; [intros _|discriminate]. rewrite (T1 eq_refl). reflexivity. }
  destruct (T2 eq_refl) as [t Ht]. rewrite Ht. cbn [bind orb].
  destruct (unprintable b.(p_timestampSec)).
  { split; [intros _|discriminate]. rewrite (S1 eq_refl). reflexivity. }
  destruct (S2 eq_refl) as [s Hs]. rewrite Hs. cbn [bind].
  split; [discriminate|intros _].
  exists c, t, s. repeat split.
Qed.

(** ** What the collection receives *)

Lemma bson_detection_fields (E : env) (d d' : detection) :
  bson_detection E d = Ok d' ->
  d'.(_id) = d.(_id)
  /\ to_bson E d.(cameraId) = Ok d'.(cameraId)
  /\ to_bson E d.(videoId) = Ok d'.(videoId)
  /\ to_bson E d.(item) = Ok d'.(item)
  /\ d'.(confidence) = bson_number E d.(confidence)
  /\ d'.(timestamp) = d.(timestamp)
  /\ d'.(timestampSec) = bson_number E d.(timestampSec)
  /\ d'.(createdAt) = d.(createdAt).
Proof.
  unfold bson_detection.
  destruct (to_bson E d.(cameraId)); cbn [bind]; [|discriminate].
  destruct (to_bson E d.(videoId)); cbn [bind]; [|discriminate].
  destruct (to_bson E d.(item)); cbn [bind]; [|discriminate].
  intro H. injection H as <-. repeat split.
Qed.

Lemma to_bson_string (E : env) (s : string) (v : jsval) :
  to_bson E (VStr s) = Ok v -> v = VStr s.
Proof. simpl. intro H. injection H as <-. reflexivity. Qed.

(** The ingestion route on a payload that converts, with a store that
    accepts the document. *)
Lemma post_detection_stores
    (E : env) (b : payload) (w : world) (c s : number) (t : date)
    (cam vid label : jsval) :
  missing_fields b = false ->
  parseFloat b.(p_confidence) = Ok c ->
  Date_new E.(Date_parse) b.(p_timestamp) = Ok t ->
  parseInt b.(p_timestampSec) = Ok s ->
  E.(db_up) = true ->
  to_bson E b.(p_cameraId) = Ok cam ->
  to_bson E b.(p_videoId) = Ok vid ->
  to_bson E b.(p_item) = Ok label ->
  has_id E.(generated_id) w.(db_detections) = false ->
  post_detection E b w
  = (Ok logged_response,
     {| db_detections :=
          w.(db_detections)
          ++ [ {| _id := E.(generated_id);
                  cameraId := cam;
                  videoId := vid;
                  item := label;
                  confidence := bson_number E c;
                  timestamp := bson_date t;
                  timestampSec := bson_number E s;
                  createdAt := E.(Date_now) |} ];
        bucket_files := w.(bucket_files) |}).
Proof.
  intros Hm Hc Ht Hs Hup Hcam Hvid Hlab Hid.
  unfold post_detection, new_detection. rewrite Hm, Hc, Ht, Hs. cbn [bind].
  unfold insertOne, bson_detection. rewrite Hup.
  cbn [cameraId videoId item _id confidence timestamp timestampSec createdAt].
  rewrite Hcam, Hvid, Hlab. cbn [bind _id]. rewrite Hid. reflexivity.
Qed.

(** ** The Number value of an integer *)

Lemma scale_up (x k : Z) : (0 <= k)%Z -> scale x k = (x * 2 ^ k)%Z.
Proof. intro H. unfold scale. rewrite Z.max_r by lia. reflexivity. Qed.

Lemma scale_down (x k : Z) : (k <= 0)%Z -> scale x k = x.
Proof. intro H. unfold scale. rewrite Z.max_l by lia. simpl. lia. Qed.

Lemma log2_ratio_integer (p : Z) : (0 < p)%Z -> log2_ratio p 1 = Z.log2 p.
Proof.
  intro Hp. unfold log2_ratio. simpl (Z.log2 1). rewrite Z.sub_0_r.
  assert (H0 := Z.log2_nonneg p).
  destruct (Z.log2_spec p Hp) as [Hlo _].
  rewrite (scale_up 1 _ H0), (scale_down p) by lia.
  rewrite Z.mul_1_l. apply Z.leb_le in Hlo. rewrite Hlo. reflexivity.
Qed.

(** The value read from the digits of an integer is an integer or an
    infinity. *)
Lemma round_integer_integral (neg : bool) (p : Z) :
  (0 < p)%Z -> integral (round_ratio neg p 1) = true.
Proof.
  intro Hp. unfold round_ratio. rewrite (log2_ratio_integer p Hp).
  set (l := Z.log2 p). set (e := Z.max (l - 52) (-1074)).
  assert (Hl : (0 <= l)%Z) by apply Z.log2_nonneg.
  destruct (Z.log2_spec p Hp) as [Hlo Hhi]. fold l in Hlo, Hhi.
  destruct (Z_lt_le_dec e 0) as [He|He].
  - (* below 2^52: the quotient is exact *)
    assert (Hel : e = (l - 52)%Z) by (unfold e; lia).
    rewrite (scale_up p (- e)) by lia. rewrite (scale_down 1 e) by lia.
    rewrite Z.div_1_r, Z.mod_1_r. cbn [Z.mul Z.compare].
    assert (Hm : (p * 2 ^ (- e) < 2 ^ 53)%Z).
    { replace 53%Z with ((l + 1) + (- e))%Z by lia.
      rewrite Z.pow_add_r by lia.
      apply Z.mul_lt_mono_pos_r; [apply Z.pow_pos_nonneg; lia|exact Hhi]. }
    assert (Hpos : (0 < p * 2 ^ (- e))%Z).
    { apply Z.mul_pos_pos; [exact Hp|apply Z.pow_pos_nonneg; lia]. }
    assert (Hne : (p * 2 ^ (- e) =? 2 ^ 53)%Z = false) by (apply Z.eqb_neq; lia).
    rewrite Hne.
    assert (Hnz : (p * 2 ^ (- e) =? 0)%Z = false) by (apply Z.eqb_neq; lia).
    rewrite Hnz.
    assert (H971 : (e <=? 971)%Z = true) by (apply Z.leb_le; lia).
    rewrite H971. unfold integral, num_Z.
    assert (Hneg : (0 <=? e)%Z = false) by (apply Z.leb_gt; exact He).
    rewrite Hneg. rewrite Z2N.id by lia. rewrite Z.mod_mul by lia.
    reflexivity.
  - assert (Hneg : forall m, (0 <=? (if (m =? 2 ^ 53)%Z then e + 1 else e))%Z
                             = true).
    { intro m. apply Z.leb_le. destruct (m =? 2 ^ 53)%Z; lia. }
    match goal with
    | |- context [if (?m =? 2 ^ 53)%Z then (e + 1)%Z else e] =>
        specialize (Hneg m); set (e' := if (m =? 2 ^ 53)%Z then (e + 1)%Z else e) in *;
        set (m' := if (m =? 2 ^ 53)%Z then (2 ^ 52)%Z else m)
    end.
    destruct (m' =? 0)%Z; [reflexivity|].
    destruct (e' <=? 971)%Z; [|reflexivity].
    unfold integral, num_Z. rewrite Hneg. reflexivity.
Qed.

Lemma of_decimal_integral (neg : bool) (n : N) :
  integral (of_decimal neg n 0) = true.
Proof.
  unfold of_decimal. destruct (N.eqb n 0) eqn:Hn; [reflexivity|].
  apply N.eqb_neq in Hn. cbn [Z.leb Z.compare Z.pow]. 
  rewrite Z.mul_1_r. apply round_integer_integral. lia.
Qed.

(** Up to [2^53] it is that integer. *)
Lemma round_small_integer (neg : bool) (p : Z) :
  (0 < p <= 2 ^ 53)%Z ->
  num_Z (round_ratio neg p 1) = Some ((if neg then -1 else 1) * p)%Z.
Proof.
  intros [Hp Hmax]. unfold round_ratio. rewrite (log2_ratio_integer p Hp).
  set (l := Z.log2 p). set (e := Z.max (l - 52) (-1074)).
  assert (Hl : (0 <= l)%Z) by apply Z.log2_nonneg.
  destruct (Z.log2_spec p Hp) as [Hlo Hhi]. fold l in Hlo, Hhi.
  assert (Hl53 : (l <= 53)%Z).
  { destruct (Z_le_gt_dec l 53) as [H|H]; [exact H|exfalso].
    assert (2 ^ 54 <= 2 ^ l)%Z by (apply Z.pow_le_mono_r; lia).
    assert (2 ^ 53 < 2 ^ 54)%Z by (apply Z.pow_lt_mono_r; lia). lia. }
  assert (Hel : e = (l - 52)%Z) by (unfold e; lia).
  destruct (Z.eq_dec l 53) as [H53|H53].
  - (* p = 2^53 *)
    assert (Hp53 : p = (2 ^ 53)%Z) by (rewrite H53 in Hlo; lia).
    subst p. replace e with 1%Z by lia. vm_compute. destruct neg; reflexivity.
  - assert (He : (e <= 0)%Z) by lia.
    rewrite (scale_up (p) (- e)) by lia. rewrite (scale_down 1 e) by lia.
    rewrite Z.div_1_r, Z.mod_1_r. cbn [Z.mul Z.compare].
    assert (Hm : (p * 2 ^ (- e) < 2 ^ 53)%Z).
    { replace 53%Z with ((l + 1) + (- e))%Z by lia.
      rewrite Z.pow_add_r by lia.
      apply Z.mul_lt_mono_pos_r; [apply Z.pow_pos_nonneg; lia|exact Hhi]. }
    assert (Hpos : (0 < p * 2 ^ (- e))%Z).
    { apply Z.mul_pos_pos; [exact Hp|apply Z.pow_pos_nonneg; lia]. }
    assert (Hne : (p * 2 ^ (- e) =? 2 ^ 53)%Z = false) by (apply Z.eqb_neq; lia).
    rewrite Hne.
    assert (Hnz : (p * 2 ^ (- e) =? 0)%Z = false) by (apply Z.eqb_neq; lia).
    rewrite Hnz.
    assert (H971 : (e <=? 971)%Z = true) by (apply Z.leb_le; lia).
    rewrite H971. unfold num_Z. rewrite Z2N.id by lia.
    destruct (Z.eq_dec e 0) as [He0|He0].
    + rewrite He0. cbn [Z.leb Z.compare Z.opp Z.pow].
      rewrite !Z.mul_1_r. reflexivity.
    + assert (Hneg : (0 <=? e)%Z = false) by (apply Z.leb_gt; lia).
      rewrite Hneg. rewrite Z.mod_mul by lia. cbn [Z.eqb].
      rewrite Z.div_mul by lia. reflexivity.
Qed.

(** ** Rounding depends on the ratio only *)

Lemma scale_pos (x k : Z) : (0 < x)%Z -> (0 < scale x k)%Z.
Proof.
  intro H. unfold scale. apply Z.mul_pos_pos; [exact H|].
  apply Z.pow_pos_nonneg; lia.
Qed.

Lemma scale_mul (c x k : Z) : scale (c * x) k = (c * scale x k)%Z.
Proof. unfold scale. ring. Qed.

Lemma log2_ratio_spec (p q : Z) :
  (0 < p)%Z -> (0 < q)%Z -> binade p q (log2_ratio p q).
Proof.
  intros Hp Hq. unfold binade, log2_ratio.
  destruct (Z.log2_spec p Hp) as [P1 P2].
  destruct (Z.log2_spec q Hq) as [Q1 Q2].
  assert (Lp := Z.log2_nonneg p). assert (Lq := Z.log2_nonneg q).
  set (lp := Z.log2 p) in *. set (lq := Z.log2 q) in *.
  rewrite <- Z.add_1_r in P2, Q2. rewrite Z.pow_add_r in P2, Q2 by lia.
  change (2 ^ 1)%Z with 2%Z in P2, Q2.
  assert (X : (0 < 2 ^ lp)%Z) by (apply Z.pow_pos_nonneg; lia).
  assert (Y : (0 < 2 ^ lq)%Z) by (apply Z.pow_pos_nonneg; lia).
  destruct (Z_le_gt_dec 0 (lp - lq)) as [Hd|Hd].
  - (* lq <= lp *)
    assert (Hpow : (2 ^ lp = 2 ^ lq * 2 ^ (lp - lq))%Z).
    { rewrite <- Z.pow_add_r by lia. f_equal. lia. }
    assert (D : (0 < 2 ^ (lp - lq))%Z) by (apply Z.pow_pos_nonneg; lia).
    rewrite (scale_up q (lp - lq)) by lia.
    rewrite (scale_down p (- (lp - lq))) by lia.
    destruct (q * 2 ^ (lp - lq) <=? p)%Z eqn:Ht.
    + apply Z.leb_le in Ht.
      rewrite (scale_up q (lp - lq)) by lia.
      rewrite (scale_down p (- (lp - lq))) by lia.
      split; [exact Ht|]. nia.
    + apply Z.leb_gt in Ht.
      destruct (Z.eq_dec (lp - lq) 0) as [H0|H0].
      * rewrite H0 in *. change (0 - 1)%Z with (-1)%Z.
        rewrite (scale_down q (-1)) by lia.
        rewrite (scale_up p (- -1)) by lia.
        change (2 ^ (- -1))%Z with 2%Z.
        assert (lp = lq) by lia. subst lp.
        change (2 ^ 0)%Z with 1%Z in Ht. lia.
      * assert (Hpow' : (2 ^ (lp - lq) = 2 * 2 ^ (lp - lq - 1))%Z).
        { replace (lp - lq)%Z with (1 + (lp - lq - 1))%Z at 1 by lia.
          rewrite Z.pow_add_r by lia. reflexivity. }
        assert (D' : (0 < 2 ^ (lp - lq - 1))%Z)
          by (apply Z.pow_pos_nonneg; lia).
        rewrite (scale_up q (lp - lq - 1)) by lia.
        rewrite (scale_down p (- (lp - lq - 1))) by lia.
        split; nia.
  - (* lp < lq *)
    assert (Hpow : (2 ^ lq = 2 ^ lp * 2 ^ (lq - lp))%Z).
    { rewrite <- Z.pow_add_r by lia. f_equal. lia. }
    assert (D : (0 < 2 ^ (lq - lp))%Z) by (apply Z.pow_pos_nonneg; lia).
    rewrite (scale_down q (lp - lq)) by lia.
    rewrite (scale_up p (- (lp - lq))) by lia.
    replace (- (lp - lq))%Z with (lq - lp)%Z by lia.
    destruct (q <=? p * 2 ^ (lq - lp))%Z eqn:Ht.
    + apply Z.leb_le in Ht.
      rewrite (scale_down q (lp - lq)) by lia.
      rewrite (scale_up p (- (lp - lq))) by lia.
      replace (- (lp - lq))%Z with (lq - lp)%Z by lia.
      split; [exact Ht|]. nia.
    + apply Z.leb_gt in Ht.
      rewrite (scale_down q (lp - lq - 1)) by lia.
      rewrite (scale_up p (- (lp - lq - 1))) by lia.
      replace (- (lp - lq - 1))%Z with (1 + (lq - lp))%Z by lia.
      rewrite Z.pow_add_r by lia. change (2 ^ 1)%Z with 2%Z.
      split; nia.
Qed.

Lemma binade_unique_lt (p q l l' : Z) :
  (0 < p)%Z -> (0 < q)%Z -> (l < l')%Z ->
  binade p q l -> binade p q l' -> False.
Proof.
  unfold binade, scale. intros Hp Hq Hl [_ H1] [H2 _].
  set (A := (2 ^ Z.max 0 l)%Z) in *. set (B := (2 ^ Z.max 0 (- l))%Z) in *.
  set (A' := (2 ^ Z.max 0 l')%Z) in *. set (B' := (2 ^ Z.max 0 (- l'))%Z) in *.
  assert (PA : (0 < A)%Z) by (apply Z.pow_pos_nonneg; lia).
  assert (PB : (0 < B)%Z) by (apply Z.pow_pos_nonneg; lia).
  assert (PA' : (0 < A')%Z) by (apply Z.pow_pos_nonneg; lia).
  assert (PB' : (0 < B')%Z) by (apply Z.pow_pos_nonneg; lia).
  assert (H3 : (2 * (A * B') <= A' * B)%Z).
  { unfold A, B, A', B'. rewrite <- !Z.pow_add_r by lia.
    change 2%Z with (2 ^ 1)%Z at 1. rewrite <- Z.pow_add_r by lia.
    apply Z.pow_le_mono_r; lia. }
  assert (E1 : (p * B * B' < 2 * (q * A) * B')%Z)
    by (apply Z.mul_lt_mono_pos_r; assumption).
  assert (E2 : (q * A' * B <= p * B' * B)%Z)
    by (apply Z.mul_le_mono_nonneg_r; lia).
  assert (E3 : (q * (2 * (A * B')) <= q * (A' * B))%Z)
    by (apply Z.mul_le_mono_nonneg_l; lia).
  lia.
Qed.

Lemma log2_ratio_unique (p q l : Z) :
  (0 < p)%Z -> (0 < q)%Z -> binade p q l -> log2_ratio p q = l.
Proof.
  intros Hp Hq Hl. assert (H0 := log2_ratio_spec p q Hp Hq).
  destruct (Z.lt_trichotomy (log2_ratio p q) l) as [H|[H|H]]; [|exact H|].
  - destruct (binade_unique_lt p q _ _ Hp Hq H H0 Hl).
  - destruct (binade_unique_lt p q _ _ Hp Hq H Hl H0).
Qed.

Lemma log2_ratio_mul (c p q : Z) :
  (0 < c)%Z -> (0 < p)%Z -> (0 < q)%Z ->
  log2_ratio (c * p) (c * q) = log2_ratio p q.
Proof.
  intros Hc Hp Hq. apply log2_ratio_unique; [lia..|].
  destruct (log2_ratio_spec p q Hp Hq) as [H1 H2].
  unfold binade. rewrite !scale_mul. split; nia.
Qed.

Lemma mul_compare_pos (c x y : Z) :
  (0 < c)%Z -> (c * x ?= c * y)%Z = (x ?= y)%Z.
Proof.
  intro Hc. destruct (Z.compare_spec x y) as [H|H|H].
  - subst. apply Z.compare_refl.
  - apply Z.compare_lt_iff. nia.
  - apply Z.compare_gt_iff. nia.
Qed.

(** The Number value of [c*p / c*q] is that of [p/q]. *)
Lemma round_ratio_mul (neg : bool) (c p q : Z) :
  (0 < c)%Z -> (0 < p)%Z -> (0 < q)%Z ->
  round_ratio neg (c * p) (c * q) = round_ratio neg p q.
Proof.
  intros Hc Hp Hq. unfold round_ratio.
  rewrite (log2_ratio_mul c p q Hc Hp Hq).
  set (e := Z.max (log2_ratio p q - 52) (-1074)).
  rewrite !scale_mul.
  assert (Hd : (0 < scale q e)%Z) by (apply scale_pos, Hq).
  rewrite Z.div_mul_cancel_l by lia.
  rewrite Z.mul_mod_distr_l by lia.
  replace (2 * (c * (scale p (- e) mod scale q e)))%Z
    with (c * (2 * (scale p (- e) mod scale q e)))%Z by ring.
  rewrite (mul_compare_pos c) by lia.
  reflexivity.
Qed.

(** A binary64 value is its own Number value. *)
Lemma round_ratio_exact (neg : bool) (m : N) (e : Z) :
  (m <> 0)%N -> is_binary64 (Fin neg m e) = true ->
  round_ratio neg (scale (Z.of_N m) e) (scale 1 (- e)) = Fin neg m e.
Proof.
  intros Hm Hb. unfold is_binary64 in Hb.
  apply N.eqb_neq in Hm. rewrite Hm in Hb. apply N.eqb_neq in Hm.
  apply andb_true_iff in Hb as [Hb Hc]. apply andb_true_iff in Hb as [Hb1 Hb2].
  apply N.ltb_lt in Hb1. apply Z.leb_le in Hb2.
  set (M := Z.of_N m) in *.
  assert (HM : (0 < M < 2 ^ 53)%Z).
  { unfold M. split; [lia|]. change (2 ^ 53)%Z with (Z.of_N (2 ^ 53)). lia. }
  assert (Hlog : (Z.log2 M <= 52)%Z).
  { destruct (Z.log2_spec M) as [L1 _]; [lia|].
    destruct (Z_le_gt_dec (Z.log2 M) 52) as [H|H]; [exact H|exfalso].
    assert (2 ^ 53 <= 2 ^ Z.log2 M)%Z by (apply Z.pow_le_mono_r; lia). lia. }
  assert (Hexp : Z.max (Z.log2 M + e - 52) (-1074) = e).
  { apply orb_true_iff in Hc as [Hc|Hc].
    - apply andb_true_iff in Hc as [Hc1 Hc2].
      apply N.leb_le in Hc1. apply Z.leb_le in Hc2.
      assert (2 ^ 52 <= M)%Z.
      { unfold M. change (2 ^ 52)%Z with (Z.of_N (2 ^ 52)). lia. }
      assert (52 <= Z.log2 M)%Z.
      { change 52%Z with (Z.log2 (2 ^ 52)). apply Z.log2_le_mono. lia. }
      lia.
    - apply Z.eqb_eq in Hc. lia. }
  assert (Hl : log2_ratio (scale M e) (scale 1 (- e)) = (Z.log2 M + e)%Z).
  { apply log2_ratio_unique; [apply scale_pos; lia..|].
    destruct (Z.log2_spec M) as [L1 L2]; [lia|].
    assert (L0 := Z.log2_nonneg M).
    rewrite <- Z.add_1_r, Z.pow_add_r in L2 by lia.
    change (2 ^ 1)%Z with 2%Z in L2.
    set (l := Z.log2 M) in *.
    unfold binade, scale. rewrite !Z.mul_1_l.
    set (A := (2 ^ Z.max 0 (- e))%Z). set (B := (2 ^ Z.max 0 (l + e))%Z).
    set (C := (2 ^ Z.max 0 e)%Z). set (D := (2 ^ Z.max 0 (- (l + e)))%Z).
    assert (Heq : (A * B = 2 ^ l * (C * D))%Z).
    { unfold A, B, C, D. rewrite <- !Z.pow_add_r by lia. f_equal. lia. }
    assert (PC : (0 < C * D)%Z).
    { apply Z.mul_pos_pos; apply Z.pow_pos_nonneg; lia. }
    rewrite Heq. replace (M * C * D)%Z with (M * (C * D))%Z by ring.
    split; nia. }
  unfold round_ratio. rewrite Hl, Hexp.
  assert (Hnum : scale (scale M e) (- e) = (M * scale (scale 1 (- e)) e)%Z).
  { unfold scale. ring. }
  rewrite Hnum.
  assert (Hd : (0 < scale (scale 1 (- e)) e)%Z) by (apply scale_pos, scale_pos; lia).
  rewrite Z.div_mul, Z.mod_mul by lia.
  assert (Hlt : (2 * 0 ?= scale (scale 1 (- e)) e)%Z = Lt).
  { apply Z.compare_lt_iff. lia. }
  rewrite Hlt.
  assert (H1 : (M =? 2 ^ 53)%Z = false) by (apply Z.eqb_neq; lia).
  assert (H2 : (M =? 0)%Z = false) by (apply Z.eqb_neq; lia).
  apply Z.leb_le in Hb2.
  rewrite H1, H2, Hb2. unfold M. rewrite N2Z.id. reflexivity.
Qed.

(** ** Decimals with the same value *)

Lemma pow10_pos (k : Z) : (0 <= k)%Z -> (0 < 10 ^ k)%Z.
Proof. intro H. apply Z.pow_pos_nonneg; lia. Qed.

Lemma of_decimal_shift (neg : bool) (m a : N) (e : Z) :
  m <> 0%N ->
  of_decimal neg (m * 10 ^ a) e = of_decimal neg m (e + Z.of_N a).
Proof.
  intro Hm. unfold of_decimal.
  assert (Hma : N.eqb (m * 10 ^ a) 0 = false).
  { apply N.eqb_neq. intro H. apply N.eq_mul_0 in H as [H|H]; [contradiction|].
    apply N.pow_nonzero in H; [exact H|discriminate]. }
  apply N.eqb_neq in Hm. rewrite Hma, Hm. apply N.eqb_neq in Hm.
  assert (HM : (0 < Z.of_N m)%Z) by lia.
  assert (HA : (0 <= Z.of_N a)%Z) by lia.
  rewrite N2Z.inj_mul, N2Z.inj_pow. change (Z.of_N 10) with 10%Z.
  set (M := Z.of_N m) in *. set (A := Z.of_N a) in *.
  assert (PA := pow10_pos A HA).
  destruct (0 <=? e)%Z eqn:He.
  - apply Z.leb_le in He.
    assert (H : (0 <=? e + A)%Z = true) by (apply Z.leb_le; lia).
    rewrite H. f_equal. rewrite Z.pow_add_r by lia. ring.
  - apply Z.leb_gt in He.
    assert (PE := pow10_pos (- e) ltac:(lia)).
    destruct (0 <=? e + A)%Z eqn:H.
    + apply Z.leb_le in H.
      assert (PEA := pow10_pos (e + A) H).
      rewrite <- (round_ratio_mul neg (10 ^ (- e)) (M * 10 ^ (e + A)) 1)
        by nia.
      f_equal; [|ring].
      replace A with ((- e) + (e + A))%Z at 1 by lia.
      rewrite Z.pow_add_r by lia. ring.
    + apply Z.leb_gt in H.
      assert (PEA := pow10_pos (- (e + A)) ltac:(lia)).
      rewrite <- (round_ratio_mul neg (10 ^ A) M (10 ^ (- (e + A))))
        by assumption.
      f_equal; [ring|].
      rewrite <- Z.pow_add_r by lia. f_equal. lia.
Qed.

Lemma round_ratio_sign (neg : bool) (p q : Z) :
  round_ratio neg p q = set_sign neg (round_ratio false p q).
Proof.
  unfold round_ratio.
  repeat match goal with
         | |- context [if ?c then _ else _] => destruct c
         end; reflexivity.
Qed.

Lemma of_decimal_sign (neg : bool) (m : N) (e : Z) :
  of_decimal neg m e = set_sign neg (of_decimal false m e).
Proof.
  unfold of_decimal. destruct (N.eqb m 0); [reflexivity|].
  destruct (0 <=? e)%Z; apply round_ratio_sign.
Qed.

(** ** The digits printed for a value read back as the value *)

Lemma same_number_eq (a b : number) : same_number a b = true -> a = b.
Proof.
  destruct a as [|s|s m e], b as [|t|t n f]; try discriminate; simpl.
  - reflexivity.
  - intro H. apply Bool.eqb_prop in H. subst. reflexivity.
  - intro H. apply andb_true_iff in H as [H H3].
    apply andb_true_iff in H as [H1 H2].
    apply Bool.eqb_prop in H1. apply N.eqb_eq in H2. apply Z.eqb_eq in H3.
    subst. reflexivity.
Qed.

Lemma candidate_floor_or_next (m : N) (e q : Z) (s : N) :
  candidate m e q = Some s ->
  s = decimal_floor m e q \/ s = (decimal_floor m e q + 1)%N.
Proof.
  unfold candidate.
  repeat match goal with
         | |- context [if ?c then _ else _] => destruct c
         | |- context [match ?c with _ => _ end] => destruct c
         end; intro H; try discriminate; injection H as <-; auto.
Qed.

Lemma candidate_sound (m : N) (e q : Z) (s : N) :
  candidate m e q = Some s ->
  s <> 0%N /\ of_decimal false s q = Fin false m e.
Proof.
  unfold candidate.
  set (s0 := decimal_floor m e q).
  destruct (negb (N.eqb s0 0)) eqn:Hz; cbn [andb].
  - apply negb_true_iff, N.eqb_neq in Hz.
    destruct (same_number (of_decimal false s0 q) (Fin false m e)) eqn:H0;
      destruct (same_number (of_decimal false (s0 + 1) q) (Fin false m e))
        eqn:H1;
      repeat match goal with
             | |- context [if ?c then _ else _] => destruct c
             | |- context [match ?c with _ => _ end] => destruct c
             end; intro H; try discriminate; injection H as <-;
      (split; [lia|apply same_number_eq; assumption]).
  - destruct (same_number (of_decimal false (s0 + 1) q) (Fin false m e))
      eqn:H1; intro H; try discriminate. injection H as <-.
    split; [lia|apply same_number_eq; assumption].
Qed.

Lemma shortest_from_result (fuel : nat) (m : N) (e q : Z) (s : N) (q' : Z) :
  shortest_from fuel m e q = (s, q') ->
  (q - Z.of_nat fuel <= q' <= q)%Z
  /\ (candidate m e q' = Some s
      \/ (q' = (q - Z.of_nat fuel)%Z /\ s = decimal_floor m e q')).
Proof.
  revert q. induction fuel as [|fuel IH]; intros q; cbn [shortest_from].
  - intro H. injection H as <- <-. split; [lia|]. right. split; [lia|reflexivity].
  - destruct (candidate m e q) as [s0|] eqn:Hc.
    + intro H. injection H as <- <-. split; [lia|]. left. exact Hc.
    + intro H. destruct (IH _ H) as [Hr Hs]. split; [lia|].
      destruct Hs as [Hs|[Hq Hs]]; [left; exact Hs|right].
      split; [lia|exact Hs].
Qed.

(** The decimal expansion of a binary64 value. *)
Lemma expansion_sound (m : N) (e : Z) :
  m <> 0%N -> is_binary64 (Fin false m e) = true ->
  decimal_floor m e (Z.min e 0) <> 0%N
  /\ of_decimal false (decimal_floor m e (Z.min e 0)) (Z.min e 0)
     = Fin false m e.
Proof.
  intros Hm Hb. assert (HM : (0 < Z.of_N m)%Z) by lia.
  unfold decimal_floor, decimal_num, decimal_den.
  destruct (Z_le_gt_dec 0 e) as [He|He].
  - rewrite Z.min_r by lia. cbn [Z.opp Z.max Z.pow].
    rewrite (scale_down 1 (- e)) by lia. rewrite (scale_up _ e) by lia.
    rewrite !Z.mul_1_r, Z.div_1_r.
    assert (P : (0 < Z.of_N m * 2 ^ e)%Z).
    { apply Z.mul_pos_pos; [exact HM|apply Z.pow_pos_nonneg; lia]. }
    split; [lia|].
    unfold of_decimal.
    assert (Hnz : N.eqb (Z.to_N (Z.of_N m * 2 ^ e)) 0 = false)
      by (apply N.eqb_neq; lia).
    rewrite Hnz. cbn [Z.leb Z.compare Z.pow]. rewrite Z2N.id by lia.
    rewrite Z.mul_1_r.
    rewrite <- (round_ratio_exact false m e Hm Hb).
    rewrite (scale_up _ e), (scale_down 1 (- e)) by lia. reflexivity.
  - rewrite Z.min_l by lia.
    rewrite (scale_down _ e) by lia. rewrite (scale_up 1 (- e)) by lia.
    rewrite Z.max_r by lia. rewrite (Z.max_l 0 e) by lia.
    rewrite Z.mul_1_l, Z.pow_0_r, Z.mul_1_r.
    assert (H10 : (10 ^ (- e) = 2 ^ (- e) * 5 ^ (- e))%Z).
    { rewrite <- Z.pow_mul_l. reflexivity. }
    assert (P2 : (0 < 2 ^ (- e))%Z) by (apply Z.pow_pos_nonneg; lia).
    assert (P5 : (0 < 5 ^ (- e))%Z) by (apply Z.pow_pos_nonneg; lia).
    rewrite H10.
    replace (Z.of_N m * (2 ^ (- e) * 5 ^ (- e)))%Z
      with (Z.of_N m * 5 ^ (- e) * 2 ^ (- e))%Z by ring.
    rewrite Z.div_mul by lia.
    assert (P : (0 < Z.of_N m * 5 ^ (- e))%Z) by (apply Z.mul_pos_pos; lia).
    split; [lia|].
    unfold of_decimal.
    assert (Hnz : N.eqb (Z.to_N (Z.of_N m * 5 ^ (- e))) 0 = false)
      by (apply N.eqb_neq; lia).
    rewrite Hnz.
    assert (Hneg : (0 <=? e)%Z = false) by (apply Z.leb_gt; lia).
    rewrite Hneg. rewrite Z2N.id by lia. rewrite H10.
    replace (Z.of_N m * 5 ^ (- e))%Z with (5 ^ (- e) * Z.of_N m)%Z by ring.
    replace (2 ^ (- e) * 5 ^ (- e))%Z with (5 ^ (- e) * 2 ^ (- e))%Z by ring.
    rewrite round_ratio_mul by lia.
    rewrite <- (round_ratio_exact false m e Hm Hb).
    rewrite (scale_down _ e), (scale_up 1 (- e)) by lia.
    rewrite Z.mul_1_l. reflexivity.
Qed.

Lemma shortest_sound (m : N) (e : Z) (s : N) (q : Z) :
  m <> 0%N -> is_binary64 (Fin false m e) = true ->
  shortest m e = (s, q) ->
  s <> 0%N /\ of_decimal false s q = Fin false m e.
Proof.
  intros Hm Hb. unfold shortest. intro H.
  apply shortest_from_result in H as [_ [H|[Hq Hs]]].
  - apply (candidate_sound m e q s H).
  - assert (Hlo : q = Z.min e 0).
    { rewrite Hq. lia. }
    subst s. rewrite Hlo. apply expansion_sound; assumption.
Qed.

(** ** Decimal digits *)

Ltac digit_value :=
  match goal with
  | |- context [digit_val ?c] =>
      let v := eval vm_compute in (digit_val c) in
      change (digit_val c) with v
  end.

Lemma fold_digits_acc (d : Decimal.uint) (p : positive) :
  fold_left (fun acc c => acc * 10 + digit_val c)%N
    (chars (NilEmpty.string_of_uint d)) (N.pos p)
  = N.pos (Pos.of_uint_acc d p).
Proof.
  revert p. induction d; intro p; [reflexivity|..];
    unfold chars;
    cbn [NilEmpty.string_of_uint list_ascii_of_string fold_left
         Pos.of_uint_acc];
    fold (chars (NilEmpty.string_of_uint d));
    rewrite <- IHd; f_equal; digit_value; lia.
Qed.

Lemma fold_digits (d : Decimal.uint) :
  digits_val (chars (NilEmpty.string_of_uint d)) = Pos.of_uint d.
Proof.
  unfold digits_val. induction d; [reflexivity|..];
    unfold chars;
    cbn [NilEmpty.string_of_uint list_ascii_of_string fold_left Pos.of_uint];
    fold (chars (NilEmpty.string_of_uint d));
    digit_value; cbn [N.mul N.add]; try exact IHd;
    apply fold_digits_acc.
Qed.

Lemma digits_val_N_digits (n : N) : digits_val (N_digits n) = n.
Proof.
  unfold N_digits. rewrite fold_digits.
  apply DecimalN.Unsigned.of_to.
Qed.

Lemma string_digits (d : Decimal.uint) :
  forallb is_digit (chars (NilEmpty.string_of_uint d)) = true.
Proof.
  induction d; [reflexivity|..]; exact IHd.
Qed.

Lemma N_digits_digits (n : N) : forallb is_digit (N_digits n) = true.
Proof. apply string_digits. Qed.

Lemma N_digits_nonempty (n : N) : N_digits n <> [].
Proof.
  intro H. assert (Hv := digits_val_N_digits n). rewrite H in Hv.
  cbn in Hv. subst n. discriminate H.
Qed.

Lemma take_while_all (p : ascii -> bool) (l : list ascii) :
  forallb p l = true -> take_while p l = l.
Proof.
  induction l as [|c l IH]; simpl; [reflexivity|].
  intro H. apply andb_true_iff in H as [Hc Hl].
  rewrite Hc, (IH Hl). reflexivity.
Qed.

Lemma take_while_stop (p : ascii -> bool) (l : list ascii) (c : ascii)
    (rest : list ascii) :
  forallb p l = true -> p c = false -> take_while p (l ++ c :: rest) = l.
Proof.
  induction l as [|x l IH]; simpl; intros H Hc; [rewrite Hc; reflexivity|].
  apply andb_true_iff in H as [Hx Hl]. rewrite Hx, (IH Hl Hc). reflexivity.
Qed.

Lemma digit_range (c : ascii) :
  is_digit c = true <-> (48 <= code c <= 57)%N.
Proof.
  unfold is_digit. rewrite andb_true_iff, !N.leb_le. reflexivity.
Qed.

Lemma code_inj (a b : ascii) : code a = code b -> a = b.
Proof.
  unfold code. intro H.
  rewrite <- (ascii_N_embedding a), <- (ascii_N_embedding b), H.
  reflexivity.
Qed.

Lemma digit_not (c x : ascii) :
  is_digit c = true -> is_digit x = false -> Ascii.eqb c x = false.
Proof.
  intros Hc Hx. apply Ascii.eqb_neq. intros ->. congruence.
Qed.

Lemma digit_not_space (c : ascii) : is_digit c = true -> is_space c = false.
Proof.
  rewrite digit_range. unfold is_space. intro H.
  repeat (apply orb_false_intro); try (apply andb_false_iff);
    rewrite ?N.leb_gt, ?N.eqb_neq; lia.
Qed.

Lemma zero_char (c : ascii) : is_zero_char c = true -> c = "0"%char.
Proof.
  unfold is_zero_char. rewrite N.eqb_eq. intro H. apply code_inj. exact H.
Qed.

Lemma drop_zeros_length (r : list ascii) :
  (List.length (drop_while is_zero_char r) <= List.length r)%nat.
Proof.
  induction r as [|c r IH]; simpl; [lia|].
  destruct (is_zero_char c); simpl; lia.
Qed.

Lemma drop_zeros_restore (r : list ascii) :
  zeros (List.length r - List.length (drop_while is_zero_char r))
  ++ drop_while is_zero_char r = r.
Proof.
  induction r as [|c r IH]; [reflexivity|].
  cbn [drop_while]. destruct (is_zero_char c) eqn:Hc.
  - assert (Hle := drop_zeros_length r).
    replace (List.length (c :: r) - List.length (drop_while is_zero_char r))%nat
      with (S (List.length r - List.length (drop_while is_zero_char r)))
      by (cbn [List.length]; lia).
    unfold zeros in *. cbn [repeat app]. rewrite IH.
    rewrite (zero_char c Hc). reflexivity.
  - rewrite Nat.sub_diag. reflexivity.
Qed.

Lemma rev_zeros (k : nat) : rev (zeros k) = zeros k.
Proof.
  unfold zeros. induction k as [|k IH]; [reflexivity|].
  simpl. rewrite IH. symmetry. apply repeat_cons.
Qed.

(** Stripping the trailing zeros of a numeral and writing them back. *)
Lemma strip_restore (l : list ascii) :
  rev (drop_while is_zero_char (rev l))
  ++ zeros (List.length l
            - List.length (rev (drop_while is_zero_char (rev l))))
  = l.
Proof.
  assert (H := drop_zeros_restore (rev l)).
  apply (f_equal (@rev ascii)) in H.
  rewrite rev_app_distr, rev_zeros, rev_involutive, length_rev in H.
  rewrite length_rev. exact H.
Qed.

Lemma chars_text (l : list ascii) : chars (text l) = l.
Proof. apply list_ascii_of_string_of_list_ascii. Qed.

Lemma skipn_length_app (l rest : list ascii) :
  skipn (List.length l) (l ++ rest) = rest.
Proof.
  induction l as [|x l IH]; simpl; [reflexivity|exact IH].
Qed.

Lemma digits_val_zeros (j : nat) (l : list ascii) :
  digits_val (zeros j ++ l) = digits_val l.
Proof.
  unfold digits_val, zeros. induction j as [|j IH]; [reflexivity|].
  cbn [repeat app fold_left]. exact IH.
Qed.

Lemma zeros_digits (j : nat) : forallb is_digit (zeros j) = true.
Proof.
  unfold zeros. induction j as [|j IH]; [reflexivity|]. simpl. exact IH.
Qed.

Lemma forallb_firstn (p : ascii -> bool) (k : nat) (l : list ascii) :
  forallb p l = true -> forallb p (firstn k l) = true.
Proof.
  revert k. induction l as [|x l IH]; intros [|k] H; simpl; try reflexivity.
  simpl in H. apply andb_true_iff in H as [Hx Hl].
  rewrite Hx, (IH k Hl). reflexivity.
Qed.

Lemma forallb_skipn (p : ascii -> bool) (k : nat) (l : list ascii) :
  forallb p l = true -> forallb p (skipn k l) = true.
Proof.
  revert k. induction l as [|x l IH]; intros [|k] H; simpl; try reflexivity;
    [exact H|].
  simpl in H. apply andb_true_iff in H as [_ Hl]. apply IH, Hl.
Qed.

Lemma digits_val_app (l1 l2 : list ascii) :
  digits_val (l1 ++ l2)
  = fold_left (fun acc c => acc * 10 + digit_val c)%N l2 (digits_val l1).
Proof. unfold digits_val. apply fold_left_app. Qed.

Lemma fold_zeros (j : nat) (a : N) :
  fold_left (fun acc c => acc * 10 + digit_val c)%N (zeros j) a
  = (a * 10 ^ N.of_nat j)%N.
Proof.
  revert a. unfold zeros. induction j as [|j IH]; intro a.
  - simpl. lia.
  - cbn [repeat fold_left]. rewrite IH.
    change (digit_val "0") with 0%N.
    rewrite Nat2N.inj_succ, N.pow_succ_r'. lia.
Qed.

Lemma digits_val_app_zeros (l : list ascii) (j : nat) :
  digits_val (l ++ zeros j) = (digits_val l * 10 ^ N.of_nat j)%N.
Proof. rewrite digits_val_app. apply fold_zeros. Qed.

(** *** A numeral without its trailing zeros *)

Lemma strip_length (l : list ascii) :
  (List.length (rev (drop_while is_zero_char (rev l))) <= List.length l)%nat.
Proof.
  rewrite length_rev. assert (H := drop_zeros_length (rev l)).
  rewrite length_rev in H. exact H.
Qed.

Lemma strip_digits (l : list ascii) :
  forallb is_digit l = true ->
  forallb is_digit (rev (drop_while is_zero_char (rev l))) = true.
Proof.
  intro H. rewrite <- (strip_restore l), forallb_app in H.
  apply andb_true_iff in H. apply H.
Qed.

Lemma strip_value (l : list ascii) :
  digits_val l
  = (digits_val (rev (drop_while is_zero_char (rev l)))
     * 10 ^ N.of_nat (List.length l
                      - List.length (rev (drop_while is_zero_char (rev l)))))%N.
Proof.
  rewrite <- digits_val_app_zeros. rewrite strip_restore. reflexivity.
Qed.

Lemma strip_nonempty (l : list ascii) :
  digits_val l <> 0%N -> rev (drop_while is_zero_char (rev l)) <> [].
Proof.
  intros H Hnil. apply H. rewrite strip_value, Hnil. reflexivity.
Qed.

(** *** Reading what was printed *)

Lemma take_while_ends (l rest : list ascii) :
  forallb is_digit l = true -> ends_digits rest ->
  take_while is_digit (l ++ rest) = l.
Proof.
  intros Hl Hr. destruct rest as [|c r].
  - rewrite app_nil_r. apply take_while_all, Hl.
  - apply take_while_stop; [exact Hl|apply Hr].
Qed.

Lemma not_infinity (c : ascii) (l : list ascii) :
  is_digit c = true -> starts_with (chars "Infinity") (c :: l) = false.
Proof.
  intro Hc. cbn [chars list_ascii_of_string starts_with].
  rewrite (Ascii.eqb_sym "I" c), (digit_not c "I" Hc eq_refl). reflexivity.
Qed.

Lemma read_unsigned_digits (neg : bool) (ip rest : list ascii) :
  ip <> [] -> forallb is_digit ip = true -> ends_digits rest ->
  read_unsigned neg (ip ++ rest)
  = of_decimal neg (digits_val ip) (read_exponent rest).
Proof.
  intros Hne Hip Hrest. destruct ip as [|c ip']; [contradiction|].
  assert (Hc : is_digit c = true).
  { simpl in Hip. apply andb_true_iff in Hip. apply Hip. }
  unfold read_unsigned.
  change ((c :: ip') ++ rest) with (c :: (ip' ++ rest)).
  rewrite (not_infinity c _ Hc).
  change (c :: (ip' ++ rest)) with ((c :: ip') ++ rest).
  rewrite (take_while_ends _ _ Hip Hrest), skipn_length_app.
  destruct rest as [|x r]; [reflexivity|].
  destruct Hrest as [_ Hx].
  destruct x as [[] [] [] [] [] [] [] []]; try discriminate Hx; reflexivity.
Qed.

Lemma read_unsigned_point (neg : bool) (ip fp rest : list ascii) :
  ip <> [] -> forallb is_digit ip = true -> forallb is_digit fp = true ->
  ends_digits rest ->
  read_unsigned neg (ip ++ "."%char :: fp ++ rest)
  = of_decimal neg (digits_val (ip ++ fp))
      (read_exponent rest - Z.of_nat (List.length fp)).
Proof.
  intros Hne Hip Hfp Hrest. destruct ip as [|c ip']; [contradiction|].
  assert (Hc : is_digit c = true).
  { simpl in Hip. apply andb_true_iff in Hip. apply Hip. }
  unfold read_unsigned.
  change ((c :: ip') ++ "."%char :: fp ++ rest)
    with (c :: (ip' ++ "."%char :: fp ++ rest)).
  rewrite (not_infinity c _ Hc).
  change (c :: (ip' ++ "."%char :: fp ++ rest))
    with ((c :: ip') ++ "."%char :: fp ++ rest).
  rewrite (take_while_stop is_digit (c :: ip') "." (fp ++ rest) Hip eq_refl).
  rewrite skipn_length_app.
  rewrite (take_while_ends _ _ Hfp Hrest), skipn_length_app.
  reflexivity.
Qed.

Lemma read_exponent_part (n : Z) : read_exponent (exponent_part n) = (n - 1)%Z.
Proof.
  unfold exponent_part, read_exponent.
  change (is_exp_char "e") with true. cbv iota.
  assert (Hd := N_digits_digits (Z.abs_N (n - 1))).
  assert (Hv := digits_val_N_digits (Z.abs_N (n - 1))).
  assert (Hne := N_digits_nonempty (Z.abs_N (n - 1))).
  destruct (n - 1 <? 0)%Z eqn:Hn.
  - apply Z.ltb_lt in Hn. rewrite (take_while_all _ _ Hd).
    destruct (N_digits (Z.abs_N (n - 1))) as [|c l] eqn:Hl; [contradiction|].
    rewrite Hv. lia.
  - apply Z.ltb_ge in Hn. rewrite (take_while_all _ _ Hd), Hv. lia.
Qed.

Lemma exponent_part_ends (n : Z) : ends_digits (exponent_part n).
Proof. split; reflexivity. Qed.

(** Reading the text of [s * 10^q] gives the Number value of [s * 10^q]. *)
Lemma read_printed (neg : bool) (s : N) (q : Z) :
  s <> 0%N ->
  read_unsigned neg (positive_to_chars s q) = of_decimal neg s q.
Proof.
  intro Hs. unfold positive_to_chars.
  set (all := N_digits s).
  assert (Hall : forallb is_digit all = true) by apply N_digits_digits.
  assert (Hval : digits_val all = s) by apply digits_val_N_digits.
  set (st := rev (drop_while is_zero_char (rev all))).
  assert (Hst : forallb is_digit st = true) by (apply strip_digits, Hall).
  assert (Hne : st <> []) by (apply strip_nonempty; rewrite Hval; exact Hs).
  assert (Hlen : (List.length st <= List.length all)%nat) by apply strip_length.
  assert (Hsv := strip_value all). fold st in Hsv. rewrite Hval in Hsv.
  set (k := List.length st) in *. set (a := List.length all) in *.
  assert (Hk : (0 < k)%nat).
  { unfold k. destruct st; [contradiction|simpl; lia]. }
  assert (Hnz : digits_val st <> 0%N).
  { intro H0. rewrite H0 in Hsv. apply Hs. rewrite Hsv. reflexivity. }
  assert (Htarget : of_decimal neg s q
                    = of_decimal neg (digits_val st)
                        (Z.of_nat a + q - Z.of_nat k)).
  { rewrite Hsv at 1. rewrite (of_decimal_shift neg _ _ q Hnz).
    f_equal. lia. }
  rewrite Htarget.
  destruct (Z.of_nat k <=? Z.of_nat a + q)%Z eqn:G1.
  - apply Z.leb_le in G1.
    destruct (Z.of_nat a + q <=? 21)%Z eqn:G2; cbn [andb].
    + (* digits followed by zeros *)
      rewrite <- (app_nil_r (st ++ zeros _)).
      rewrite read_unsigned_digits.
      * rewrite digits_val_app_zeros. cbn [read_exponent].
        rewrite (of_decimal_shift neg _ _ 0 Hnz). f_equal. lia.
      * intro H. apply app_eq_nil in H as [H _]. contradiction.
      * rewrite forallb_app, Hst, zeros_digits. reflexivity.
      * exact I.
    + assert (G3 : (0 <? Z.of_nat a + q)%Z = true) by (apply Z.ltb_lt; lia).
      rewrite G3. cbn [andb].
      assert (G4 : (-6 <? Z.of_nat a + q)%Z = true) by (apply Z.ltb_lt; lia).
      assert (G5 : (Z.of_nat a + q <=? 0)%Z = false) by (apply Z.leb_gt; lia).
      rewrite G4, G5. cbn [andb].
      (* an exponent *)
      destruct st as [|d ds] eqn:Est; [contradiction|].
      assert (Hd : is_digit d = true).
      { simpl in Hst. apply andb_true_iff in Hst. apply Hst. }
      assert (Hds : forallb is_digit ds = true).
      { simpl in Hst. apply andb_true_iff in Hst. apply Hst. }
      destruct ds as [|d' ds'].
      * change (d :: exponent_part (Z.of_nat a + q))
          with ([d] ++ exponent_part (Z.of_nat a + q)).
        rewrite read_unsigned_digits;
          [|discriminate|simpl; rewrite Hd; reflexivity
           |apply exponent_part_ends].
        rewrite read_exponent_part. f_equal; try (unfold k; cbn [List.length]; lia).
      * change (d :: "."%char :: (d' :: ds') ++ exponent_part (Z.of_nat a + q))
          with ([d] ++ "."%char :: (d' :: ds')
                  ++ exponent_part (Z.of_nat a + q)).
        rewrite read_unsigned_point;
          [|discriminate|simpl; rewrite Hd; reflexivity|exact Hds
           |apply exponent_part_ends].
        rewrite read_exponent_part. f_equal; try (unfold k; cbn [List.length]; lia).
  - apply Z.leb_gt in G1. cbn [andb].
    destruct (0 <? Z.of_nat a + q)%Z eqn:G2.
    + apply Z.ltb_lt in G2.
      destruct (Z.of_nat a + q <=? 21)%Z eqn:G3; cbn [andb].
      * (* a point inside the digits *)
        apply Z.leb_le in G3.
        set (j := Z.to_nat (Z.of_nat a + q)).
        assert (Hj : (0 < j < k)%nat) by (unfold j; lia).
        rewrite <- (app_nil_r (skipn j st)).
        rewrite read_unsigned_point.
        -- rewrite firstn_skipn. cbn [read_exponent].
           f_equal. rewrite length_skipn. fold k. unfold j. lia.
        -- intro Hnil. apply (f_equal (@List.length ascii)) in Hnil.
           rewrite length_firstn in Hnil. fold k in Hnil. simpl in Hnil. lia.
        -- apply forallb_firstn, Hst.
        -- apply forallb_skipn, Hst.
        -- exact I.
      * assert (G4 : (-6 <? Z.of_nat a + q)%Z = true) by (apply Z.ltb_lt; lia).
        assert (G5 : (Z.of_nat a + q <=? 0)%Z = false) by (apply Z.leb_gt; lia).
        rewrite G4, G5. cbn [andb].
        apply Z.leb_gt in G3.
        destruct st as [|d ds] eqn:Est; [contradiction|].
        assert (Hd : is_digit d = true).
        { simpl in Hst. apply andb_true_iff in Hst. apply Hst. }
        assert (Hds : forallb is_digit ds = true).
        { simpl in Hst. apply andb_true_iff in Hst. apply Hst. }
        destruct ds as [|d' ds'].
        -- change (d :: exponent_part (Z.of_nat a + q))
             with ([d] ++ exponent_part (Z.of_nat a + q)).
           rewrite read_unsigned_digits;
             [|discriminate|simpl; rewrite Hd; reflexivity
              |apply exponent_part_ends].
           rewrite read_exponent_part. f_equal; try (unfold k; cbn [List.length]; lia).
        -- change (d :: "."%char :: (d' :: ds')
                      ++ exponent_part (Z.of_nat a + q))
             with ([d] ++ "."%char :: (d' :: ds')
                     ++ exponent_part (Z.of_nat a + q)).
           rewrite read_unsigned_point;
             [|discriminate|simpl; rewrite Hd; reflexivity|exact Hds
              |apply exponent_part_ends].
           rewrite read_exponent_part. f_equal; try (unfold k; cbn [List.length]; lia).
    + apply Z.ltb_ge in G2. cbn [andb].
      destruct (-6 <? Z.of_nat a + q)%Z eqn:G3.
      * (* zeros after the point *)
        assert (G4 : (Z.of_nat a + q <=? 0)%Z = true) by (apply Z.leb_le; lia).
        rewrite G4. cbn [andb].
        change ("0"%char :: "."%char
                  :: zeros (Z.to_nat (- (Z.of_nat a + q))) ++ st)
          with (["0"%char] ++ "."%char
                  :: (zeros (Z.to_nat (- (Z.of_nat a + q))) ++ st)).
        rewrite <- (app_nil_r (zeros _ ++ st)).
        rewrite read_unsigned_point.
        -- change (["0"%char] ++ zeros (Z.to_nat (- (Z.of_nat a + q))) ++ st)
             with (zeros (S (Z.to_nat (- (Z.of_nat a + q)))) ++ st).
           rewrite digits_val_zeros. cbn [read_exponent].
           f_equal. rewrite length_app. fold k.
           unfold zeros. rewrite repeat_length. lia.
        -- discriminate.
        -- reflexivity.
        -- rewrite forallb_app, zeros_digits, Hst. reflexivity.
        -- exact I.
      * cbn [andb].
        destruct st as [|d ds] eqn:Est; [contradiction|].
        assert (Hd : is_digit d = true).
        { simpl in Hst. apply andb_true_iff in Hst. apply Hst. }
        assert (Hds : forallb is_digit ds = true).
        { simpl in Hst. apply andb_true_iff in Hst. apply Hst. }
        destruct ds as [|d' ds'].
        -- change (d :: exponent_part (Z.of_nat a + q))
             with ([d] ++ exponent_part (Z.of_nat a + q)).
           rewrite read_unsigned_digits;
             [|discriminate|simpl; rewrite Hd; reflexivity
              |apply exponent_part_ends].
           rewrite read_exponent_part. f_equal; try (unfold k; cbn [List.length]; lia).
        -- change (d :: "."%char :: (d' :: ds')
                      ++ exponent_part (Z.of_nat a + q))
             with ([d] ++ "."%char :: (d' :: ds')
                     ++ exponent_part (Z.of_nat a + q)).
           rewrite read_unsigned_point;
             [|discriminate|simpl; rewrite Hd; reflexivity|exact Hds
              |apply exponent_part_ends].
           rewrite read_exponent_part. f_equal; try (unfold k; cbn [List.length]; lia).
Qed.

(** *** The length of a numeral *)

Lemma to_uint_normal (p : positive) :
  Decimal.unorm (Pos.to_uint p) = Pos.to_uint p.
Proof.
  rewrite <- (DecimalPos.Unsigned.to_of (Pos.to_uint p)).
  rewrite DecimalPos.Unsigned.of_to. reflexivity.
Qed.

Lemma to_uint_head (p : positive) :
  match Pos.to_uint p with
  | Decimal.Nil | Decimal.D0 _ => False
  | _ => True
  end.
Proof.
  assert (Hn := to_uint_normal p).
  assert (Hnil := DecimalPos.Unsigned.to_uint_nonnil p).
  assert (Hz := DecimalPos.Unsigned.to_uint_nonzero p).
  destruct (Pos.to_uint p) as [|u| | | | | | | | |]; try exact I;
    [contradiction|].
  rewrite DecimalFacts.unorm_D0 in Hn.
  destruct u as [|u'| | | | | | | | |] eqn:Hu; [contradiction| | | | | | | | | |];
    (assert (Hlen := DecimalFacts.nb_digits_unorm u); rewrite Hu in Hlen;
     rewrite Hn in Hlen; simpl in Hlen;
     specialize (Hlen ltac:(discriminate)); lia).
Qed.

Lemma fold_digits_lower (l : list ascii) (a : N) :
  (a * 10 ^ N.of_nat (List.length l)
   <= fold_left (fun acc c => acc * 10 + digit_val c) l a)%N.
Proof.
  revert a. induction l as [|c l IH]; intro a.
  - simpl. lia.
  - cbn [List.length fold_left]. rewrite Nat2N.inj_succ, N.pow_succ_r'.
    eapply N.le_trans; [|apply IH].
    rewrite N.mul_assoc. apply N.mul_le_mono_r. lia.
Qed.

(** A numeral of [k] digits writes a number from [10^(k-1)] on. *)
Lemma numeral_lower_bound (s : N) :
  s <> 0%N -> (10 ^ N.of_nat (List.length (N_digits s) - 1) <= s)%N.
Proof.
  intro Hs. destruct s as [|p]; [contradiction|].
  assert (Hv := digits_val_N_digits (N.pos p)).
  unfold N_digits in *. cbn [N.to_uint] in *.
  assert (Hh := to_uint_head p).
  destruct (Pos.to_uint p) as [|u|u|u|u|u|u|u|u|u|u]; try contradiction;
    unfold chars in *;
    cbn [NilEmpty.string_of_uint list_ascii_of_string List.length] in *;
    replace (S (List.length (list_ascii_of_string (NilEmpty.string_of_uint u)))
             - 1)%nat
      with (List.length (list_ascii_of_string (NilEmpty.string_of_uint u)))
      by lia;
    rewrite <- Hv; unfold digits_val;
    cbn [fold_left];
    (eapply N.le_trans; [|apply fold_digits_lower]);
    match goal with
    | |- context [digit_val ?c] =>
        let v := eval vm_compute in (digit_val c) in
        change (digit_val c) with v
    end; lia.
Qed.

Lemma numeral_length (s : N) (j : nat) :
  s <> 0%N -> (s < 10 ^ N.of_nat j)%N -> (List.length (N_digits s) <= j)%nat.
Proof.
  intros Hs Hj. assert (H := numeral_lower_bound s Hs).
  destruct (Nat.le_gt_cases (List.length (N_digits s)) j) as [Hle|Hgt];
    [exact Hle|exfalso].
  assert (10 ^ N.of_nat j <= 10 ^ N.of_nat (List.length (N_digits s) - 1))%N.
  { apply N.pow_le_mono_r; lia. }
  lia.
Qed.

(** ** What is read is a binary64 value *)

Lemma round_ratio_binary64 (neg : bool) (p q : Z) :
  (0 < p)%Z -> (0 < q)%Z -> is_binary64 (round_ratio neg p q) = true.
Proof.
  intros Hp Hq. unfold round_ratio.
  destruct (log2_ratio_spec p q Hp Hq) as [B1 B2].
  set (l := log2_ratio p q) in *.
  set (e := Z.max (l - 52) (-1074)).
  assert (He : (l - 52 <= e /\ -1074 <= e)%Z) by (unfold e; lia).
  unfold scale in *.
  set (A := (2 ^ Z.max 0 l)%Z) in *. set (B := (2 ^ Z.max 0 (- l))%Z) in *.
  set (F := (2 ^ Z.max 0 (- e))%Z). set (G := (2 ^ Z.max 0 e)%Z).
  assert (PA : (0 < A)%Z) by (apply Z.pow_pos_nonneg; lia).
  assert (PB : (0 < B)%Z) by (apply Z.pow_pos_nonneg; lia).
  assert (PF : (0 < F)%Z) by (apply Z.pow_pos_nonneg; lia).
  assert (PG : (0 < G)%Z) by (apply Z.pow_pos_nonneg; lia).
  assert (Hden : (0 < q * G)%Z) by (apply Z.mul_pos_pos; assumption).
  assert (Hnum : (0 < p * F)%Z) by (apply Z.mul_pos_pos; assumption).
  assert (HU : (p * F < q * G * 2 ^ 53)%Z).
  { assert (Hx : (2 * (A * F) <= G * 2 ^ 53 * B)%Z).
    { unfold A, B, F, G. rewrite <- !Z.pow_add_r by lia.
      change 2%Z with (2 ^ 1)%Z at 1. rewrite <- Z.pow_add_r by lia.
      apply Z.pow_le_mono_r; lia. }
    assert (E1 : (p * B * F < 2 * (q * A) * F)%Z)
      by (apply Z.mul_lt_mono_pos_r; assumption).
    assert (E2 : (q * (2 * (A * F)) <= q * (G * 2 ^ 53 * B))%Z)
      by (apply Z.mul_le_mono_nonneg_l; lia).
    apply (Z.mul_lt_mono_pos_r B); [exact PB|]. lia. }
  assert (HL : e = (l - 52)%Z -> (q * G * 2 ^ 52 <= p * F)%Z).
  { intro Hel.
    assert (Hx : (G * 2 ^ 52 * B = A * F)%Z).
    { unfold A, B, F, G. rewrite <- !Z.pow_add_r by lia. f_equal. lia. }
    assert (E1 : (q * A * F <= p * B * F)%Z)
      by (apply Z.mul_le_mono_nonneg_r; lia).
    apply (Z.mul_le_mono_pos_r _ _ B); [exact PB|].
    replace (q * G * 2 ^ 52 * B)%Z with (q * (G * 2 ^ 52 * B))%Z by ring.
    rewrite Hx. lia. }
  set (quo := (p * F / (q * G))%Z).
  assert (Q0 : (0 <= quo)%Z) by (apply Z.div_pos; lia).
  assert (Q1 : (quo < 2 ^ 53)%Z).
  { apply Z.div_lt_upper_bound; [exact Hden|]. lia. }
  assert (Q2 : e = (l - 52)%Z -> (2 ^ 52 <= quo)%Z).
  { intro Hel. apply Z.div_le_lower_bound; [exact Hden|].
    specialize (HL Hel). lia. }
  set (m := match (2 * ((p * F) mod (q * G)) ?= q * G)%Z with
            | Lt => quo
            | Gt => (quo + 1)%Z
            | Eq => if Z.even quo then quo else (quo + 1)%Z
            end).
  assert (Hm : (quo <= m <= quo + 1)%Z).
  { unfold m. destruct (_ ?= _)%Z; [destruct (Z.even quo)| |]; lia. }
  destruct (m =? 2 ^ 53)%Z eqn:Hc.
  - change (2 ^ 52 =? 0)%Z with false. cbv iota.
    destruct (e + 1 <=? 971)%Z eqn:H971; [|reflexivity].
    unfold is_binary64.
    change (Z.to_N (2 ^ 52)) with (2 ^ 52)%N.
    change (N.eqb (2 ^ 52) 0) with false. cbv iota.
    change (N.ltb (2 ^ 52) (2 ^ 53)) with true.
    change (N.leb (2 ^ 52) (2 ^ 52)) with true.
    rewrite H971.
    assert (H : (-1074 <=? e + 1)%Z = true) by (apply Z.leb_le; lia).
    rewrite H. reflexivity.
  - apply Z.eqb_neq in Hc.
    destruct (m =? 0)%Z eqn:Hz; [reflexivity|]. apply Z.eqb_neq in Hz.
    destruct (e <=? 971)%Z eqn:H971; [|reflexivity].
    unfold is_binary64.
    assert (H0 : N.eqb (Z.to_N m) 0 = false) by (apply N.eqb_neq; lia).
    assert (H1 : N.ltb (Z.to_N m) (2 ^ 53) = true).
    { apply N.ltb_lt. change (2 ^ 53)%N with (Z.to_N (2 ^ 53)). lia. }
    rewrite H0, H1, H971. cbn [andb].
    destruct (Z.eq_dec e (-1074)) as [H|H].
    + rewrite H. rewrite orb_true_r. reflexivity.
    + assert (Hel : e = (l - 52)%Z) by lia.
      specialize (Q2 Hel).
      assert (H2 : N.leb (2 ^ 52) (Z.to_N m) = true).
      { apply N.leb_le. change (2 ^ 52)%N with (Z.to_N (2 ^ 52)). lia. }
      assert (H3 : (-1074 <=? e)%Z = true) by (apply Z.leb_le; lia).
      rewrite H2, H3. reflexivity.
Qed.

Lemma of_decimal_binary64 (neg : bool) (m : N) (e : Z) :
  is_binary64 (of_decimal neg m e) = true.
Proof.
  unfold of_decimal. destruct (N.eqb m 0) eqn:Hm; [reflexivity|].
  apply N.eqb_neq in Hm.
  destruct (0 <=? e)%Z eqn:He.
  - apply Z.leb_le in He. apply round_ratio_binary64; [|lia].
    apply Z.mul_pos_pos; [lia|apply pow10_pos, He].
  - apply Z.leb_gt in He. apply round_ratio_binary64; [lia|].
    apply pow10_pos. lia.
Qed.

Lemma read_unsigned_binary64 (neg : bool) (l : list ascii) :
  is_binary64 (read_unsigned neg l) = true.
Proof.
  unfold read_unsigned.
  repeat match goal with
         | |- context [match ?x with _ => _ end] => destruct x
         end; try reflexivity; apply of_decimal_binary64.
Qed.

Lemma parseFloat_binary64 (v : jsval) (x : number) :
  parseFloat v = Ok x -> is_binary64 x = true.
Proof.
  unfold parseFloat. destruct (ToString v); cbn [bind]; [|discriminate].
  intro H. injection H as <-. unfold parseFloat_chars.
  repeat match goal with
         | |- context [match ?x with _ => _ end] => destruct x
         end; apply read_unsigned_binary64.
Qed.

Lemma read_int_binary64 (neg : bool) (l : list ascii) :
  is_binary64 (read_int neg l) = true.
Proof.
  unfold read_int.
  repeat match goal with
         | |- context [match ?x with _ => _ end] => destruct x
         end; try reflexivity; apply of_decimal_binary64.
Qed.

Lemma parseInt_binary64 (v : jsval) (x : number) :
  parseInt v = Ok x -> is_binary64 x = true.
Proof.
  unfold parseInt. destruct (ToString v); cbn [bind]; [|discriminate].
  intro H. injection H as <-. unfold parseInt_chars.
  repeat match goal with
         | |- context [match ?x with _ => _ end] => destruct x
         end; apply read_int_binary64.
Qed.

(** ** A number printed and read again *)

Lemma parseFloat_chars_unsigned (c : ascii) (l : list ascii) :
  is_digit c = true ->
  parseFloat_chars (c :: l) = read_unsigned false (c :: l).
Proof.
  intro Hc. unfold parseFloat_chars. cbn [drop_while].
  rewrite (digit_not_space c Hc).
  destruct c as [[] [] [] [] [] [] [] []]; try discriminate Hc; reflexivity.
Qed.

(** What is printed for [s * 10^q] begins with a digit. *)
Lemma printed_head (s : N) (q : Z) :
  s <> 0%N ->
  exists c l, positive_to_chars s q = c :: l /\ is_digit c = true.
Proof.
  intro Hs. unfold positive_to_chars.
  set (all := N_digits s).
  assert (Hall : forallb is_digit all = true) by apply N_digits_digits.
  assert (Hval : digits_val all = s) by apply digits_val_N_digits.
  set (st := rev (drop_while is_zero_char (rev all))).
  assert (Hst : forallb is_digit st = true) by (apply strip_digits, Hall).
  assert (Hne : st <> []) by (apply strip_nonempty; rewrite Hval; exact Hs).
  destruct st as [|d ds]; [contradiction|].
  assert (Hd : is_digit d = true).
  { simpl in Hst. apply andb_true_iff in Hst. apply Hst. }
  set (n := (Z.of_nat (List.length all) + q)%Z).
  destruct ((Z.of_nat (List.length (d :: ds)) <=? n)%Z && (n <=? 21)%Z)%bool;
    [exists d; eexists; split; [reflexivity|exact Hd]|].
  destruct ((0 <? n)%Z && (n <=? 21)%Z)%bool eqn:G.
  { apply andb_true_iff in G as [G _]. apply Z.ltb_lt in G.
    destruct (Z.to_nat n) as [|j] eqn:Hj; [lia|].
    exists d. eexists. split; [reflexivity|exact Hd]. }
  destruct ((-6 <? n)%Z && (n <=? 0)%Z)%bool;
    [exists "0"%char; eexists; split; reflexivity|].
  destruct ds; exists d; eexists; (split; [reflexivity|exact Hd]).
Qed.

Lemma parseFloat_printed (neg : bool) (s : N) (q : Z) :
  s <> 0%N ->
  parseFloat_chars ((if neg then ["-"%char] else []) ++ positive_to_chars s q)
  = of_decimal neg s q.
Proof.
  intro Hs. destruct neg; cbn [app].
  - unfold parseFloat_chars. cbn [drop_while].
    change (is_space "-") with false. cbv iota.
    apply read_printed, Hs.
  - destruct (printed_head s q Hs) as (c & l & Hl & Hc).
    rewrite <- (read_printed false s q Hs). rewrite Hl.
    apply parseFloat_chars_unsigned, Hc.
Qed.

(** [parseFloat] of a Number is that Number; [-0] is printed as ["0"] and
    comes back as [0]. *)
Lemma parseFloat_number (x : number) :
  is_binary64 x = true ->
  parseFloat (VNum x)
  = Ok (match x with
        | Fin true 0%N _ => Fin false 0 0
        | _ => x
        end).
Proof.
  intro Hb. unfold parseFloat. cbn [ToString bind]. f_equal.
  destruct x as [|[]|neg m e]; try reflexivity.
  unfold Number_toString.
  destruct (N.eqb m 0) eqn:Hm.
  - apply N.eqb_eq in Hm. subst m. simpl in Hb. apply Z.eqb_eq in Hb. subst e.
    destruct neg; reflexivity.
  - apply N.eqb_neq in Hm.
    destruct (shortest m e) as [s q] eqn:Hsh.
    assert (Hb' : is_binary64 (Fin false m e) = true) by exact Hb.
    destruct (shortest_sound m e s q Hm Hb' Hsh) as [Hs Hv].
    rewrite chars_text, (parseFloat_printed neg s q Hs).
    rewrite of_decimal_sign, Hv. cbn [set_sign].
    destruct neg, m; try reflexivity. contradiction.
Qed.

(** ** An integer printed and read again *)

(** A numeral without sign is read by [read_int] without change. *)
Lemma parseInt_chars_unsigned (c : ascii) (l : list ascii) :
  is_digit c = true -> parseInt_chars (c :: l) = read_int false (c :: l).
Proof.
  intro Hc. unfold parseInt_chars. cbn [drop_while].
  rewrite (digit_not_space c Hc).
  destruct (Ascii.eqb c "-") eqn:Hm.
  { apply Ascii.eqb_eq in Hm. subst c. discriminate Hc. }
  destruct (Ascii.eqb c "+") eqn:Hp.
  { apply Ascii.eqb_eq in Hp. subst c. discriminate Hc. }
  destruct c as [[] [] [] [] [] [] [] []]; try discriminate Hc;
    try discriminate Hm; try discriminate Hp; reflexivity.
Qed.

Lemma read_int_digits (neg : bool) (c : ascii) (l : list ascii) :
  is_digit c = true -> forallb is_digit l = true ->
  read_int neg (c :: l) = of_decimal neg (digits_val (c :: l)) 0.
Proof.
  intros Hc Hl.
  assert (Hall : take_while is_digit (c :: l) = c :: l).
  { apply take_while_all. simpl. rewrite Hc, Hl. reflexivity. }
  assert (Hdefault :
            match take_while is_digit (c :: l) with
            | [] => NaN
            | d :: ds => of_decimal neg (digits_val (d :: ds)) 0
            end = of_decimal neg (digits_val (c :: l)) 0).
  { rewrite Hall. reflexivity. }
  destruct l as [|x l'].
  - destruct c as [[] [] [] [] [] [] [] []]; try discriminate Hc;
      exact Hdefault.
  - assert (Hx : (Ascii.eqb x "x" || Ascii.eqb x "X")%bool = false).
    { simpl in Hl. apply andb_true_iff in Hl as [Hx _].
      rewrite (digit_not x "x" Hx eq_refl), (digit_not x "X" Hx eq_refl).
      reflexivity. }
    destruct c as [[] [] [] [] [] [] [] []]; try discriminate Hc;
      try exact Hdefault.
    unfold read_int. rewrite Hx, Hall. reflexivity.
Qed.

Lemma parseInt_chars_digits (l : list ascii) :
  l <> [] -> forallb is_digit l = true ->
  parseInt_chars l = of_decimal false (digits_val l) 0.
Proof.
  destruct l as [|c l]; [contradiction|]. intros _ H.
  simpl in H. apply andb_true_iff in H as [Hc Hl].
  rewrite (parseInt_chars_unsigned c l Hc). apply read_int_digits; assumption.
Qed.

Lemma parseInt_numeral (n : N) :
  parseInt (VStr (numeral n)) = Ok (of_decimal false n 0).
Proof.
  unfold parseInt, numeral. cbn [ToString bind]. rewrite chars_text.
  rewrite (parseInt_chars_digits (N_digits n) (N_digits_nonempty n)
             (N_digits_digits n)).
  rewrite digits_val_N_digits. reflexivity.
Qed.

(** An integer of at most 21 digits is printed as digits only. *)
Lemma printed_integer (s : N) (q : Z) :
  s <> 0%N -> (0 <= q)%Z ->
  (Z.of_nat (List.length (N_digits s)) + q <= 21)%Z ->
  parseInt_chars (positive_to_chars s q) = of_decimal false s q.
Proof.
  intros Hs Hq Hlen. unfold positive_to_chars.
  set (all := N_digits s) in *.
  assert (Hall : forallb is_digit all = true) by apply N_digits_digits.
  assert (Hval : digits_val all = s) by apply digits_val_N_digits.
  set (st := rev (drop_while is_zero_char (rev all))).
  assert (Hst : forallb is_digit st = true) by (apply strip_digits, Hall).
  assert (Hne : st <> []) by (apply strip_nonempty; rewrite Hval; exact Hs).
  assert (Hle : (List.length st <= List.length all)%nat) by apply strip_length.
  assert (Hsv := strip_value all). fold st in Hsv. rewrite Hval in Hsv.
  assert (Hnz : digits_val st <> 0%N).
  { intro H0. rewrite H0 in Hsv. apply Hs. rewrite Hsv. reflexivity. }
  assert (G1 : (Z.of_nat (List.length st) <=? Z.of_nat (List.length all) + q)%Z
               = true) by (apply Z.leb_le; lia).
  assert (G2 : (Z.of_nat (List.length all) + q <=? 21)%Z = true)
    by (apply Z.leb_le; lia).
  rewrite G1, G2. cbn [andb].
  rewrite parseInt_chars_digits.
  - assert (Htarget : of_decimal false s q
                      = of_decimal false (digits_val st)
                          (Z.of_nat (List.length all) + q
                           - Z.of_nat (List.length st))).
    { rewrite Hsv at 1. rewrite (of_decimal_shift false _ _ q Hnz).
      f_equal. lia. }
    rewrite Htarget, digits_val_app_zeros.
    rewrite (of_decimal_shift false _ _ 0 Hnz). f_equal. lia.
  - intro H. apply app_eq_nil in H as [H _]. contradiction.
  - rewrite forallb_app, Hst, zeros_digits. reflexivity.
Qed.

Lemma same_number_refl (x : number) : same_number x x = true.
Proof.
  destruct x as [|s|s m e]; simpl; [reflexivity|apply Bool.eqb_reflx|].
  rewrite Bool.eqb_reflx, N.eqb_refl, Z.eqb_refl. reflexivity.
Qed.

(** The search does not pass a place where there is a candidate. *)
Lemma shortest_from_stops (m : N) (e qc : Z) (sc : N) :
  candidate m e qc = Some sc ->
  forall (fuel : nat) (q : Z) (s : N) (q' : Z),
    (qc <= q)%Z ->
    shortest_from fuel m e q = (s, q') -> (qc <= q')%Z.
Proof.
  intros Hc. induction fuel as [|fuel IH]; intros q s q' Hq;
    cbn [shortest_from].
  - intro H. injection H as _ <-. exact Hq.
  - destruct (candidate m e q) as [s0|] eqn:Hcq.
    + intro H. injection H as _ <-. exact Hq.
    + intro H. apply (IH (q - 1)%Z s q'); [|exact H].
      destruct (Z.eq_dec q qc) as [->|Hne]; [congruence|lia].
Qed.

(** The value read from the numeral of an integer below [2^53]. *)
Lemma small_integer_form (n : N) :
  (0 < n < 2 ^ 53)%N ->
  exists m e,
    of_decimal false n 0 = Fin false m e
    /\ m <> 0%N /\ (e <= 0)%Z /\ Z.of_N m = (Z.of_N n * 2 ^ (- e))%Z.
Proof.
  intros [Hn0 Hn]. unfold of_decimal.
  assert (Hz : N.eqb n 0 = false) by (apply N.eqb_neq; lia).
  rewrite Hz. cbn [Z.leb Z.compare Z.pow]. rewrite Z.mul_1_r.
  set (p := Z.of_N n).
  assert (Hp : (0 < p)%Z) by (unfold p; lia).
  assert (Hmax : (p < 2 ^ 53)%Z).
  { unfold p. change (2 ^ 53)%Z with (Z.of_N (2 ^ 53)). lia. }
  unfold round_ratio. rewrite (log2_ratio_integer p Hp).
  set (l := Z.log2 p). set (e := Z.max (l - 52) (-1074)).
  assert (Hl : (0 <= l)%Z) by apply Z.log2_nonneg.
  destruct (Z.log2_spec p Hp) as [Hlo Hhi]. fold l in Hlo, Hhi.
  assert (Hl52 : (l <= 52)%Z).
  { destruct (Z_le_gt_dec l 52) as [H|H]; [exact H|exfalso].
    assert (2 ^ 53 <= 2 ^ l)%Z by (apply Z.pow_le_mono_r; lia). lia. }
  assert (Hel : e = (l - 52)%Z) by (unfold e; lia).
  assert (He : (e <= 0)%Z) by lia.
  rewrite (scale_up p (- e)) by lia. rewrite (scale_down 1 e) by lia.
  rewrite Z.div_1_r, Z.mod_1_r. cbn [Z.mul Z.compare].
  assert (Hm : (p * 2 ^ (- e) < 2 ^ 53)%Z).
  { replace 53%Z with ((l + 1) + (- e))%Z by lia.
    rewrite Z.pow_add_r by lia.
    apply Z.mul_lt_mono_pos_r; [apply Z.pow_pos_nonneg; lia|exact Hhi]. }
  assert (Hpos : (0 < p * 2 ^ (- e))%Z).
  { apply Z.mul_pos_pos; [exact Hp|apply Z.pow_pos_nonneg; lia]. }
  assert (Hne : (p * 2 ^ (- e) =? 2 ^ 53)%Z = false) by (apply Z.eqb_neq; lia).
  assert (Hnz : (p * 2 ^ (- e) =? 0)%Z = false) by (apply Z.eqb_neq; lia).
  assert (H971 : (e <=? 971)%Z = true) by (apply Z.leb_le; lia).
  rewrite Hne, Hnz, H971.
  exists (Z.to_N (p * 2 ^ (- e))), e.
  split; [reflexivity|]. split; [lia|]. split; [exact He|].
  rewrite Z2N.id by lia. reflexivity.
Qed.

Lemma decimal_floor_integer (m : N) (e q : Z) (n : N) :
  (e <= 0)%Z -> (0 <= q)%Z -> Z.of_N m = (Z.of_N n * 2 ^ (- e))%Z ->
  Z.of_N (decimal_floor m e q) = (Z.of_N n / 10 ^ q)%Z.
Proof.
  intros He Hq Hm. unfold decimal_floor, decimal_num, decimal_den.
  rewrite (scale_down _ e) by lia. rewrite (scale_up 1 (- e)) by lia.
  rewrite (Z.max_l 0 (- q)) by lia. rewrite (Z.max_r 0 q) by lia.
  rewrite Z.pow_0_r, Z.mul_1_r, Z.mul_1_l, Hm.
  assert (P2 : (0 < 2 ^ (- e))%Z) by (apply Z.pow_pos_nonneg; lia).
  assert (P10 := pow10_pos q Hq).
  rewrite (Z.mul_comm (Z.of_N n)).
  rewrite Z.div_mul_cancel_l by lia.
  rewrite Z2N.id; [reflexivity|]. apply Z.div_pos; lia.
Qed.

(** [parseInt] of an integer up to [2^53] is that integer. *)
Lemma parseInt_small_integer (n : N) :
  (n <= 2 ^ 53)%N ->
  parseInt (VNum (of_decimal false n 0)) = Ok (of_decimal false n 0).
Proof.
  intro Hmax. unfold parseInt. cbn [ToString bind]. f_equal.
  destruct (N.eq_dec n 0) as [->|Hn0]; [reflexivity|].
  destruct (N.eq_dec n (2 ^ 53)) as [->|Hn53]; [vm_compute; reflexivity|].
  destruct (small_integer_form n ltac:(lia)) as (m & e & Hx & Hm & He & Hme).
  assert (Hb : is_binary64 (Fin false m e) = true).
  { rewrite <- Hx. apply of_decimal_binary64. }
  rewrite Hx. unfold Number_toString.
  assert (Hmz : N.eqb m 0 = false) by (apply N.eqb_neq; exact Hm).
  rewrite Hmz. destruct (shortest m e) as [s q] eqn:Hsh.
  destruct (shortest_sound m e s q Hm Hb Hsh) as [Hs Hv].
  cbn [app]. rewrite chars_text, <- Hv.
  (* the place of the last digit *)
  assert (Hfloor0 : decimal_floor m e 0 = n).
  { apply N2Z.inj. rewrite (decimal_floor_integer m e 0 n He (Z.le_refl 0) Hme).
    apply Z.div_1_r. }
  assert (Hcand : exists sc, candidate m e 0 = Some sc).
  { unfold candidate. rewrite Hfloor0, Hx, same_number_refl.
    apply N.eqb_neq in Hn0. rewrite Hn0. cbn [negb andb].
    repeat match goal with
           | |- context [if ?c then _ else _] => destruct c
           | |- context [match ?c with _ => _ end] => destruct c
           end; eauto. }
  destruct Hcand as [sc Hcand].
  unfold shortest in Hsh. rewrite Hfloor0 in Hsh.
  set (hi := Z.of_nat (List.length (N_digits n))) in *.
  assert (Hhi : (1 <= hi <= 16)%Z).
  { unfold hi. split.
    - assert (H := N_digits_nonempty n).
      destruct (N_digits n); [contradiction|simpl; lia].
    - assert (H := numeral_length n 16 Hn0).
      assert (n < 10 ^ N.of_nat 16)%N.
      { eapply N.le_lt_trans; [exact Hmax|]. vm_compute. reflexivity. }
      specialize (H H0). lia. }
  assert (Hq0 : (0 <= q)%Z).
  { eapply (shortest_from_stops m e 0 sc Hcand _ hi s q); [lia|exact Hsh]. }
  destruct (shortest_from_result _ _ _ _ _ _ Hsh) as [[_ Hqhi] Hres].
  assert (Hsle : (Z.of_N s <= Z.of_N n / 10 ^ q + 1)%Z).
  { rewrite <- (decimal_floor_integer m e q n He Hq0 Hme).
    destruct Hres as [Hc|[_ ->]]; [|lia].
    destruct (candidate_floor_or_next m e q s Hc) as [-> | ->]; lia. }
  apply printed_integer; [exact Hs|exact Hq0|].
  assert (P10 := pow10_pos q Hq0).
  assert (Hbound : (Z.of_N s * 10 ^ q < 10 ^ 21)%Z).
  { assert (Hdiv : (Z.of_N n / 10 ^ q * 10 ^ q <= Z.of_N n)%Z).
    { rewrite Z.mul_comm. apply Z.mul_div_le. exact P10. }
    assert (H53 : (Z.of_N n <= 2 ^ 53)%Z).
    { change (2 ^ 53)%Z with (Z.of_N (2 ^ 53)). lia. }
    assert (H16 : (10 ^ q <= 10 ^ 16)%Z) by (apply Z.pow_le_mono_r; lia).
    assert ((Z.of_N n / 10 ^ q + 1) * 10 ^ q <= 2 ^ 53 + 10 ^ 16)%Z by nia.
    assert (2 ^ 53 + 10 ^ 16 < 10 ^ 21)%Z by (vm_compute; reflexivity).
    nia. }
  assert (Hlen : (List.length (N_digits s) <= Z.to_nat (21 - q))%nat).
  { apply numeral_length; [exact Hs|].
    apply N2Z.inj_lt. rewrite N2Z.inj_pow, nat_N_Z, Z2Nat.id by lia.
    change (Z.of_N 10) with 10%Z.
    apply (Z.mul_lt_mono_pos_r (10 ^ q)); [exact P10|].
    rewrite <- Z.pow_add_r by lia. replace (21 - q + q)%Z with 21%Z by lia.
    exact Hbound. }
  lia.
Qed.
(** ** The claims *)




(** C2.  A payload in which one of [cameraId], [videoId], [item],
    [confidence], [timestamp] is absent or falsy, or in which [timestampSec]
    is undefined, is answered with status 400 and the store is left as it
    was; the empty string, zero, [null] and [false] are falsy.  A payload
    whose [timestampSec] is zero and whose other fields are truthy passes the
    check. *)
Theorem ingestion_rejects_missing_fields (E : env) (b : payload) (w : world) :
  ((falsy b.(p_cameraId) \/ falsy b.(p_videoId) \/ falsy b.(p_item)
    \/ falsy b.(p_confidence) \/ falsy b.(p_timestamp)
    \/ b.(p_timestampSec) = VUndefined) ->
   post_detection E b w = (Ok missing_fields_response, w))
  /\ (forall neg e,
        ToBoolean b.(p_cameraId) = true -> ToBoolean b.(p_videoId) = true ->
        ToBoolean b.(p_item) = true -> ToBoolean b.(p_confidence) = true ->
        ToBoolean b.(p_timestamp) = true ->
        b.(p_timestampSec) = VNum (Fin neg 0 e) ->
        missing_fields b = false
        /\ fst (post_detection E b w) <> Ok missing_fields_response)
  /\ (falsy VUndefined /\ falsy (VStr "") /\ falsy (VNum (Fin false 0 0))
      /\ falsy VNull /\ falsy (VBool false)).
Proof.
  split; [|split].
  - intro H. unfold post_detection.
    assert (Hm : missing_fields b = true).
    { unfold missing_fields, falsy in *.
      destruct H as [H|[H|[H|[H|[H|H]]]]]; rewrite H; simpl;
        rewrite ?orb_true_r; reflexivity. }
    rewrite Hm. reflexivity.
  - intros neg e H1 H2 H3 H4 H5 H6.
    assert (Hm : missing_fields b = false).
    { unfold missing_fields. rewrite H1, H2, H3, H4, H5, H6. reflexivity. }
    split; [exact Hm|].
    unfold post_detection. rewrite Hm.
    destruct (bind _ _); simpl; discriminate.
  - repeat split.
Qed.

Lemma ingestion_rejects_missing_fields_witness :
  post_detection sample_env (with_item (VStr "") sample_payload) sample_world
  = (Ok missing_fields_response, sample_world)
  /\ missing_fields sample_payload = false.
Proof.
  destruct (ingestion_rejects_missing_fields sample_env
              (with_item (VStr "") sample_payload) sample_world) as (H & _ & _).
  destruct (ingestion_rejects_missing_fields sample_env
              sample_payload sample_world) as (_ & H' & _).
  split.
  - apply H. right. right. left. reflexivity.
  - apply (H' false 0%Z); reflexivity.
Defined.

(** C3 fails in [src/index.js]: when [new RegExp] or the store query of
    [GET /search] throws, the [catch] block itself throws a ReferenceError,
    the handler's promise rejects and no response is sent. *)
Theorem index_js_search_failure_is_not_caught (E : env) (w : world) :
  get_search IndexJs E (VStr "(") w = (Throw (ReferenceError "item"), w)
  /\ get_search IndexJs (store_down E) (VStr "cup") w
     = (Throw (ReferenceError "item"), w).
Proof. split; reflexivity. Qed.

(** C4, as amended.  Take a payload that passes the check.  Its
    [confidence], [timestamp] and [timestampSec] convert without a TypeError
    exactly when none of them is an object with an own [toString] property
    or an array that holds such a value.  When they convert and the store
    accepts the insert, that is when the store is reachable, the driver
    serialises [cameraId], [videoId] and [item], and the generated [_id] is
    not in use, the route answers success and the collection gains exactly
    one record: its [cameraId], [videoId] and [item] are the serialised
    values, its [confidence] is [parseFloat] of the payload's and its
    [timestampSec] is [parseInt] of the payload's, as the driver writes
    numbers, its [createdAt] is the server clock at insertion, not earlier
    than the request, and [listAll] afterwards holds the record exactly
    once.  In every other case the route answers with status 500 and
    nothing is stored. *)
Theorem ingestion_persists_one_record
    (E : env) (b : payload) (w : world) (request_time : Z) :
  missing_fields b = false ->
  (request_time <= E.(Date_now))%Z ->
  (converts b = true <->
     is_ok (parseFloat b.(p_confidence)) = true
     /\ is_ok (Date_new E.(Date_parse) b.(p_timestamp)) = true
     /\ is_ok (parseInt b.(p_timestampSec)) = true)
  /\ (converts b = false -> new_detection E b = Throw TypeError)
  /\ (forall cam vid label,
        converts b = true ->
        E.(db_up) = true ->
        to_bson E b.(p_cameraId) = Ok cam ->
        to_bson E b.(p_videoId) = Ok vid ->
        to_bson E b.(p_item) = Ok label ->
        has_id E.(generated_id) w.(db_detections) = false ->
        exists c s d w',
          parseFloat b.(p_confidence) = Ok c
          /\ parseInt b.(p_timestampSec) = Ok s
          /\ post_detection E b w = (Ok logged_response, w')
          /\ w'.(db_detections) = w.(db_detections) ++ [d]
          /\ w'.(bucket_files) = w.(bucket_files)
          /\ d.(cameraId) = cam /\ d.(videoId) = vid /\ d.(item) = label
          /\ d.(confidence) = bson_number E c
          /\ d.(timestampSec) = bson_number E s
          /\ d.(createdAt) = E.(Date_now)
          /\ (request_time <= d.(createdAt))%Z
          /\ ~ In d w.(db_detections)
          /\ exists l l1 l2,
               listAll E w' = Ok l /\ l = l1 ++ d :: l2
               /\ ~ In d l1 /\ ~ In d l2
               /\ StronglySorted newer_or_same l
               /\ (forall d', In d' w.(db_detections) -> In d' l))
  /\ (converts b = false \/ E.(db_up) = false
      \/ is_ok (to_bson E b.(p_cameraId)) = false
      \/ is_ok (to_bson E b.(p_videoId)) = false
      \/ is_ok (to_bson E b.(p_item)) = false
      \/ has_id E.(generated_id) w.(db_detections) = true ->
      post_detection E b w = (Ok log_failed_response, w)).
Proof.
  intros Hm Hclock.
  destruct (new_detection_converts E b) as [Hno Hyes].
  split.
  { destruct (parseFloat_unprintable b.(p_confidence)) as [C1 C2].
    destruct (Date_new_unprintable E.(Date_parse) b.(p_timestamp)) as [T1 T2].
    destruct (parseInt_unprintable b.(p_timestampSec)) as [S1 S2].
    unfold converts.
    destruct (unprintable b.(p_confidence));
      [rewrite (C1 eq_refl); simpl; intuition discriminate|].
    destruct (C2 eq_refl) as [c ->].
    destruct (unprintable b.(p_timestamp));
      [rewrite (T1 eq_refl); simpl; intuition discriminate|].
    destruct (T2 eq_refl) as [t ->].
    destruct (unprintable b.(p_timestampSec));
      [rewrite (S1 eq_refl); simpl; intuition discriminate|].
    destruct (S2 eq_refl) as [s ->]. simpl. intuition. }
  split; [exact Hno|].
  split.
  { intros cam vid label Hconv Hup Hcam Hvid Hlab Hid.
    destruct (Hyes Hconv) as (c & t & s & Hc & Ht & Hs & Hnew).
    set (d := {| _id := E.(generated_id);
                 cameraId := cam;
                 videoId := vid;
                 item := label;
                 confidence := bson_number E c;
                 timestamp := bson_date t;
                 timestampSec := bson_number E s;
                 createdAt := E.(Date_now) |}).
    set (w' := {| db_detections := w.(db_detections) ++ [d];
                  bucket_files := w.(bucket_files) |}).
    assert (Hfresh : ~ In d w.(db_detections)).
    { intro Hin. apply (has_id_false _ _ _ Hid Hin). reflexivity. }
    exists c, s, d, w'.
    split; [exact Hc|]. split; [exact Hs|].
    split.
    { unfold post_detection. rewrite Hm, Hnew. cbn [bind].
      unfold insertOne, bson_detection. rewrite Hup.
      cbn [cameraId videoId item _id confidence timestamp timestampSec
           createdAt].
      rewrite Hcam, Hvid, Hlab. cbn [bind _id]. rewrite Hid. reflexivity. }
    do 9 (split; [reflexivity || exact Hclock|]).
    split; [exact Hfresh|].
    assert (Hperm : Permutation (d :: w.(db_detections))
                      (sort_by newer_first (w.(db_detections) ++ [d]))).
    { eapply perm_trans; [|apply sort_by_perm].
      apply Permutation_cons_append. }
    destruct (once_in_permutation _ _ _ Hperm Hfresh)
      as (l1 & l2 & Hl & H1 & H2).
    exists (sort_by newer_first (w.(db_detections) ++ [d])), l1, l2.
    split.
    { unfold listAll, db_find. rewrite Hup. simpl.
      rewrite filter_all. reflexivity. }
    split; [exact Hl|].
    split; [exact H1|].
    split; [exact H2|].
    split; [apply sort_newer_first_sorted|].
    intros d' Hd'. apply sort_by_In, in_or_app. left. exact Hd'. }
  intro Hfail. unfold post_detection. rewrite Hm.
  destruct (converts b) eqn:Hconv; [|rewrite (Hno eq_refl); reflexivity].
  destruct (Hyes eq_refl) as (c & t & s & _ & _ & _ & ->). cbn [bind].
  unfold insertOne, bson_detection.
  cbn [cameraId videoId item _id confidence timestamp timestampSec createdAt].
  destruct (db_up E); [|reflexivity].
  destruct (to_bson E b.(p_cameraId)); cbn [bind]; [|reflexivity].
  destruct (to_bson E b.(p_videoId)); cbn [bind]; [|reflexivity].
  destruct (to_bson E b.(p_item)); cbn [bind _id]; [|reflexivity].
  destruct (has_id _ _); [reflexivity|].
  simpl in Hfail. intuition discriminate.
Qed.

Lemma ingestion_persists_one_record_witness :
  exists d w',
    post_detection sample_env sample_payload sample_world
    = (Ok logged_response, w')
    /\ w'.(db_detections) = sample_world.(db_detections) ++ [d]
    /\ d.(confidence) = of_decimal false 87 (-2)
    /\ d.(timestampSec) = of_decimal false 0 0.
Proof.
  assert (Hclock : (0 <= sample_env.(Date_now))%Z) by (vm_compute; discriminate).
  destruct (ingestion_persists_one_record sample_env sample_payload
              sample_world 0%Z eq_refl Hclock) as (_ & _ & H & _).
  destruct (H (VStr "cam-1") (VStr "v1") (VStr "cup")
              eq_refl eq_refl eq_refl eq_refl eq_refl eq_refl)
    as (c & s & d & w' & Hc & Hs & H1 & H2 & _ & _ & _ & _ & H3 & H4 & _).
  exists d, w'. split; [exact H1|]. split; [exact H2|].
  rewrite H3, H4. vm_compute in Hc. vm_compute in Hs.
  injection Hc as <-. injection Hs as <-.
  split; vm_compute; reflexivity.
Defined.

(** C4, as stated, fails: this payload passes the check, yet [parseFloat]
    throws on its [confidence], the route answers 500 and nothing is
    stored. *)
Lemma accepted_payload_is_not_persisted :
  let b := with_confidence (VObj [("toString", VNum (of_decimal false 1 0))])
             sample_payload in
  missing_fields b = false
  /\ post_detection sample_env b sample_world
     = (Ok log_failed_response, sample_world).
Proof. split; reflexivity. Qed.

(** C10.  A payload can pass the check and be stored with a number that is
    NaN: [timestampSec] given as [null] is not [undefined] and [parseInt]
    reads no digit in ["null"]; [confidence] given as ["abc"] is truthy and
    [parseFloat] reads no number in it. *)
Theorem ingestion_stores_NaN (E : env) (w : world) :
  E.(db_up) = true ->
  has_id E.(generated_id) w.(db_detections) = false ->
  let b1 := with_timestampSec VNull sample_payload in
  let b2 := with_confidence (VStr "abc") sample_payload in
  missing_fields b1 = false /\ missing_fields b2 = false
  /\ (exists d w',
        post_detection E b1 w = (Ok logged_response, w')
        /\ w'.(db_detections) = w.(db_detections) ++ [d]
        /\ d.(timestampSec) = NaN)
  /\ (exists d w',
        post_detection E b2 w = (Ok logged_response, w')
        /\ w'.(db_detections) = w.(db_detections) ++ [d]
        /\ d.(confidence) = NaN).
Proof.
  intros Hup Hid b1 b2.
  split; [reflexivity|]. split; [reflexivity|].
  split.
  - eexists. eexists. split; [|split].
    + eapply (post_detection_stores E b1 w _ NaN _
                (VStr "cam-1") (VStr "v1") (VStr "cup"));
        try reflexivity; assumption.
    + reflexivity.
    + reflexivity.
  - eexists. eexists. split; [|split].
    + eapply (post_detection_stores E b2 w NaN _ _
                (VStr "cam-1") (VStr "v1") (VStr "cup"));
        try reflexivity; assumption.
    + reflexivity.
    + reflexivity.
Qed.

Lemma ingestion_stores_NaN_witness :
  exists d w',
    post_detection sample_env (with_timestampSec VNull sample_payload)
      sample_world = (Ok logged_response, w')
    /\ w'.(db_detections) = sample_world.(db_detections) ++ [d]
    /\ d.(timestampSec) = NaN.
Proof.
  destruct (ingestion_stores_NaN sample_env sample_world eq_refl eq_refl)
    as (_ & _ & H & _).
  exact H.
Defined.

(** C5, as amended.  While the store answers, [listByVideo v] returns
    exactly the records whose [videoId] is the string [v] or an array that
    holds the string [v], in ascending order of [timestampSec]; on a store
    that follows the data model these are exactly the records whose
    [videoId] is [v].  When no record is found, [GET /video/v] redirects to
    the dashboard with an error. *)
Theorem listByVideo_exact_and_sorted (E : env) (w : world) (v : string) :
  E.(db_up) = true ->
  exists ds,
    listByVideo E w v = Ok ds
    /\ (forall d, In d ds <->
                  In d w.(db_detections) /\ eq_string v d.(videoId) = true)
    /\ (forall d, eq_string v d.(videoId) = true <->
                  d.(videoId) = VStr v
                  \/ exists l, d.(videoId) = VArr l /\ In (VStr v) l)
    /\ (Forall (fun d => conforms d = true) w.(db_detections) ->
        forall d, In d ds <-> In d w.(db_detections) /\ d.(videoId) = VStr v)
    /\ Permutation
         (filter (fun d => eq_string v d.(videoId)) w.(db_detections)) ds
    /\ StronglySorted earlier_or_same ds
    /\ ((forall d, In d w.(db_detections) ->
                   eq_string v d.(videoId) = false) ->
        get_video E v w = (Ok video_not_found, w)).
Proof.
  intros Hup.
  assert (Hlist : listByVideo E w v
            = Ok (sort_by earlier_first
                    (filter (fun d => eq_string v d.(videoId))
                       w.(db_detections)))).
  { unfold listByVideo, db_find. rewrite Hup. reflexivity. }
  assert (Heq : forall d, eq_string v d.(videoId) = true <->
                  d.(videoId) = VStr v
                  \/ exists l, d.(videoId) = VArr l /\ In (VStr v) l).
  { intro d. unfold eq_string. destruct (videoId d) as [| | | |s|l|];
      try (split; [discriminate|intros [H|(l0 & H & _)]; discriminate]).
    - rewrite String.eqb_eq. split.
      + intros ->. left. reflexivity.
      + intros [H|(l0 & H & _)]; [injection H as ->; reflexivity|discriminate].
    - rewrite existsb_exists. split.
      + intros (x & Hx & Hs). right. exists l. split; [reflexivity|].
        destruct x; try discriminate. apply String.eqb_eq in Hs. subst s.
        exact Hx.
      + intros [H|(l0 & H & Hin)]; [discriminate|]. injection H as <-.
        exists (VStr v). split; [exact Hin|apply String.eqb_refl]. }
  eexists. split; [exact Hlist|].
  split.
  { intro d. rewrite sort_by_In, filter_In. reflexivity. }
  split; [exact Heq|].
  split.
  { intros Hconf d. rewrite sort_by_In, filter_In. split.
    - intros [Hd Hk]. split; [exact Hd|].
      rewrite Forall_forall in Hconf. specialize (Hconf d Hd).
      destruct (conforms_videoId _ Hconf) as [k Hvideo].
      apply Heq in Hk as [Hk|(l & Hk & _)]; [exact Hk|congruence].
    - intros [Hd Hk]. split; [exact Hd|]. apply Heq. left. exact Hk. }
  split; [apply sort_by_perm|].
  split; [apply sort_earlier_first_sorted|].
  intro Hnone. unfold get_video. rewrite Hlist.
  assert (Hempty : filter (fun d => eq_string v d.(videoId))
                     w.(db_detections) = []).
  { clear Hlist.
    destruct (filter (fun d => eq_string v d.(videoId)) w.(db_detections))
      as [|d l] eqn:Hfl; [reflexivity|].
    assert (Hd : In d (filter (fun d => eq_string v d.(videoId))
                         w.(db_detections))).
    { rewrite Hfl. left. reflexivity. }
    apply filter_In in Hd as [Hd Hk].
    rewrite (Hnone d Hd) in Hk. discriminate. }
  rewrite Hempty. reflexivity.
Qed.

Lemma listByVideo_exact_and_sorted_witness :
  exists ds,
    listByVideo sample_env sample_world "v1" = Ok ds
    /\ StronglySorted earlier_or_same ds.
Proof.
  destruct (listByVideo_exact_and_sorted sample_env sample_world "v1"
              eq_refl) as (ds & H1 & _ & _ & _ & _ & H2 & _).
  exists ds. split; assumption.
Defined.

(** C5, as stated, fails: the ingestion route stores a [videoId] that is an
    array, and [listByVideo "v1"] then returns a record whose [videoId] is
    not ["v1"]. *)
Lemma listed_record_has_another_videoId :
  let b := with_videoId (VArr [VStr "v1"; VStr "zz"]) sample_payload in
  let w := snd (post_detection sample_env b no_records) in
  fst (post_detection sample_env b no_records) = Ok logged_response
  /\ (ds <- listByVideo sample_env w "v1" ;; Ok (map videoId ds))
     = Ok [VArr [VStr "v1"; VStr "zz"]]
  /\ VArr [VStr "v1"; VStr "zz"] <> VStr "v1".
Proof. split; [|split]; [vm_compute; reflexivity..|discriminate]. Qed.



(** C8.  For an id that [new ObjectId] accepts: when no stored record has
    it, [POST /delete/:id] reports success and the store is unchanged; when
    a record has it, that record is removed and every other record stays. *)
Theorem delete_by_id (E : env) (w : world) (id : string) (oid : ObjectId) :
  E.(db_up) = true ->
  E.(ObjectId_of_string) id = Some oid ->
  (has_id oid w.(db_detections) = false ->
   post_delete E id w = (Ok deleted_response, w))
  /\ (has_id oid w.(db_detections) = true ->
      exists l1 d l2 w',
        w.(db_detections) = l1 ++ d :: l2
        /\ d.(_id) = oid /\ has_id oid l1 = false
        /\ post_delete E id w = (Ok deleted_response, w')
        /\ w'.(db_detections) = l1 ++ l2
        /\ w'.(bucket_files) = w.(bucket_files)).
Proof.
  intros Hup Hoid.
  assert (Hdel : post_delete E id w
            = (Ok deleted_response,
               {| db_detections := delete_first oid w.(db_detections);
                  bucket_files := w.(bucket_files) |})).
  { unfold post_delete, ObjectId_new, deleteOne. rewrite Hoid, Hup.
    reflexivity. }
  split.
  - intro Hno. rewrite Hdel, (delete_first_absent _ _ Hno).
    destruct w. reflexivity.
  - intro Hyes.
    destruct (delete_first_present _ _ Hyes) as (l1 & d & l2 & H1 & H2 & H3 & H4).
    exists l1, d, l2. eexists. split; [exact H1|]. split; [exact H2|].
    split; [exact H3|]. split; [exact Hdel|]. split; [exact H4|reflexivity].
Qed.

Lemma delete_by_id_witness :
  post_delete sample_env "0000000000000000000000ff" sample_world
  = (Ok deleted_response, sample_world)
  /\ exists w',
       post_delete sample_env "000000000000000000000002" sample_world
       = (Ok deleted_response, w')
       /\ map _id w'.(db_detections) = [1%N; 3%N].
Proof.
  destruct (delete_by_id sample_env sample_world "0000000000000000000000ff"
              255%N eq_refl eq_refl) as (H1 & _).
  destruct (delete_by_id sample_env sample_world "000000000000000000000002"
              2%N eq_refl eq_refl) as (_ & H2).
  split; [apply H1; reflexivity|].
  destruct (H2 eq_refl) as (l1 & d & l2 & w' & _ & _ & _ & Hp & _).
  exists w'. split; [exact Hp|].
  vm_compute in Hp. injection Hp as <-. reflexivity.
Defined.




(** C6 fails on video identifiers that a plain object does not keep as
    ordinary keys.  [listAll] returns the detections of video ["2"] before
    that of video ["1"], yet the dashboard lists video ["1"] first: an
    identifier that is an array index is enumerated in numeric order.  And a
    video called ["constructor"] makes the grouping throw, so the dashboard
    shows the error page without any video. *)
Theorem dashboard_grouping_departs :
  (exists ds,
     listAll sample_env numbered_videos = Ok ds
     /\ first_appearance (map video_key ds) = ["2"; "1"]
     /\ fst (get_dashboard IndexJs sample_env VUndefined VUndefined
               numbered_videos)
        = Ok (Render "dashboard"
                [("videos", Videos (map (fun k => video_of k ds) ["1"; "2"]));
                 ("message", Val VUndefined); ("error", Val VUndefined)]))
  /\ fst (get_dashboard IndexJs sample_env VUndefined VUndefined
            constructor_video)
     = Ok (dashboard_failed IndexJs).
Proof.
  split; [|reflexivity].
  eexists. split; [reflexivity|]. split; reflexivity.
Qed.

(** * Further properties of the routes *)

(** ** What a request can do to the world *)

Lemma handlers_respond_witness :
  (exists resp,
     fst (handle Part000_second sample_env (GetSearch (VStr "(")) sample_world)
     = Ok resp)
  /\ handle Part000_second sample_env (GetSearch (VStr "(")) sample_world
     = (error_answer Part000_second (GetSearch (VStr "(")), sample_world).
Proof.
  destruct (handlers_respond Part000_second sample_env
              (GetSearch (VStr "(")) sample_world) as [H1 [_ H3]];
    [discriminate|].
  split; [exact H1|].
  apply (H3 SyntaxError); [reflexivity | split; reflexivity].
Defined.

Lemma reads_leave_world
    (V : variant) (E : env) (r : request) (w : world) :
  reads_only r = true -> snd (handle V E r w) = w.
Proof.
  destruct r as [m e|i|v|i|b| |id]; simpl; try discriminate; intros _.
  - unfold get_dashboard. destruct (bind _ _); reflexivity.
  - unfold get_search. destruct (negb (ToBoolean i)); [reflexivity|].
    destruct (search E w i); reflexivity.
  - unfold get_last_seen.
    destruct (search E w (VStr i)) as [[|d ds]|]; reflexivity.
  - unfold get_items. destruct (bind _ _); reflexivity.
Qed.

(** The dashboard, the search, the last-seen lookup and the item list read
    the store and change nothing, whatever the request and whatever fails. *)
Theorem read_routes_change_nothing
    (V : variant) (E : env) (r : request) (w : world) :
  reads_only r = true -> snd (handle V E r w) = w.
Proof. apply reads_leave_world. Qed.

Lemma read_routes_change_nothing_witness :
  snd (handle IndexJs sample_env (GetSearch (VStr "(")) sample_world)
  = sample_world.
Proof.
  apply read_routes_change_nothing. reflexivity.
Defined.

Lemma set_public_names (name : string) (fs : list (string * bool)) :
  map fst (set_public name fs) = map fst fs.
Proof.
  unfold set_public. rewrite map_map. apply map_ext.
  intros [n p]. simpl. destruct (String.eqb n name); reflexivity.
Qed.

Lemma set_public_keeps_public (name other : string) (fs : list (string * bool)) :
  existsb (fun f => (String.eqb (fst f) other && snd f)%bool) fs = true ->
  existsb (fun f => (String.eqb (fst f) other && snd f)%bool)
    (set_public name fs) = true.
Proof.
  rewrite !existsb_exists. intros ([n p] & Hin & H). simpl in H.
  apply andb_true_iff in H as [Hn Hp]. subst p.
  exists (n, true). split; [|simpl; rewrite Hn; reflexivity].
  unfold set_public. apply in_map_iff. exists (n, true).
  split; [|exact Hin]. simpl. destruct (String.eqb n name); reflexivity.
Qed.

Lemma resolve_media_world (E : env) (v : string) (w w' : world) (u : string) :
  resolve_media E v w = Ok (u, w') ->
  w' = w
  \/ w' = {| db_detections := w.(db_detections);
             bucket_files := set_public (video_file v) w.(bucket_files) |}.
Proof.
  unfold resolve_media, file_exists, file_makePublic.
  destruct (exists_up E); simpl; [|discriminate].
  destruct (existsb _ _); simpl.
  - destruct (makePublic_up E); simpl; [|discriminate].
    intro H. injection H as _ <-. right. reflexivity.
  - intro H. injection H as _ <-. left. reflexivity.
Qed.

Lemma get_video_world (E : env) (v : string) (w : world) :
  let w' := snd (get_video E v w) in
  w'.(db_detections) = w.(db_detections)
  /\ file_names w' = file_names w
  /\ (forall name, is_public w name = true -> is_public w' name = true).
Proof.
  assert (Hsame : forall w0 : world, w0 = w ->
            w0.(db_detections) = w.(db_detections)
            /\ file_names w0 = file_names w
            /\ (forall name, is_public w name = true ->
                             is_public w0 name = true)).
  { intros w0 ->. repeat split. auto. }
  unfold get_video.
  destruct (listByVideo E w v) as [[|d ds]|]; simpl; try (apply Hsame; reflexivity).
  destruct (resolve_media E v w) as [[u w1]|] eqn:Hres; simpl;
    [|apply Hsame; reflexivity].
  destruct (resolve_media_world E v w w1 u Hres) as [->| ->];
    [apply Hsame; reflexivity|].
  split; [reflexivity|]. split.
  - unfold file_names. simpl. apply set_public_names.
  - intros name. unfold is_public. simpl. apply set_public_keeps_public.
Qed.

(** The video page never touches the detections, never adds or removes a
    bucket object and never withdraws public access. *)
Theorem video_route_keeps_the_store (E : env) (v : string) (w : world) :
  let w' := snd (get_video E v w) in
  w'.(db_detections) = w.(db_detections)
  /\ file_names w' = file_names w
  /\ (forall name, is_public w name = true -> is_public w' name = true).
Proof. apply get_video_world. Qed.

(** ** Identifiers stay unique *)

Lemma delete_first_incl (oid : ObjectId) (coll : list detection) (d : detection) :
  In d (delete_first oid coll) -> In d coll.
Proof.
  induction coll as [|x coll IH]; simpl; [auto|].
  destruct (N.eqb x.(_id) oid); simpl; [auto|].
  intros [H|H]; [left; exact H|right; apply IH, H].
Qed.

Lemma delete_first_NoDup (oid : ObjectId) (coll : list detection) :
  NoDup (map _id coll) -> NoDup (map _id (delete_first oid coll)).
Proof.
  induction coll as [|x coll IH]; simpl; [auto|].
  intro H. inversion H as [|? ? Hx Hnd]; subst.
  destruct (N.eqb x.(_id) oid); [exact Hnd|].
  simpl. constructor; [|apply IH, Hnd].
  intro Hin. apply Hx. apply in_map_iff in Hin as (y & Hy & Hin).
  apply in_map_iff. exists y. split; [exact Hy|].
  apply (delete_first_incl oid), Hin.
Qed.

Lemma has_id_in (oid : ObjectId) (coll : list detection) :
  has_id oid coll = true <-> In oid (map _id coll).
Proof.
  unfold has_id. rewrite existsb_exists, in_map_iff.
  split; intros (d & H1 & H2).
  - exists d. split; [apply N.eqb_eq, H2|exact H1].
  - exists d. split; [exact H2|apply N.eqb_eq, H1].
Qed.

Lemma new_detection_id (E : env) (b : payload) (d : detection) :
  new_detection E b = Ok d -> d.(_id) = E.(generated_id).
Proof.
  unfold new_detection.
  destruct (parseFloat _); cbn [bind]; [|discriminate].
  destruct (Date_new _ _); cbn [bind]; [|discriminate].
  destruct (parseInt _); cbn [bind]; [|discriminate].
  intro H. injection H as <-. reflexivity.
Qed.

(** What the ingestion route has done when it answers success: [d] is the
    document of the handler and [d'] what the collection received. *)
Lemma post_detection_logged
    (E : env) (b : payload) (w w' : world) (r : result response) :
  post_detection E b w = (r, w') ->
  (r <> Ok logged_response /\ w' = w)
  \/ (r = Ok logged_response /\ missing_fields b = false
      /\ E.(db_up) = true
      /\ has_id E.(generated_id) w.(db_detections) = false
      /\ exists d d',
           new_detection E b = Ok d
           /\ bson_detection E d = Ok d'
           /\ d'.(_id) = E.(generated_id)
           /\ w' = {| db_detections := w.(db_detections) ++ [d'];
                      bucket_files := w.(bucket_files) |}).
Proof.
  unfold post_detection.
  destruct (missing_fields b) eqn:Hm.
  { intro H. injection H as <- <-. left. split; [discriminate|reflexivity]. }
  destruct (new_detection E b) as [d|e] eqn:Hnew; cbn [bind].
  2:{ intro H. injection H as <- <-. left. split; [discriminate|reflexivity]. }
  unfold insertOne.
  destruct (db_up E) eqn:Hup.
  2:{ intro H. injection H as <- <-. left. split; [discriminate|reflexivity]. }
  destruct (bson_detection E d) as [d'|e] eqn:Hser; cbn [bind].
  2:{ intro H. injection H as <- <-. left. split; [discriminate|reflexivity]. }
  assert (Hid : d'.(_id) = E.(generated_id)).
  { destruct (bson_detection_fields E d d' Hser) as [-> _].
    apply (new_detection_id E b d Hnew). }
  rewrite Hid.
  destruct (has_id _ _) eqn:Hhas.
  { intro H. injection H as <- <-. left. split; [discriminate|reflexivity]. }
  intro H. injection H as <- <-. right.
  repeat split; try reflexivity. exists d, d'. repeat split; assumption.
Qed.

(** No request makes two records share an [_id]. *)
Theorem ids_stay_unique (V : variant) (E : env) (r : request) (w : world) :
  NoDup (ids w) -> NoDup (ids (snd (handle V E r w))).
Proof.
  intro Hnd.
  destruct (reads_only r) eqn:Hr.
  { rewrite (reads_leave_world V E r w Hr). exact Hnd. }
  destruct r as [m e|i|v|i|b| |id]; try discriminate; simpl.
  - assert (Hv : NoDup (ids (snd (get_video E v w)))).
    { unfold ids.
      destruct (get_video_world E v w) as [-> _]. exact Hnd. }
    destruct V; [exact Hv|exact Hnd|exact Hv].
  - destruct (post_detection E b w) as [res w'] eqn:Hp.
    destruct (post_detection_logged E b w w' res Hp)
      as [[_ ->]|(_ & _ & _ & Hfresh & d & d' & Hnew & Hser & Hid & ->)];
      [exact Hnd|].
    unfold ids in *. simpl. rewrite map_app. simpl.
    apply NoDup_app; [exact Hnd|repeat constructor; intros []|].
    intros x Hx [Heq|[]]. subst x.
    rewrite Hid in Hx.
    apply has_id_in in Hx. congruence.
  - unfold post_delete.
    destruct (ObjectId_new E id) as [oid|]; cbn [bind]; [|exact Hnd].
    unfold deleteOne. destruct (db_up E); [|exact Hnd].
    simpl. unfold ids. simpl. apply delete_first_NoDup, Hnd.
Qed.

Lemma ids_stay_unique_witness :
  NoDup (ids (snd (handle IndexJs sample_env (PostDetection sample_payload)
                     sample_world))).
Proof.
  apply ids_stay_unique. unfold ids. simpl.
  repeat constructor; simpl; intuition discriminate.
Defined.

(** ** Ingestion *)

Lemma read_int_integral (neg : bool) (l : list ascii) :
  integral (read_int neg l) = true.
Proof.
  unfold read_int.
  repeat match goal with
         | |- context [match ?x with _ => _ end] => destruct x
         end; try reflexivity; apply of_decimal_integral.
Qed.

Lemma parseInt_integral (v : jsval) (n : number) :
  parseInt v = Ok n -> integral n = true.
Proof.
  unfold parseInt. destruct (ToString v); cbn [bind]; [|discriminate].
  intro H. injection H as <-. unfold parseInt_chars.
  repeat match goal with
         | |- context [match ?x with _ => _ end] => destruct x
         end; apply read_int_integral.
Qed.

Lemma bson_number_integral (E : env) (n : number) :
  integral n = true -> integral (bson_number E n) = true.
Proof.
  unfold bson_number. destruct n as [|s|[] [|p] e]; auto.
  destruct (int32_negative_zero E); auto.
Qed.

Lemma new_detection_fields (E : env) (b : payload) (d : detection) :
  new_detection E b = Ok d ->
  d.(cameraId) = b.(p_cameraId) /\ d.(videoId) = b.(p_videoId)
  /\ d.(item) = b.(p_item) /\ d.(createdAt) = E.(Date_now)
  /\ parseFloat b.(p_confidence) = Ok d.(confidence)
  /\ parseInt b.(p_timestampSec) = Ok d.(timestampSec).
Proof.
  unfold new_detection.
  destruct (parseFloat _); cbn [bind]; [|discriminate].
  destruct (Date_new _ _); cbn [bind]; [|discriminate].
  destruct (parseInt _); cbn [bind]; [|discriminate].
  intro H. injection H as <-. repeat split.
Qed.

Lemma missing_fields_false (b : payload) :
  missing_fields b = false ->
  ToBoolean b.(p_cameraId) = true /\ ToBoolean b.(p_videoId) = true
  /\ ToBoolean b.(p_item) = true.
Proof.
  unfold missing_fields. intro H.
  repeat (apply orb_false_elim in H as [H ?]).
  repeat split; apply negb_false_iff; assumption.
Qed.

(** The ingestion route only ever appends: whatever the payload and
    whatever fails, the records already stored stay as they are and in
    place, at most one record is added at the end, and one is added exactly
    when the answer is the success payload. *)
Theorem ingestion_only_appends (E : env) (b : payload) (w : world) :
  exists added,
    (snd (post_detection E b w)).(db_detections)
    = w.(db_detections) ++ added
    /\ (snd (post_detection E b w)).(bucket_files) = w.(bucket_files)
    /\ (List.length added <= 1)%nat
    /\ (fst (post_detection E b w) = Ok logged_response <-> added <> [])
    /\ (forall d, In d added ->
          d.(_id) = E.(generated_id) /\ d.(createdAt) = E.(Date_now)
          /\ ~ In d.(_id) (ids w)).
Proof.
  destruct (post_detection E b w) as [r w'] eqn:Hp. simpl.
  destruct (post_detection_logged E b w w' r Hp)
    as [[Hr ->]|(-> & _ & _ & Hfresh & d & d' & Hnew & Hser & Hid & ->)].
  - exists []. rewrite app_nil_r.
    split; [reflexivity|]. split; [reflexivity|]. split; [simpl; lia|].
    split; [split; intro H; contradiction|].
    intros d [].
  - exists [d']. simpl.
    split; [reflexivity|]. split; [reflexivity|]. split; [lia|].
    split; [split; [discriminate|reflexivity]|].
    intros d0 [<-|[]].
    split; [exact Hid|].
    split.
    { destruct (bson_detection_fields E d d' Hser)
        as (_ & _ & _ & _ & _ & _ & _ & ->).
      apply (new_detection_fields E b _ Hnew). }
    intro Hin. unfold ids in Hin. rewrite Hid in Hin.
    apply has_id_in in Hin. congruence.
Qed.

(** Every record the ingestion route stores has a [timestampSec] that is
    an integer, NaN or an infinity.  Where the serialiser of the driver
    leaves truthy values truthy, which a release that obeys a [_bsontype]
    key does not, every such record also has truthy [cameraId], [videoId]
    and [item].  No route breaks either property on a store that has it. *)
Theorem stored_records_stay_labelled
    (V : variant) (E : env) (r : request) (w : world) :
  (Forall (fun d => integral d.(timestampSec) = true) w.(db_detections) ->
   Forall (fun d => integral d.(timestampSec) = true)
     (snd (handle V E r w)).(db_detections))
  /\ ((forall v v', to_bson E v = Ok v' ->
                    ToBoolean v = true -> ToBoolean v' = true) ->
      Forall (fun d => labelled d = true) w.(db_detections) ->
      Forall (fun d => labelled d = true)
        (snd (handle V E r w)).(db_detections)).
Proof.
  assert (Hcases :
            (snd (handle V E r w)).(db_detections) = w.(db_detections)
            \/ (exists oid,
                  (snd (handle V E r w)).(db_detections)
                  = delete_first oid w.(db_detections))
            \/ (exists b d d',
                  missing_fields b = false
                  /\ new_detection E b = Ok d /\ bson_detection E d = Ok d'
                  /\ (snd (handle V E r w)).(db_detections)
                     = w.(db_detections) ++ [d'])).
  { destruct (reads_only r) eqn:Hr.
    { left. rewrite (reads_leave_world V E r w Hr). reflexivity. }
    destruct r as [m e|i|v|i|b| |id]; try discriminate; simpl.
    - left. destruct V; try reflexivity; apply get_video_world.
    - destruct (post_detection E b w) as [res w'] eqn:Hp.
      destruct (post_detection_logged E b w w' res Hp)
        as [[_ ->]|(_ & Hm & _ & _ & d & d' & Hnew & Hser & _ & ->)];
        [left; reflexivity|].
      right. right. exists b, d, d'. repeat split; assumption.
    - unfold post_delete.
      destruct (ObjectId_new E id) as [oid|]; cbn [bind];
        [|left; reflexivity].
      unfold deleteOne. destruct (db_up E); [|left; reflexivity].
      right. left. exists oid. reflexivity. }
  split.
  - intro Hw.
    destruct Hcases as [->|[(oid & ->)|(b & d & d' & Hm & Hnew & Hser & ->)]].
    + exact Hw.
    + rewrite Forall_forall in Hw |- *.
      intros x Hx. apply Hw. apply (delete_first_incl oid), Hx.
    + apply Forall_app. split; [exact Hw|].
      constructor; [|constructor].
      destruct (new_detection_fields E b d Hnew) as (_ & _ & _ & _ & _ & H4).
      destruct (bson_detection_fields E d d' Hser)
        as (_ & _ & _ & _ & _ & _ & -> & _).
      apply bson_number_integral, (parseInt_integral _ _ H4).
  - intros Hbson Hw.
    destruct Hcases as [->|[(oid & ->)|(b & d & d' & Hm & Hnew & Hser & ->)]].
    + exact Hw.
    + rewrite Forall_forall in Hw |- *.
      intros x Hx. apply Hw. apply (delete_first_incl oid), Hx.
    + apply Forall_app. split; [exact Hw|].
      constructor; [|constructor].
      destruct (new_detection_fields E b d Hnew) as (H1 & H2 & H3 & _).
      destruct (missing_fields_false b Hm) as (T1 & T2 & T3).
      destruct (bson_detection_fields E d d' Hser) as (_ & B1 & B2 & B3 & _).
      rewrite H1 in B1. rewrite H2 in B2. rewrite H3 in B3.
      unfold labelled.
      rewrite (Hbson _ _ B1 T1), (Hbson _ _ B2 T2), (Hbson _ _ B3 T3).
      reflexivity.
Qed.

Lemma stored_records_stay_labelled_witness :
  Forall (fun d => labelled d = true
                   /\ integral d.(timestampSec) = true)
    (snd (handle IndexJs sample_env
            (PostDetection (with_timestampSec VNull sample_payload))
            sample_world)).(db_detections).
Proof.
  destruct (stored_records_stay_labelled IndexJs sample_env
              (PostDetection (with_timestampSec VNull sample_payload))
              sample_world) as [H1 H2].
  apply Forall_and.
  - apply H2.
    + intros v v'. unfold to_bson, sample_env, bson_document, sample_bson.
      destruct v as [| |b|n|s|l|kvs]; intro H; try (injection H as <-; auto);
        try discriminate.
      * unfold bson_number. destruct n as [|s|[] [|p] e]; auto.
      * destruct (plain_document (VArr l)); [injection H as <-; auto|discriminate].
      * destruct (plain_document (VObj kvs)); [injection H as <-; auto|discriminate].
    + repeat constructor.
  - apply H1. repeat constructor; vm_compute; reflexivity.
Defined.

(** ** Deleting *)

Lemma delete_first_keeps (oid : ObjectId) (coll : list detection) (d : detection) :
  In d coll -> d.(_id) <> oid -> In d (delete_first oid coll).
Proof.
  induction coll as [|x coll IH]; simpl; [auto|].
  intros [->|Hin] Hne.
  - destruct (N.eqb d.(_id) oid) eqn:H; [|left; reflexivity].
    apply N.eqb_eq in H. contradiction.
  - destruct (N.eqb x.(_id) oid); [exact Hin|right; apply IH; assumption].
Qed.

Lemma delete_first_length (oid : ObjectId) (coll : list detection) :
  (List.length coll <= S (List.length (delete_first oid coll)))%nat.
Proof.
  induction coll as [|x coll IH]; simpl; [lia|].
  destruct (N.eqb x.(_id) oid); simpl; lia.
Qed.

(** The delete route removes at most one record, keeps every record whose
    id is not the one asked for, never adds one and never touches the
    bucket; an id that [new ObjectId] rejects changes nothing and is
    answered with the failure payload. *)
Theorem delete_spares_the_other_records (E : env) (id : string) (w : world) :
  let w' := snd (post_delete E id w) in
  w'.(bucket_files) = w.(bucket_files)
  /\ (forall d, In d w'.(db_detections) -> In d w.(db_detections))
  /\ (List.length w.(db_detections) <= S (List.length w'.(db_detections)))%nat
  /\ (forall d, In d w.(db_detections) ->
        E.(ObjectId_of_string) id <> Some d.(_id) ->
        In d w'.(db_detections))
  /\ (E.(ObjectId_of_string) id = None ->
      post_delete E id w = (Ok delete_failed_response, w)).
Proof.
  unfold post_delete, ObjectId_new.
  destruct (ObjectId_of_string E id) as [oid|] eqn:Hoid; cbn [bind].
  - unfold deleteOne. destruct (db_up E); simpl.
    + split; [reflexivity|].
      split; [intro d; apply delete_first_incl|].
      split; [apply delete_first_length|].
      split; [|discriminate].
      intros d Hd Hne. apply delete_first_keeps; [exact Hd|].
      intro Heq. apply Hne. rewrite Heq. reflexivity.
    + repeat split; auto; discriminate.
  - simpl. repeat split; auto.
Qed.

Lemma delete_first_twice (oid : ObjectId) (coll : list detection) :
  NoDup (map _id coll) ->
  delete_first oid (delete_first oid coll) = delete_first oid coll.
Proof.
  induction coll as [|x coll IH]; simpl; [reflexivity|].
  intro H. inversion H as [|? ? Hx Hnd]; subst.
  destruct (N.eqb x.(_id) oid) eqn:Hxo.
  - apply N.eqb_eq in Hxo. subst oid.
    apply delete_first_absent. apply not_true_is_false.
    intro Hh. apply has_id_in in Hh. contradiction.
  - simpl. rewrite Hxo, (IH Hnd). reflexivity.
Qed.

(** Deleting is idempotent on a store with unique ids: the same request
    again gives the same answer and leaves the store as the first one left
    it. *)
Theorem delete_twice_is_delete_once
    (E : env) (id : string) (w w1 : world) (r : result response) :
  NoDup (ids w) ->
  post_delete E id w = (r, w1) ->
  post_delete E id w1 = (r, w1).
Proof.
  intros Hnd. unfold post_delete.
  destruct (ObjectId_new E id) as [oid|]; cbn [bind].
  - unfold deleteOne. destruct (db_up E).
    + intro H. injection H as <- <-. simpl.
      rewrite (delete_first_twice oid _ Hnd). reflexivity.
    + intro H. injection H as <- <-. reflexivity.
  - intro H. injection H as <- <-. reflexivity.
Qed.

Lemma delete_twice_is_delete_once_witness :
  post_delete sample_env "000000000000000000000002"
    (snd (post_delete sample_env "000000000000000000000002" sample_world))
  = (Ok deleted_response,
     snd (post_delete sample_env "000000000000000000000002" sample_world)).
Proof.
  apply (delete_twice_is_delete_once sample_env "000000000000000000000002"
           sample_world).
  - unfold ids. simpl. repeat constructor; simpl; intuition discriminate.
  - reflexivity.
Defined.

Lemma delete_first_last (d : detection) (coll : list detection) :
  has_id d.(_id) coll = false ->
  delete_first d.(_id) (coll ++ [d]) = coll.
Proof.
  induction coll as [|x coll IH]; simpl.
  - rewrite N.eqb_refl. reflexivity.
  - intro H. apply orb_false_elim in H as [Hx H].
    rewrite Hx, (IH H). reflexivity.
Qed.

(** Logging a detection and then deleting it by the id it was given brings
    the world back to what it was. *)
Theorem delete_undoes_ingestion
    (E : env) (b : payload) (id : string) (w w1 : world) :
  post_detection E b w = (Ok logged_response, w1) ->
  E.(ObjectId_of_string) id = Some E.(generated_id) ->
  post_delete E id w1 = (Ok deleted_response, w).
Proof.
  intros Hp Hid.
  destruct (post_detection_logged E b w w1 _ Hp)
    as [[Hr _]|(_ & _ & Hup & Hfresh & d & d' & Hnew & Hser & Hid' & ->)];
    [destruct Hr; reflexivity|].
  unfold post_delete, ObjectId_new, deleteOne. rewrite Hid, Hup. cbn [bind].
  simpl. rewrite <- Hid' in *.
  rewrite (delete_first_last d' _ Hfresh). destruct w. reflexivity.
Qed.

Lemma delete_undoes_ingestion_witness :
  post_delete sample_env "000000000000000000000064"
    (snd (post_detection sample_env sample_payload sample_world))
  = (Ok deleted_response, sample_world).
Proof.
  apply (delete_undoes_ingestion sample_env sample_payload); reflexivity.
Defined.

(** ** What is logged can be found *)

Lemma ci_prefix_refl (p rest : list ascii) : ci_prefix p (p ++ rest) = true.
Proof.
  induction p as [|a p IH]; simpl; [reflexivity|].
  unfold same_letter. rewrite Ascii.eqb_refl. exact IH.
Qed.

Lemma ci_includes_refl (p : list ascii) : ci_includes p p = true.
Proof.
  destruct p as [|a p]; [reflexivity|].
  cbn [ci_includes].
  rewrite <- (app_nil_r (a :: p)) at 2. rewrite ci_prefix_refl. reflexivity.
Qed.

(** A detection that was logged with a string label and a string video id
    is found at once: by a search for its label (when the label holds no
    pattern character), by the last-seen lookup of that label, and in the
    list of its video. *)
Theorem logged_detection_is_found
    (E : env) (b : payload) (w w1 : world) (label video : string) :
  post_detection E b w = (Ok logged_response, w1) ->
  b.(p_item) = VStr label ->
  b.(p_videoId) = VStr video ->
  plain label = true ->
  exists d,
    d.(_id) = E.(generated_id) /\ d.(item) = VStr label
    /\ (exists ds, search E w1 (VStr label) = Ok ds /\ In d ds)
    /\ (exists ds, listByVideo E w1 video = Ok ds /\ In d ds)
    /\ (exists d', get_last_seen E label w1 = (Ok (last_seen_response d'), w1)).
Proof.
  intros Hp Hitem Hvideo Hplain.
  destruct (post_detection_logged E b w w1 _ Hp)
    as [[Hr _]|(_ & _ & Hup & _ & d0 & d & Hnew & Hser & Hid' & ->)];
    [destruct Hr; reflexivity|].
  destruct (new_detection_fields E b d0 Hnew) as (_ & Hv0 & Hi0 & _).
  destruct (bson_detection_fields E d0 d Hser) as (_ & _ & Hv & Hi & _).
  rewrite Hi0, Hitem in Hi. rewrite Hv0, Hvideo in Hv.
  apply to_bson_string in Hi, Hv.
  assert (Hsearch : exists ds,
            search E {| db_detections := w.(db_detections) ++ [d];
                        bucket_files := w.(bucket_files) |} (VStr label)
            = Ok ds /\ In d ds).
  { unfold search, RegExp_new, db_find. cbn [ToString bind].
    rewrite (parse_pattern_plain label Hplain), Hup. cbn [bind].
    eexists. split; [reflexivity|].
    apply sort_by_In, filter_In. simpl. split.
    - apply in_or_app. right. left. reflexivity.
    - rewrite Hi. simpl. rewrite literal_regex_test. apply ci_includes_refl. }
  exists d. split; [exact Hid'|].
  split; [exact Hi|]. split; [exact Hsearch|]. split.
  - unfold listByVideo, db_find. rewrite Hup. cbn [bind].
    eexists. split; [reflexivity|].
    apply sort_by_In, filter_In. simpl. split.
    + apply in_or_app. right. left. reflexivity.
    + rewrite Hv. simpl. apply String.eqb_refl.
  - destruct Hsearch as (ds & Hs & Hin). unfold get_last_seen. rewrite Hs.
    destruct ds as [|d' ds]; [destruct Hin|].
    exists d'. reflexivity.
Qed.

Lemma logged_detection_is_found_witness :
  exists d,
    d.(_id) = 100%N /\ d.(item) = VStr "cup"
    /\ (exists ds,
          search sample_env
            (snd (post_detection sample_env sample_payload sample_world))
            (VStr "cup") = Ok ds /\ In d ds).
Proof.
  destruct (logged_detection_is_found sample_env sample_payload sample_world
              (snd (post_detection sample_env sample_payload sample_world))
              "cup" "v1" eq_refl eq_refl eq_refl eq_refl)
    as (d & H1 & H2 & H3 & _).
  exists d. repeat split; assumption.
Defined.

(** ** The last-seen lookup *)

Lemma sorted_head_is_newest (d0 : detection) (rest : list detection) :
  StronglySorted newer_or_same (d0 :: rest) ->
  forall d, In d (d0 :: rest) -> (d.(timestamp) <= d0.(timestamp))%Z.
Proof.
  intros Hs d [<-|Hin]; [lia|].
  inversion Hs as [|? ? _ Hall]; subst.
  rewrite Forall_forall in Hall. apply (Hall d Hin).
Qed.

(** On a store that follows the data model, the last-seen lookup of a label
    without pattern characters answers "never detected" exactly when no item
    contains the label, and otherwise returns a record whose item contains
    it and than which no such record is more recent. *)
Theorem last_seen_is_the_newest_match (E : env) (w : world) (label : string) :
  E.(db_up) = true ->
  Forall (fun d => conforms d = true) w.(db_detections) ->
  plain label = true ->
  ((forall d, In d w.(db_detections) -> item_contains label d = false) ->
   get_last_seen E label w = (Ok never_detected_response, w))
  /\ ((exists d, In d w.(db_detections) /\ item_contains label d = true) ->
      exists d0,
        get_last_seen E label w = (Ok (last_seen_response d0), w)
        /\ In d0 w.(db_detections) /\ item_contains label d0 = true
        /\ forall d, In d w.(db_detections) -> item_contains label d = true ->
                     (d.(timestamp) <= d0.(timestamp))%Z).
Proof.
  intros Hup Hconf Hplain.
  assert (Hs := search_plain E w label Hup Hconf Hplain).
  assert (Hmem : forall d, In d (literal_search w.(db_detections) label) <->
                   In d w.(db_detections) /\ item_contains label d = true).
  { intro d. unfold literal_search. rewrite sort_by_In, filter_In. reflexivity. }
  unfold get_last_seen. rewrite Hs. split.
  - intro Hnone.
    destruct (literal_search _ _) as [|d0 rest] eqn:Hl; [reflexivity|].
    assert (Hin : In d0 (d0 :: rest)) by (left; reflexivity).
    apply Hmem in Hin as [Hin Hc]. rewrite (Hnone d0 Hin) in Hc. discriminate.
  - intros (d & Hd & Hc).
    assert (Hsorted := sort_newer_first_sorted
                         (filter (item_contains label) w.(db_detections))).
    fold (literal_search w.(db_detections) label) in Hsorted.
    destruct (literal_search _ _) as [|d0 rest] eqn:Hl.
    + destruct (proj2 (Hmem d) (conj Hd Hc)).
    + exists d0. split; [reflexivity|].
      destruct (proj1 (Hmem d0) (or_introl eq_refl)) as [H1 H2].
      split; [exact H1|]. split; [exact H2|].
      intros d' Hd' Hc'. apply (sorted_head_is_newest d0 rest Hsorted).
      apply Hmem. split; assumption.
Qed.

Lemma last_seen_is_the_newest_match_witness :
  exists d0,
    get_last_seen sample_env "cup" sample_world
    = (Ok (last_seen_response d0), sample_world)
    /\ d0.(_id) = 2%N.
Proof.
  assert (Hconf : Forall (fun d => conforms d = true)
                    sample_world.(db_detections)).
  { repeat constructor. }
  destruct (last_seen_is_the_newest_match sample_env sample_world "cup"
              eq_refl Hconf eq_refl) as [_ H].
  destruct H as (d0 & Hd & _).
  { exists (sample_detection 1 "v1" "cup" 1000 0).
    split; [left; reflexivity|reflexivity]. }
  exists d0. split; [exact Hd|].
  vm_compute in Hd. injection Hd as <-. reflexivity.
Defined.

(** ** The dashboard *)

Lemma dashboard_ordinary_videos_witness :
  get_dashboard IndexJs sample_env VUndefined VUndefined sample_world
  = (Ok (Render "dashboard"
           [("videos",
             Videos (map (fun k => video_of k
                                     (sort_by newer_first
                                        sample_world.(db_detections)))
                       ["v1"; "v2"]));
            ("message", Val VUndefined); ("error", Val VUndefined)]),
     sample_world).
Proof.
  assert (Hord : Forall (fun d => ordinary_video d = true)
                   sample_world.(db_detections)).
  { repeat constructor. }
  destruct (dashboard_ordinary_videos IndexJs sample_env VUndefined VUndefined
              sample_world eq_refl Hord) as [_ H].
  exact H.
Defined.

Lemma of_video_partition_step (d : detection) (ds : list detection)
    (ks : list string) :
  NoDup ks ->
  (In (video_key d) ks ->
   Permutation (flat_map (fun k => of_video k (d :: ds)) ks)
     (d :: flat_map (fun k => of_video k ds) ks))
  /\ (~ In (video_key d) ks ->
      flat_map (fun k => of_video k (d :: ds)) ks
      = flat_map (fun k => of_video k ds) ks).
Proof.
  induction 1 as [|k ks Hk Hnd [IH1 IH2]]; simpl.
  - split; [intros []|reflexivity].
  - rewrite of_video_cons. split.
    + intros [Heq|Hin].
      * subst k. rewrite String.eqb_refl. simpl.
        rewrite (IH2 Hk). reflexivity.
      * destruct (String.eqb (video_key d) k) eqn:Hdk.
        { apply String.eqb_eq in Hdk. subst k. contradiction. }
        eapply perm_trans; [apply Permutation_app_head, (IH1 Hin)|].
        apply Permutation_sym, Permutation_middle.
    + intro Hnot.
      destruct (String.eqb (video_key d) k) eqn:Hdk.
      { apply String.eqb_eq in Hdk. subst k. destruct Hnot. left. reflexivity. }
      rewrite IH2; [reflexivity|].
      intro Hin. apply Hnot. right. exact Hin.
Qed.

Lemma of_video_partition (ds : list detection) (ks : list string) :
  NoDup ks ->
  (forall d, In d ds -> In (video_key d) ks) ->
  Permutation (flat_map (fun k => of_video k ds) ks) ds.
Proof.
  intros Hnd. induction ds as [|d ds IH]; intro Hall.
  - assert (H : flat_map (fun k => of_video k []) ks = []).
    { clear. induction ks as [|k ks IHk]; simpl; [reflexivity|exact IHk]. }
    rewrite H. constructor.
  - destruct (of_video_partition_step d ds ks Hnd) as [H1 _].
    eapply perm_trans; [apply H1, Hall; left; reflexivity|].
    apply perm_skip, IH. intros d' Hd'. apply Hall. right. exact Hd'.
Qed.

Lemma filter_sorted {A : Type} (R : A -> A -> Prop) (p : A -> bool)
    (l : list A) :
  StronglySorted R l -> StronglySorted R (filter p l).
Proof.
  induction 1 as [|x l Hs IH Hx]; simpl; [constructor|].
  destruct (p x); [|exact IH].
  constructor; [exact IH|].
  rewrite Forall_forall in Hx |- *. intros y Hy.
  apply filter_In in Hy as [Hy _]. apply Hx, Hy.
Qed.

Lemma NoDup_map_VStr (l : list string) : NoDup l -> NoDup (map VStr l).
Proof.
  induction 1 as [|s l Hs _ IH]; simpl; constructor; [|exact IH].
  intro Hin. apply in_map_iff in Hin as (s' & Heq & Hin).
  injection Heq as ->. contradiction.
Qed.

Lemma ordinary_video_key (d : detection) :
  ordinary_video d = true -> d.(videoId) = VStr (video_key d).
Proof.
  unfold ordinary_video, video_key.
  destruct (videoId d); try discriminate. reflexivity.
Qed.

(** On a store whose video ids are ordinary keys the dashboard partitions
    the detections: every stored detection is shown under exactly one video,
    no video is shown twice or empty, a video holds only detections of its
    own id, and these are listed most recent first. *)
Theorem dashboard_partitions_the_detections
    (V : variant) (E : env) (message error : jsval) (w : world) :
  E.(db_up) = true ->
  Forall (fun d => ordinary_video d = true) w.(db_detections) ->
  exists videos,
    get_dashboard V E message error w
    = (Ok (dashboard_page V videos message error), w)
    /\ Permutation (flat_map v_detections videos) w.(db_detections)
    /\ NoDup (map v_videoId videos)
    /\ Forall (fun v =>
                 v.(v_detections) <> []
                 /\ Forall (fun d => d.(videoId) = v.(v_videoId))
                      v.(v_detections)
                 /\ StronglySorted newer_or_same v.(v_detections)) videos.
Proof.
  intros Hup Hord.
  set (ds := sort_by newer_first w.(db_detections)).
  set (ks := first_appearance (map video_key ds)).
  assert (Hds : Forall (fun d => ordinary_video d = true) ds).
  { rewrite Forall_forall in Hord |- *. intros d Hd.
    apply Hord. apply (proj1 (sort_by_In newer_first _ d)). exact Hd. }
  exists (map (fun k => video_of k ds) ks).
  split.
  { unfold get_dashboard, listAll, db_find. rewrite Hup. cbn [bind].
    rewrite filter_all. fold ds.
    rewrite (group_by_video_first_appearance ds Hds). reflexivity. }
  split.
  { rewrite flat_map_concat_map, map_map, <- flat_map_concat_map.
    eapply perm_trans; [|apply Permutation_sym, sort_by_perm].
    fold ds. apply of_video_partition.
    - apply first_appearance_NoDup.
    - intros d Hd. apply first_appearance_In, in_map, Hd. }
  split.
  { rewrite map_map. simpl.
    apply NoDup_map_VStr, first_appearance_NoDup. }
  apply Forall_forall. intros v Hv.
  apply in_map_iff in Hv as (k & <- & Hk). simpl.
  apply (proj1 (first_appearance_In _ _)) in Hk.
  apply in_map_iff in Hk as (d & Hkey & Hd).
  split.
  { intro Hnil.
    assert (Hin : In d (of_video k ds)).
    { apply filter_In. split; [exact Hd|]. rewrite Hkey. apply String.eqb_refl. }
    rewrite Hnil in Hin. destruct Hin. }
  split.
  { apply Forall_forall. intros d' Hd'.
    apply filter_In in Hd' as [Hin Heq]. apply String.eqb_eq in Heq.
    rewrite Forall_forall in Hds.
    rewrite (ordinary_video_key d' (Hds d' Hin)), Heq. reflexivity. }
  apply filter_sorted, sort_newer_first_sorted.
Qed.

Lemma dashboard_partitions_the_detections_witness :
  exists videos,
    get_dashboard IndexJs sample_env VUndefined VUndefined sample_world
    = (Ok (dashboard_page IndexJs videos VUndefined VUndefined), sample_world)
    /\ Permutation (flat_map v_detections videos)
         sample_world.(db_detections).
Proof.
  assert (Hord : Forall (fun d => ordinary_video d = true)
                   sample_world.(db_detections)).
  { repeat constructor. }
  destruct (dashboard_partitions_the_detections IndexJs sample_env
              VUndefined VUndefined sample_world eq_refl Hord)
    as (vs & H1 & H2 & _).
  exists vs. split; assumption.
Defined.

Lemma group_step_no_inherited (m m' : videoMap) (d : detection) :
  Forall (fun kv => inherited (fst kv) = false) m ->
  group_step m d = Ok m' ->
  Forall (fun kv => inherited (fst kv) = false) m'.
Proof.
  intros Hm. unfold group_step.
  destruct (ToString d.(videoId)) as [k|]; cbn [bind]; [|discriminate].
  destruct (own k m).
  - intro H. injection H as <-.
    apply Forall_forall. intros kv Hkv.
    assert (Hin : In (fst kv) (map fst (push_detection k d m))).
    { apply in_map, Hkv. }
    rewrite push_detection_keys in Hin.
    apply in_map_iff in Hin as (kv' & Heq & Hin').
    rewrite Forall_forall in Hm. rewrite <- Heq. apply Hm, Hin'.
  - destruct (inherited k) eqn:Hk; [discriminate|].
    intro H. injection H as <-.
    apply Forall_app. split; [exact Hm|].
    constructor; [exact Hk|constructor].
Qed.

Lemma own_not_inherited (m : videoMap) (k : string) :
  Forall (fun kv => inherited (fst kv) = false) m ->
  inherited k = true -> own k m = None.
Proof.
  intros Hm Hk. apply own_has_own. unfold has_own.
  apply not_true_is_false. intro H.
  apply existsb_exists in H as (x & Hx & Heq).
  apply String.eqb_eq in Heq. subst x.
  apply in_map_iff in Hx as (kv & Hf & Hin).
  rewrite Forall_forall in Hm. specialize (Hm kv Hin).
  rewrite Hf in Hm. congruence.
Qed.

Lemma group_loop_inherited (ds : list detection) (m : videoMap)
    (d : detection) (k : string) :
  Forall (fun kv => inherited (fst kv) = false) m ->
  In d ds -> d.(videoId) = VStr k -> inherited k = true ->
  exists e, group_loop m ds = Throw e.
Proof.
  revert m. induction ds as [|x ds IH]; intros m Hm Hin Hk Hinh;
    [destruct Hin|].
  cbn [group_loop].
  destruct (group_step m x) as [m'|e] eqn:Hstep; cbn [bind]; [|eauto].
  destruct Hin as [->|Hin].
  - unfold group_step in Hstep. rewrite Hk in Hstep.
    cbn [ToString bind] in Hstep.
    rewrite (own_not_inherited m k Hm Hinh), Hinh in Hstep. discriminate.
  - apply (IH m'); auto. apply (group_step_no_inherited m m' x Hm Hstep).
Qed.

(** One stored detection whose video id names a member of
    [Object.prototype] ("constructor", "toString", "__proto__", ...) is
    enough for the dashboard to show its error page, without any video,
    whatever else is stored. *)
Theorem prototype_name_breaks_the_dashboard
    (V : variant) (E : env) (message error : jsval) (w : world)
    (d : detection) (k : string) :
  In d w.(db_detections) ->
  d.(videoId) = VStr k ->
  inherited k = true ->
  get_dashboard V E message error w = (Ok (dashboard_failed V), w).
Proof.
  intros Hd Hk Hinh. unfold get_dashboard, listAll, db_find.
  destruct (db_up E); cbn [bind]; [|reflexivity].
  rewrite filter_all. unfold group_by_video.
  destruct (group_loop_inherited (sort_by newer_first w.(db_detections)) []
              d k) as [e ->]; auto.
  apply sort_by_In, Hd.
Qed.

Lemma prototype_name_breaks_the_dashboard_witness :
  get_dashboard Part000_first sample_env VUndefined VUndefined
    constructor_video
  = (Ok (dashboard_failed Part000_first), constructor_video).
Proof.
  apply (prototype_name_breaks_the_dashboard Part000_first sample_env
           VUndefined VUndefined constructor_video
           (sample_detection 2 "constructor" "cup" 2000 0) "constructor").
  - right. left. reflexivity.
  - reflexivity.
  - reflexivity.
Defined.

(** ** Video ids that are array indices *)

(** The same loop, array indices allowed among the video ids. *)
Lemma group_loop_named (ds : list detection) (m : videoMap) :
  Forall (fun d => named_video d = true) ds ->
  NoDup (map fst m) ->
  group_loop m ds = Ok (grouped m ds).
Proof.
  intro Hds. revert m. induction Hds as [|d ds Hd _ IH]; intros m Hnd.
  - simpl. unfold grouped. simpl. rewrite app_nil_r. f_equal.
    induction m as [|[k v] m IHm]; simpl; [reflexivity|].
    inversion Hnd; subst. rewrite <- IHm by assumption.
    unfold of_video. simpl. rewrite extend_nil. reflexivity.
  - unfold named_video in Hd.
    destruct (videoId d) as [| | | |k0| |] eqn:Hvid; try discriminate.
    assert (Hkey : video_key d = k0).
    { unfold video_key. rewrite Hvid. reflexivity. }
    apply negb_true_iff in Hd. rename Hd into Hinh.
    cbn [group_loop]. unfold group_step. rewrite Hvid. cbn [ToString bind].
    destruct (own k0 m) as [v|] eqn:Hown.
    + (* the video already has an entry *)
      assert (Hhas : has_own m k0 = true).
      { destruct (has_own m k0) eqn:H; [reflexivity|].
        apply own_has_own in H. congruence. }
      cbn [bind].
      rewrite IH by (rewrite push_detection_keys; exact Hnd).
      f_equal. unfold grouped.
      rewrite (grouped_entries_push k0 d ds m Hkey Hnd). f_equal.
      cbn [map first_appearance]. rewrite Hkey. cbn [filter].
      unfold has_own at 2. fold (has_own m k0). rewrite Hhas. cbn [negb].
      rewrite filter_filter.
      assert (Hf : forall k, In k (first_appearance (map video_key ds)) ->
                (negb (String.eqb k0 k) && negb (has_own m k))%bool
                = negb (has_own (push_detection k0 d m) k)).
      { intros k _. unfold has_own. rewrite push_detection_keys.
        fold (has_own m k).
        destruct (String.eqb k0 k) eqn:Hk; simpl; [|reflexivity].
        apply String.eqb_eq in Hk. subst k. rewrite Hhas. reflexivity. }
      rewrite (filter_ext_in _ _ _ Hf).
      apply map_ext_filter. intros k Hk. f_equal.
      rewrite video_of_other; [reflexivity|].
      rewrite Hkey. apply not_true_is_false. intro Heq.
      apply String.eqb_eq in Heq. subst k.
      unfold has_own in Hk. rewrite push_detection_keys in Hk.
      fold (has_own m k0) in Hk. rewrite Hhas in Hk. discriminate.
    + (* the first detection of the video *)
      assert (Hhas : has_own m k0 = false) by (apply own_has_own, Hown).
      rewrite Hinh. cbn [bind].
      rewrite IH.
      2:{ rewrite map_app. simpl. apply NoDup_app; [exact Hnd|repeat constructor; intros []|].
          intros x Hx [Heq|[]]. subst x. unfold has_own in Hhas.
          assert (existsb (String.eqb k0) (map fst m) = true); [|congruence].
          apply existsb_exists. exists k0.
          split; [exact Hx|apply String.eqb_refl]. }
      f_equal. unfold grouped. rewrite map_app, <- app_assoc. f_equal.
      * apply map_ext_in. intros [k v] Hin. simpl. f_equal. f_equal.
        rewrite of_video_cons, Hkey.
        destruct (String.eqb k0 k) eqn:Hk; [|reflexivity].
        apply String.eqb_eq in Hk. subst k.
        unfold has_own in Hhas.
        assert (existsb (String.eqb k0) (map fst m) = true); [|congruence].
        apply existsb_exists. exists k0. split; [|apply String.eqb_refl].
        apply in_map_iff. exists (k0, v). split; [reflexivity|exact Hin].
      * cbn [map first_appearance]. rewrite Hkey. cbn [filter].
        rewrite Hhas. cbn [negb map app fst snd].
        f_equal.
        -- f_equal. unfold extend, video_of. cbn [v_videoId v_cameraId v_detections].
           rewrite of_video_cons, Hkey, String.eqb_refl. reflexivity.
        -- rewrite filter_filter.
           assert (Hf : forall k, In k (first_appearance (map video_key ds)) ->
                     negb (has_own (m ++ [(k0, {| v_videoId := VStr k0;
                                                  v_cameraId := cameraId d;
                                                  v_detections := [d] |})]) k)
                     = (negb (String.eqb k0 k) && negb (has_own m k))%bool).
           { intros k _. rewrite has_own_app, negb_orb, (String.eqb_sym k k0).
             apply andb_comm. }
           rewrite (filter_ext_in _ _ _ Hf).
           apply map_ext_filter. intros k Hk. f_equal.
           apply andb_true_iff in Hk as [Hk _]. apply negb_true_iff in Hk.
           symmetry. apply video_of_other. rewrite Hkey. exact Hk.
Qed.

Lemma entries_of_keys (ds : list detection) (ks : list string) :
  index_entries (map (fun k => (k, video_of k ds)) ks)
  = flat_map (fun k => match array_index k with
                       | Some i => [(i, video_of k ds)]
                       | None => []
                       end) ks
  /\ name_entries (map (fun k => (k, video_of k ds)) ks)
     = map (fun k => video_of k ds) (filter (fun k => negb (is_index k)) ks).
Proof.
  induction ks as [|k ks [IH1 IH2]]; simpl; [split; reflexivity|].
  unfold is_index. destruct (array_index k); simpl; rewrite IH1, IH2;
    split; reflexivity.
Qed.

Lemma index_leb_total (a b : N * video) :
  index_leb a b = true \/ index_leb b a = true.
Proof. unfold index_leb. rewrite !N.leb_le. lia. Qed.

Lemma index_leb_trans (a b c : N * video) :
  index_leb a b = true -> index_leb b c = true -> index_leb a c = true.
Proof. unfold index_leb. rewrite !N.leb_le. lia. Qed.

Lemma sorted_entries_videos (l : list (N * video)) :
  Forall (fun iv => video_index (snd iv) = Some (fst iv)) l ->
  StronglySorted (fun a b => index_leb a b = true) l ->
  StronglySorted index_le (map snd l).
Proof.
  intros Hl Hs. induction Hs as [|x l Hs IH Hx]; simpl; [constructor|].
  inversion Hl as [|? ? H1 H2]; subst.
  constructor; [apply IH, H2|].
  rewrite Forall_forall in Hx, H2 |- *.
  intros v Hv. apply in_map_iff in Hv as (y & <- & Hy).
  unfold index_le. rewrite H1, (H2 y Hy).
  apply N.leb_le. apply (Hx y Hy).
Qed.

(** On a store whose video ids are strings other than the names of
    [Object.prototype], the dashboard lists first the videos whose id is an
    array index, in ascending numeric order of the id and whatever their
    recency, and after them the other videos in the order of first
    appearance. *)
Theorem dashboard_lists_numbered_videos_first
    (V : variant) (E : env) (message error : jsval) (w : world) :
  E.(db_up) = true ->
  Forall (fun d => named_video d = true) w.(db_detections) ->
  let ds := sort_by newer_first w.(db_detections) in
  let ks := first_appearance (map video_key ds) in
  exists numbered,
    get_dashboard V E message error w
    = (Ok (dashboard_page V
             (numbered
              ++ map (fun k => video_of k ds)
                   (filter (fun k => negb (is_index k)) ks))
             message error), w)
    /\ Permutation numbered
         (map (fun k => video_of k ds) (filter is_index ks))
    /\ StronglySorted index_le numbered.
Proof.
  intros Hup Hnamed ds ks.
  assert (Hds : Forall (fun d => named_video d = true) ds).
  { rewrite Forall_forall in Hnamed |- *. intros d Hd.
    apply Hnamed. apply (proj1 (sort_by_In newer_first _ d)). exact Hd. }
  set (m := map (fun k => (k, video_of k ds)) ks).
  assert (Hgroup : group_loop [] ds = Ok m).
  { rewrite (group_loop_named ds [] Hds) by constructor.
    unfold grouped. cbn [map app]. f_equal. unfold m, ks.
    f_equal. apply filter_all. }
  destruct (entries_of_keys ds ks) as [Hidx Hnames]. fold m in Hidx, Hnames.
  exists (map snd (sort_by index_leb (index_entries m))).
  split.
  { unfold get_dashboard, listAll, db_find. rewrite Hup. cbn [bind].
    rewrite filter_all. fold ds. unfold group_by_video. rewrite Hgroup.
    cbn [bind]. unfold Object_values. rewrite Hnames. reflexivity. }
  split.
  { eapply perm_trans;
      [apply Permutation_map, Permutation_sym, sort_by_perm|].
    rewrite Hidx. clear. induction ks as [|k ks IH]; simpl; [constructor|].
    unfold is_index at 1. destruct (array_index k); simpl;
      [apply perm_skip|]; exact IH. }
  apply sorted_entries_videos.
  - apply Forall_forall. intros iv Hiv.
    apply (proj1 (sort_by_In index_leb _ iv)) in Hiv.
    rewrite Hidx in Hiv. apply in_flat_map in Hiv as (k & _ & Hk).
    destruct (array_index k) as [i|] eqn:Hi; [|destruct Hk].
    destruct Hk as [<-|[]]. simpl. unfold video_index. simpl. exact Hi.
  - apply (sort_by_sorted index_leb index_leb_total index_leb_trans).
Qed.

Lemma dashboard_lists_numbered_videos_first_witness :
  exists numbered,
    get_dashboard IndexJs sample_env VUndefined VUndefined numbered_videos
    = (Ok (dashboard_page IndexJs (numbered ++ []) VUndefined VUndefined),
       numbered_videos)
    /\ map v_videoId numbered = [VStr "1"; VStr "2"].
Proof.
  assert (Hn : Forall (fun d => named_video d = true)
                 numbered_videos.(db_detections)).
  { repeat constructor. }
  destruct (dashboard_lists_numbered_videos_first IndexJs sample_env
              VUndefined VUndefined numbered_videos eq_refl Hn)
    as (numbered & H1 & _).
  exists numbered. split; [exact H1|].
  vm_compute in H1. injection H1 as H1.
  apply (f_equal (map v_videoId)) in H1. rewrite map_app in H1.
  simpl in H1. rewrite app_nil_r in H1. symmetry. exact H1.
Defined.

(** ** The media of a video *)

Lemma set_public_idem (name : string) (fs : list (string * bool)) :
  set_public name (set_public name fs) = set_public name fs.
Proof.
  unfold set_public. rewrite map_map. apply map_ext.
  intros [n p]. simpl. destruct (String.eqb n name) eqn:H; simpl; rewrite H;
    reflexivity.
Qed.

Lemma set_public_exists (name other : string) (fs : list (string * bool)) :
  existsb (fun f => String.eqb (fst f) other) (set_public name fs)
  = existsb (fun f => String.eqb (fst f) other) fs.
Proof.
  unfold set_public. induction fs as [|[n p] fs IH]; simpl; [reflexivity|].
  rewrite IH. destruct (String.eqb n name); reflexivity.
Qed.

Lemma set_public_other (name other : string) (fs : list (string * bool)) :
  other <> name ->
  existsb (fun f => (String.eqb (fst f) other && snd f)%bool)
    (set_public name fs)
  = existsb (fun f => (String.eqb (fst f) other && snd f)%bool) fs.
Proof.
  intro Hne. unfold set_public.
  induction fs as [|[n p] fs IH]; simpl; [reflexivity|].
  rewrite IH. destruct (String.eqb n name) eqn:Hn; simpl; [|reflexivity].
  apply String.eqb_eq in Hn. subst n.
  assert (H : String.eqb name other = false).
  { apply String.eqb_neq. intro H. apply Hne. symmetry. exact H. }
  rewrite H. reflexivity.
Qed.

Lemma resolve_media_again (E : env) (v : string) (w w1 : world) (u : string) :
  resolve_media E v w = Ok (u, w1) -> resolve_media E v w1 = Ok (u, w1).
Proof.
  unfold resolve_media, file_exists, file_makePublic.
  destruct (exists_up E); cbn [bind]; [|discriminate].
  destruct (existsb _ (bucket_files w)) eqn:Hex; cbn [bind].
  - destruct (makePublic_up E); cbn [bind]; [|discriminate].
    intro H. injection H as <- <-. simpl.
    rewrite set_public_exists, Hex. cbn [bind]. simpl.
    rewrite set_public_idem. reflexivity.
  - intro H. injection H as <- <-. rewrite Hex. reflexivity.
Qed.

(** Opening the page of a video again gives the same page and changes
    nothing more: making the object public a second time has no effect. *)
Theorem video_page_is_idempotent
    (E : env) (v : string) (w w1 : world) (r : result response) :
  get_video E v w = (r, w1) -> get_video E v w1 = (r, w1).
Proof.
  intro H.
  assert (Hdb : w1.(db_detections) = w.(db_detections)).
  { replace w1 with (snd (get_video E v w)) by (rewrite H; reflexivity).
    apply get_video_world. }
  assert (Hlist : listByVideo E w1 v = listByVideo E w v).
  { unfold listByVideo, db_find. rewrite Hdb. reflexivity. }
  revert H. unfold get_video. rewrite Hlist.
  destruct (listByVideo E w v) as [[|d ds]|].
  - intro H. injection H as <- <-. reflexivity.
  - destruct (resolve_media E v w) as [[u w2]|] eqn:Hres.
    + intro H. injection H as <- <-.
      rewrite (resolve_media_again E v w w2 u Hres). reflexivity.
    + intro H. injection H as <- <-. rewrite Hres. reflexivity.
  - intro H. injection H as <- <-. reflexivity.
Qed.

Lemma video_page_is_idempotent_witness :
  get_video sample_env "v1" (snd (get_video sample_env "v1" sample_world))
  = get_video sample_env "v1" sample_world.
Proof.
  apply (video_page_is_idempotent sample_env "v1" sample_world).
  reflexivity.
Defined.

Lemma string_length_app (a b : string) :
  String.length (a ++ b) = (String.length a + String.length b)%nat.
Proof.
  induction a as [|c a IH]; simpl; [reflexivity|]. rewrite IH. reflexivity.
Qed.

Lemma string_app_cancel_r (a b s : string) :
  (a ++ s)%string = (b ++ s)%string -> a = b.
Proof.
  revert b. induction a as [|c a IH]; intros [|d b] H; simpl in H.
  - reflexivity.
  - apply (f_equal String.length) in H. simpl in H.
    rewrite string_length_app in H. lia.
  - apply (f_equal String.length) in H. simpl in H.
    rewrite string_length_app in H. lia.
  - injection H as -> H. f_equal. apply IH, H.
Qed.

Lemma video_file_inj (v v' : string) : video_file v = video_file v' -> v = v'.
Proof.
  unfold video_file. intro H. simpl in H.
  injection H as H. apply string_app_cancel_r in H. exact H.
Qed.

(** Opening the page of one video never changes the access of the object of
    another video: distinct video ids name distinct objects, and only the
    object of the video asked for is made public. *)
Theorem video_page_leaves_other_videos
    (E : env) (v other : string) (w : world) :
  other <> v ->
  video_file other <> video_file v
  /\ is_public (snd (get_video E v w)) (video_file other)
     = is_public w (video_file other).
Proof.
  intro Hne.
  assert (Hfile : video_file other <> video_file v).
  { intro H. apply Hne, video_file_inj, H. }
  split; [exact Hfile|].
  unfold get_video.
  destruct (listByVideo E w v) as [[|d ds]|]; simpl; try reflexivity.
  destruct (resolve_media E v w) as [[u w1]|] eqn:Hres; simpl;
    [|reflexivity].
  destruct (resolve_media_world E v w w1 u Hres) as [->| ->]; [reflexivity|].
  unfold is_public. simpl. apply set_public_other, Hfile.
Qed.

Lemma video_page_leaves_other_videos_witness :
  is_public (snd (get_video sample_env "v1" sample_world)) (video_file "v2")
  = is_public sample_world (video_file "v2").
Proof.
  apply (video_page_leaves_other_videos sample_env "v1" "v2" sample_world).
  discriminate.
Defined.

(** ** The credential *)

Lemma escape_head_not_dquote (l : list ascii) (d : ascii) (rest : list ascii) :
  escape_quotes l = d :: rest -> is_dquote d = false.
Proof.
  destruct l as [|c l]; simpl; [discriminate|].
  destruct (is_dquote c) eqn:Hc; intro H; injection H as <- _;
    [reflexivity|exact Hc].
Qed.

Lemma unescape_escape (l : list ascii) :
  unescape_quotes (escape_quotes l) = l.
Proof.
  induction l as [|c l IH]; [reflexivity|].
  cbn [escape_quotes]. destruct (is_dquote c) eqn:Hc.
  - cbn [unescape_quotes]. unfold is_dquote at 1. rewrite Ascii.eqb_refl.
    simpl. rewrite IH. f_equal. symmetry. apply Ascii.eqb_eq, Hc.
  - cbn [unescape_quotes].
    destruct (escape_quotes l) as [|d rest] eqn:He.
    + destruct l as [|c' l]; [reflexivity|].
      simpl in He. destruct (is_dquote c'); discriminate.
    + rewrite (escape_head_not_dquote l d rest He), andb_false_r.
      rewrite IH. reflexivity.
Qed.

Lemma last_app_one (l : list ascii) (c d : ascii) : last (l ++ [c]) d = c.
Proof.
  induction l as [|x l IH]; [reflexivity|].
  simpl. destruct (l ++ [c]) eqn:H; [destruct l; discriminate|].
  exact IH.
Qed.

(** The two files of part_000 recover a credential that was wrapped in
    double quotes with a backslash before each inner double quote, whatever
    the credential; a value that does not both start and end with a double
    quote is passed on as it is, as [src/index.js] passes every value. *)
Theorem wrapped_credential_is_recovered (s : string) :
  unwrap_credential (wrap_credential s) = s
  /\ (forall raw, quote_wrapped (chars raw) = false ->
        credential_text Part000_first raw = credential_text IndexJs raw
        /\ credential_text Part000_second raw = credential_text IndexJs raw).
Proof.
  split.
  - unfold unwrap_credential, wrap_credential, chars, text.
    rewrite list_ascii_of_string_of_list_ascii.
    assert (Hw : quote_wrapped (dquote :: escape_quotes (list_ascii_of_string s)
                                  ++ [dquote]) = true).
    { unfold quote_wrapped. rewrite app_comm_cons, last_app_one.
      reflexivity. }
    rewrite Hw. unfold slice_1_m1. cbn [tl].
    rewrite removelast_last, unescape_escape.
    apply string_of_list_ascii_of_string.
  - intros raw H. unfold credential_text, unwrap_credential. rewrite H.
    split; reflexivity.
Qed.

(** ** Numbers as a camera sends them *)

Lemma bson_number_positive (E : env) (m : N) (e : Z) :
  bson_number E (of_decimal false m e) = of_decimal false m e.
Proof.
  assert (H := of_decimal_sign false m e).
  destruct (of_decimal false m e) as [|s|s m' e']; try reflexivity.
  simpl in H. injection H as ->. reflexivity.
Qed.

Lemma num_Z_small_integer (n : N) :
  (n <= 2 ^ 53)%N -> num_Z (of_decimal false n 0) = Some (Z.of_N n).
Proof.
  intro Hn. unfold of_decimal. destruct (N.eqb n 0) eqn:Hz.
  - apply N.eqb_eq in Hz. subst n. reflexivity.
  - apply N.eqb_neq in Hz. cbn [Z.leb Z.compare Z.pow]. rewrite Z.mul_1_r.
    rewrite round_small_integer.
    + f_equal. lia.
    + split; [lia|]. change (2 ^ 53)%Z with (Z.of_N (2 ^ 53)). lia.
Qed.

(** A [timestampSec] sent as the decimal numeral of a non-negative integer
    is stored as the Number value of that integer, and so is one sent as a
    JSON number when the integer is at most [2^53].  Up to [2^53] the
    Number value is the integer itself; beyond, it is the nearest binary64
    value: 9007199254740993 is stored as 9007199254740992. *)
Theorem integer_timestampSec_is_kept
    (E : env) (b : payload) (w w1 : world) (n : N) :
  post_detection E b w = (Ok logged_response, w1) ->
  (b.(p_timestampSec) = VNum (of_decimal false n 0) /\ (n <= 2 ^ 53)%N)
  \/ b.(p_timestampSec) = VStr (numeral n) ->
  exists d,
    w1.(db_detections) = w.(db_detections) ++ [d]
    /\ d.(timestampSec) = of_decimal false n 0
    /\ ((n <= 2 ^ 53)%N -> num_Z d.(timestampSec) = Some (Z.of_N n))
    /\ num_Z (of_decimal false 9007199254740993 0)
       = Some 9007199254740992%Z.
Proof.
  intros Hp Hsec.
  destruct (post_detection_logged E b w w1 _ Hp)
    as [[Hr _]|(_ & _ & _ & _ & d0 & d & Hnew & Hser & _ & ->)];
    [destruct Hr; reflexivity|].
  exists d. split; [reflexivity|].
  destruct (new_detection_fields E b d0 Hnew) as (_ & _ & _ & _ & _ & H).
  destruct (bson_detection_fields E d0 d Hser)
    as (_ & _ & _ & _ & _ & _ & Hd & _).
  assert (Hstored : d.(timestampSec) = of_decimal false n 0).
  { rewrite Hd. destruct Hsec as [[Hs Hlen]| Hs]; rewrite Hs in H.
    - rewrite (parseInt_small_integer n Hlen) in H. injection H as <-.
      apply bson_number_positive.
    - rewrite parseInt_numeral in H. injection H as <-.
      apply bson_number_positive. }
  split; [exact Hstored|].
  split; [|vm_compute; reflexivity].
  intro Hn. rewrite Hstored. apply num_Z_small_integer, Hn.
Qed.

Lemma integer_timestampSec_is_kept_witness :
  exists d,
    (snd (post_detection sample_env
            (with_timestampSec (VStr "42") sample_payload)
            sample_world)).(db_detections)
    = sample_world.(db_detections) ++ [d]
    /\ num_Z d.(timestampSec) = Some 42%Z.
Proof.
  destruct (integer_timestampSec_is_kept sample_env
              (with_timestampSec (VStr "42") sample_payload) sample_world
              (snd (post_detection sample_env
                      (with_timestampSec (VStr "42") sample_payload)
                      sample_world)) 42)
    as (d & H1 & _ & H2 & _).
  - vm_compute. reflexivity.
  - right. reflexivity.
  - exists d. split; [exact H1|]. apply H2. vm_compute. discriminate.
Defined.

(** A [confidence] sent as a JSON number is stored as that number, whatever
    its digits and its size: Number::toString prints digits that
    [parseFloat] reads back as the same binary64 value. *)
Theorem number_confidence_is_kept
    (E : env) (b : payload) (w w1 : world) (neg : bool) (m : N) (e : Z) :
  post_detection E b w = (Ok logged_response, w1) ->
  b.(p_confidence) = VNum (of_decimal neg m e) ->
  exists d,
    w1.(db_detections) = w.(db_detections) ++ [d]
    /\ d.(confidence) = of_decimal neg m e.
Proof.
  intros Hp Hc.
  destruct (post_detection_logged E b w w1 _ Hp)
    as [[Hr _]|(_ & Hm & _ & _ & d0 & d & Hnew & Hser & _ & ->)];
    [destruct Hr; reflexivity|].
  exists d. split; [reflexivity|].
  destruct (new_detection_fields E b d0 Hnew) as (_ & _ & _ & _ & H & _).
  destruct (bson_detection_fields E d0 d Hser)
    as (_ & _ & _ & _ & Hd & _).
  assert (Ht : ToBoolean (VNum (of_decimal neg m e)) = true).
  { rewrite <- Hc. unfold missing_fields in Hm.
    repeat (apply orb_false_elim in Hm as [Hm ?]).
    apply negb_false_iff. assumption. }
  rewrite Hc, (parseFloat_number _ (of_decimal_binary64 neg m e)) in H.
  rewrite Hd. injection H as <-.
  destruct (of_decimal neg m e) as [|s|[] [|p] e']; try reflexivity;
    discriminate Ht.
Qed.

Lemma number_confidence_is_kept_witness :
  exists d,
    (snd (post_detection sample_env sample_payload sample_world)).(db_detections)
    = sample_world.(db_detections) ++ [d]
    /\ d.(confidence) = of_decimal false 87 (-2).
Proof.
  apply (number_confidence_is_kept sample_env sample_payload sample_world).
  - vm_compute. reflexivity.
  - reflexivity.
Defined.

(** ** How the routes compose *)

Lemma delete_first_gone (oid : ObjectId) (coll : list detection) :
  NoDup (map _id coll) -> has_id oid (delete_first oid coll) = false.
Proof.
  induction coll as [|x coll IH]; simpl; [reflexivity|].
  intro H. inversion H as [|? ? Hx Hnd]; subst.
  destruct (N.eqb x.(_id) oid) eqn:Hxo.
  - apply N.eqb_eq in Hxo. subst oid.
    apply not_true_is_false. intro Hh. apply has_id_in in Hh. contradiction.
  - simpl. rewrite Hxo. apply IH, Hnd.
Qed.

(** On a store with unique ids, a record that was deleted with success is
    gone: no stored record has its id any more, so no listing, search or
    lookup returns it. *)
Theorem deleted_record_is_gone
    (E : env) (id : string) (oid : ObjectId) (w w1 : world) :
  NoDup (ids w) ->
  E.(ObjectId_of_string) id = Some oid ->
  post_delete E id w = (Ok deleted_response, w1) ->
  (forall d, In d w1.(db_detections) -> d.(_id) <> oid)
  /\ (forall ds, listAll E w1 = Ok ds -> forall d, In d ds -> d.(_id) <> oid)
  /\ (forall v ds, listByVideo E w1 v = Ok ds ->
        forall d, In d ds -> d.(_id) <> oid)
  /\ (forall item ds, search E w1 item = Ok ds ->
        forall d, In d ds -> d.(_id) <> oid).
Proof.
  intros Hnd Hoid Hdel.
  assert (Hgone : forall d, In d w1.(db_detections) -> d.(_id) <> oid).
  { revert Hdel. unfold post_delete, ObjectId_new, deleteOne.
    rewrite Hoid. cbn [bind]. destruct (db_up E); [|discriminate].
    intro H. injection H as <-. simpl. intros d Hd.
    apply (has_id_false oid (delete_first oid (db_detections w)) d);
      [apply delete_first_gone, Hnd|exact Hd]. }
  split; [exact Hgone|].
  split; [|split].
  - unfold listAll, db_find. destruct (db_up E); cbn [bind]; [|discriminate].
    intros ds H d Hd. injection H as <-.
    apply sort_by_In, filter_In in Hd. apply Hgone, Hd.
  - unfold listByVideo, db_find.
    destruct (db_up E); cbn [bind]; [|discriminate].
    intros v ds H d Hd. injection H as <-.
    apply sort_by_In, filter_In in Hd. apply Hgone, Hd.
  - unfold search, db_find. intros item ds.
    destruct (RegExp_new E item); cbn [bind]; [|discriminate].
    destruct (db_up E); cbn [bind]; [|discriminate].
    intros H d Hd. injection H as <-.
    apply sort_by_In, filter_In in Hd. apply Hgone, Hd.
Qed.

Lemma deleted_record_is_gone_witness :
  Forall (fun d => d.(_id) <> 2%N)
    (snd (post_delete sample_env "000000000000000000000002"
            sample_world)).(db_detections).
Proof.
  assert (Hnd : NoDup (ids sample_world)).
  { unfold ids. simpl. repeat constructor; simpl; intuition discriminate. }
  destruct (deleted_record_is_gone sample_env "000000000000000000000002" 2%N
              sample_world
              (snd (post_delete sample_env "000000000000000000000002"
                      sample_world)) Hnd eq_refl eq_refl) as [H _].
  apply Forall_forall. exact H.
Defined.

(** After a detection with a string label is logged into a store that
    follows the data model, the item list holds exactly the labels it held
    before and the new label. *)
Theorem item_list_gains_the_new_label
    (E : env) (b : payload) (w w1 : world) (label : string)
    (before : list string) :
  Forall (fun d => conforms d = true) w.(db_detections) ->
  post_detection E b w = (Ok logged_response, w1) ->
  is_string b.(p_cameraId) = true ->
  is_string b.(p_videoId) = true ->
  b.(p_item) = VStr label ->
  get_items E w = (Ok (items_response before), w) ->
  exists after,
    get_items E w1 = (Ok (items_response after), w1)
    /\ (forall s, In s after <-> In s before \/ s = label)
    /\ StronglySorted string_lt after.
Proof.
  intros Hconf Hp Hcam Hvid Hitem Hbefore.
  destruct (post_detection_logged E b w w1 _ Hp)
    as [[Hr _]|(_ & _ & Hup & _ & d0 & d & Hnew & Hser & _ & ->)];
    [destruct Hr; reflexivity|].
  destruct (new_detection_fields E b d0 Hnew) as (H1 & H2 & H3 & _).
  destruct (bson_detection_fields E d0 d Hser) as (_ & B1 & B2 & B3 & _).
  rewrite H1 in B1. rewrite H2 in B2. rewrite H3, Hitem in B3.
  apply to_bson_string in B3. rename B3 into H3'.
  assert (Hd : conforms d = true).
  { unfold conforms. rewrite H3'.
    destruct b.(p_cameraId); try discriminate Hcam.
    destruct b.(p_videoId); try discriminate Hvid.
    apply to_bson_string in B1, B2. rewrite B1, B2. reflexivity. }
  assert (Hget : forall w0 : world,
            Forall (fun d => conforms d = true) w0.(db_detections) ->
            get_items E w0
            = (Ok (items_response
                     (sort_by String.leb
                        (first_appearance
                           (map item_label w0.(db_detections))))), w0)).
  { intros w0 H0. unfold get_items, distinctItems, distinct_items.
    rewrite Hup. cbn [bind].
    rewrite (conforming_items _ H0), dedup_strings, Array_sort_strings.
    reflexivity. }
  rewrite (Hget w Hconf) in Hbefore.
  assert (Hb : before = sort_by String.leb
                          (first_appearance (map item_label w.(db_detections)))).
  { injection Hbefore as H. symmetry.
    revert H. generalize (sort_by String.leb
                            (first_appearance
                               (map item_label (db_detections w)))).
    intros l H. revert before H. induction l as [|x l IH]; intros [|y l'] H;
      try discriminate; [reflexivity|].
    simpl in H. injection H as -> H. f_equal. apply IH, H. }
  eexists. split.
  { apply Hget. simpl. apply Forall_app. split; [exact Hconf|].
    constructor; [exact Hd|constructor]. }
  split.
  - intro s. rewrite Hb, !sort_by_In, !first_appearance_In. simpl.
    rewrite map_app, in_app_iff. simpl. unfold item_label at 2.
    rewrite H3'. intuition.
  - apply sort_strings_strict, first_appearance_NoDup.
Qed.

Lemma item_list_gains_the_new_label_witness :
  exists after,
    get_items sample_env
      (snd (post_detection sample_env
              (with_item (VStr "apple") sample_payload) sample_world))
    = (Ok (items_response after),
       snd (post_detection sample_env
              (with_item (VStr "apple") sample_payload) sample_world))
    /\ (forall s, In s after <->
                  In s ["Teacup"; "bottle"; "cup"] \/ s = "apple").
Proof.
  assert (Hconf : Forall (fun d => conforms d = true)
                    sample_world.(db_detections)).
  { repeat constructor. }
  destruct (item_list_gains_the_new_label sample_env
              (with_item (VStr "apple") sample_payload) sample_world
              (snd (post_detection sample_env
                      (with_item (VStr "apple") sample_payload) sample_world))
              "apple" ["Teacup"; "bottle"; "cup"]
              Hconf eq_refl eq_refl eq_refl eq_refl eq_refl)
    as (after & H1 & H2 & _).
  exists after. split; assumption.
Defined.

(** While the store cannot be reached no request changes anything, neither
    a record nor a bucket object. *)
Theorem store_outage_changes_nothing
    (V : variant) (E : env) (r : request) (w : world) :
  E.(db_up) = false -> snd (handle V E r w) = w.
Proof.
  intro Hdown.
  destruct (reads_only r) eqn:Hr; [apply reads_leave_world, Hr|].
  destruct r as [m e|i|v|i|b| |id]; try discriminate; simpl.
  - assert (Hv : snd (get_video E v w) = w).
    { unfold get_video, listByVideo, db_find. rewrite Hdown. reflexivity. }
    destruct V; [exact Hv|reflexivity|exact Hv].
  - unfold post_detection. destruct (missing_fields b); [reflexivity|].
    destruct (new_detection E b); cbn [bind]; [|reflexivity].
    unfold insertOne. rewrite Hdown. reflexivity.
  - unfold post_delete. destruct (ObjectId_new E id); cbn [bind];
      [|reflexivity].
    unfold deleteOne. rewrite Hdown. reflexivity.
Qed.

Lemma store_outage_changes_nothing_witness :
  snd (handle IndexJs (store_down sample_env) (PostDetection sample_payload)
         sample_world) = sample_world.
Proof.
  apply store_outage_changes_nothing. reflexivity.
Defined.

(** ** Search terms that are not patterns *)





